(** * Nexus crypto analysis: indicator library, prediction engine and
      accuracy evaluation

    A shallow embedding of
      - [src/analysis/indicators/technicalIndicators.js]  (modules [TechnicalIndicators],
                                                           [TechnicalIndicators2]),
      - [src/analysis/predictions/engine.js]              (modules [PredictionEngine],
                                                           [PredictionEngine2]),
      - the SQLite database manager                       (modules [DatabaseManager],
                                                           [DatabaseManager2]),
    followed by the properties of the quantitative pipeline.

    Numbers.  A JavaScript number is modelled by [JsNum.num]: an exact
    rational, or one of the three IEEE special values [+Infinity],
    [-Infinity] and [NaN].  Rounding of binary64 arithmetic and the sign of
    zero are idealised away; everything else (what a division by zero
    returns, how [NaN] compares, what [Math.max] does with it) follows the
    language.  So that the properties also hold of the rounded results,
    an equality between two results is stated in the order of operations
    of the code, and a product or a bound that rounding can miss by a last
    digit is stated up to the relative [tolerance]. *)

From Stdlib Require Import String QArith Qabs Qround Lqa Lia ZArith List Bool Sorted
  Permutation.
Import ListNotations.

Open Scope Q_scope.

(* ================================================================== *)
(** ** JavaScript numbers *)

Module JsNum.

Inductive num : Type :=
| Fin (q : Q)
| PosInf
| NegInf
| NaN.

Definition of_nat (n : nat) : num := Fin (inject_Z (Z.of_nat n)).

Definition neg (x : num) : num :=
  match x with
  | Fin q => Fin (- q)
  | PosInf => NegInf
  | NegInf => PosInf
  | NaN => NaN
  end.

Definition add (x y : num) : num :=
  match x, y with
  | NaN, _ | _, NaN => NaN
  | Fin a, Fin b => Fin (a + b)
  | PosInf, NegInf | NegInf, PosInf => NaN
  | PosInf, _ | _, PosInf => PosInf
  | NegInf, _ | _, NegInf => NegInf
  end.

Definition sub (x y : num) : num := add x (neg y).

(** An infinity scaled by the sign of a rational: [0 * Infinity] is [NaN]. *)
Definition scale_inf (q : Q) (i : num) : num :=
  match q ?= 0 with
  | Eq => NaN
  | Gt => i
  | Lt => neg i
  end.

Definition mul (x y : num) : num :=
  match x, y with
  | NaN, _ | _, NaN => NaN
  | Fin a, Fin b => Fin (a * b)
  | Fin a, i => scale_inf a i
  | i, Fin b => scale_inf b i
  | PosInf, PosInf | NegInf, NegInf => PosInf
  | PosInf, NegInf | NegInf, PosInf => NegInf
  end.

(** Division: [x / 0] is an infinity of the sign of [x], and [0 / 0] is
    [NaN]; a finite number over an infinity is [0]. *)
Definition div (x y : num) : num :=
  match x, y with
  | NaN, _ | _, NaN => NaN
  | Fin a, Fin b =>
      if Qeq_bool b 0 then
        match a ?= 0 with
        | Eq => NaN
        | Gt => PosInf
        | Lt => NegInf
        end
      else Fin (a / b)
  | Fin _, _ => Fin 0
  | i, Fin b => if Qle_bool 0 b then i else neg i
  | _, _ => NaN
  end.

(** [Math.abs]. *)
Definition abs (x : num) : num :=
  match x with
  | Fin q => Fin (Qabs q)
  | PosInf | NegInf => PosInf
  | NaN => NaN
  end.

(** [x < y]; every comparison with [NaN] is false. *)
Definition ltb (x y : num) : bool :=
  match x, y with
  | NaN, _ | _, NaN => false
  | Fin a, Fin b => negb (Qle_bool b a)
  | NegInf, NegInf | PosInf, _ => false
  | NegInf, _ => true
  | Fin _, PosInf => true
  | Fin _, NegInf => false
  end.

Definition gtb (x y : num) : bool := ltb y x.

(** [x <= y]. *)
Definition leb (x y : num) : bool :=
  match x, y with
  | NaN, _ | _, NaN => false
  | Fin a, Fin b => Qle_bool a b
  | NegInf, _ | _, PosInf => true
  | _, _ => false
  end.

Definition geb (x y : num) : bool := leb y x.

(** [x === y] on numbers. *)
Definition strict_eq (x y : num) : bool :=
  match x, y with
  | Fin a, Fin b => Qeq_bool a b
  | PosInf, PosInf | NegInf, NegInf => true
  | _, _ => false
  end.

(** [Math.max(x, y)] and [Math.min(x, y)]: [NaN] if either argument is. *)
Definition max (x y : num) : num :=
  match x, y with
  | NaN, _ | _, NaN => NaN
  | _, _ => if ltb x y then y else x
  end.

Definition min (x y : num) : num :=
  match x, y with
  | NaN, _ | _, NaN => NaN
  | _, _ => if ltb y x then y else x
  end.

(** [Math.max(...l)] and [Math.min(...l)]; on no argument they are
    [-Infinity] and [+Infinity]. *)
Definition max_list (l : list num) : num := fold_left max l NegInf.
Definition min_list (l : list num) : num := fold_left min l PosInf.

(** ToBoolean on a number: [0] and [NaN] are falsy. *)
Definition truthy (x : num) : bool :=
  match x with
  | Fin q => negb (Qeq_bool q 0)
  | NaN => false
  | _ => true
  end.

(** Two numbers denote the same value ([Q] is not canonical). *)
Definition same (x y : num) : Prop :=
  match x, y with
  | Fin a, Fin b => a == b
  | PosInf, PosInf | NegInf, NegInf | NaN, NaN => True
  | _, _ => False
  end.

(** [l.reduce((a, b) => a + b, 0)]. *)
Definition sum (l : list num) : num := fold_left add l (Fin 0).

End JsNum.

Import JsNum.

Declare Scope js_scope.
Delimit Scope js_scope with js.
Bind Scope js_scope with num.
Infix "+" := add : js_scope.
Infix "-" := sub : js_scope.
Infix "*" := mul : js_scope.
Infix "/" := div : js_scope.
Infix "<?" := ltb : js_scope.
Infix ">?" := gtb : js_scope.
Infix "<=?" := leb : js_scope.
Infix ">=?" := geb : js_scope.
Infix "===" := strict_eq (at level 70, no associativity) : js_scope.
Infix "=~" := same (at level 70, no associativity) : js_scope.

(* ================================================================== *)
(** ** Arrays *)

(** [l.slice(start, stop)] for [0 <= start <= stop]. *)
Definition slice {A : Type} (start stop : nat) (l : list A) : list A :=
  firstn (stop - start) (skipn start l).

(** [l.slice(-n)]: the last [n] elements, for [n > 0]. *)
Definition slice_last {A : Type} (n : nat) (l : list A) : list A :=
  skipn (length l - n) l.

(** The indices of [for (let i = lo; i < hi; i++)]. *)
Definition range (lo hi : nat) : list nat := seq lo (hi - lo).

(** [l[i]] read as a number: an index out of range gives [undefined],
    which every arithmetic operator and comparison turns into [NaN]. *)
Definition get (l : list num) (i : nat) : num := nth i l NaN.

(** [l[l.length - n]] read as a number, for [n > 0]; the index is negative,
    and the value [undefined], when the array is shorter. *)
Definition get_from_end (l : list num) (n : nat) : num :=
  if (length l <? n)%nat then NaN else get l (length l - n).

(** [l[l.length - 1]], [undefined] ([None]) on the empty array. *)
Definition last_elem {A : Type} (l : list A) : option A :=
  nth_error l (length l - 1).

(* ================================================================== *)
(** ** technicalIndicators.js *)

Module TechnicalIndicators.

Local Open Scope js_scope.

(** One hourly bar, as [constructOHLC] builds it. *)
Record OHLC : Type := mkOHLC {
  timestamp : Z;
  open : num;
  high : num;
  low : num;
  close : num;
  volume : num
}.

(** [null] is [None]. A period is a positive integer. *)
Definition calculateSMA (prices : list num) (period : positive)
  : option (list num) :=
  let p := Pos.to_nat period in
  if (length prices <? p)%nat then None
  else Some (map (fun i => sum (slice (i + 1 - p) (i + 1) prices) / of_nat p)
                 (range (p - 1) (length prices))).

(** The exponential recurrence [ema[i] = prices[i] * k + ema[i - 1] * (1 - k)]
    of the loop of [calculateEMA], [prev] being [ema[i - 1]]. *)
Fixpoint ema_loop (k prev : num) (rest : list num) : list num :=
  match rest with
  | [] => []
  | x :: rest' =>
      let e := x * k + prev * (Fin 1 - k) in
      e :: ema_loop k e rest'
  end.

Definition calculateEMA (prices : list num) (period : positive)
  : option (list num) :=
  let p := Pos.to_nat period in
  if (length prices <? p)%nat then None
  else
    let k := Fin 2 / (of_nat p + Fin 1) in
    match prices with
    | [] => None (* not reached: a period is at least 1 *)
    | first :: rest => Some (first :: ema_loop k first rest)
    end.

(** [changes[i - 1] = prices[i] - prices[i - 1]]. *)
Fixpoint changes_from (prev : num) (rest : list num) : list num :=
  match rest with
  | [] => []
  | x :: rest' => (x - prev) :: changes_from x rest'
  end.

Definition changes_of (prices : list num) : list num :=
  match prices with
  | [] => []
  | first :: rest => changes_from first rest
  end.

(** The seeding loop of [calculateRSI] over the first [period] changes. *)
Definition rsi_seed_step (acc : num * num) (change : num) : num * num :=
  let '(avgGain, avgLoss) := acc in
  if change >? Fin 0 then (avgGain + change, avgLoss)
  else (avgGain, avgLoss + abs change).

Definition rsi_seed (cs : list num) : num * num :=
  fold_left rsi_seed_step cs (Fin 0, Fin 0).

(** The main loop of [calculateRSI]: one value is pushed per remaining
    change, computed from the averages before that change is folded in. *)
Fixpoint rsi_loop (p : num) (avgGain avgLoss : num) (rest : list num)
  : list num :=
  match rest with
  | [] => []
  | change :: rest' =>
      let rs := if avgLoss === Fin 0 then Fin 100 else avgGain / avgLoss in
      let value := Fin 100 - Fin 100 / (Fin 1 + rs) in
      let gain := if change >? Fin 0 then change else Fin 0 in
      let loss := if change <? Fin 0 then abs change else Fin 0 in
      value :: rsi_loop p ((avgGain * (p - Fin 1) + gain) / p)
                          ((avgLoss * (p - Fin 1) + loss) / p) rest'
  end.

Definition calculateRSI (prices : list num) (period : positive)
  : option (list num) :=
  let p := Pos.to_nat period in
  if (length prices <? p + 1)%nat then None
  else
    let changes := changes_of prices in
    let '(g, l) := rsi_seed (firstn p changes) in
    Some (rsi_loop (of_nat p) (g / of_nat p) (l / of_nat p) (skipn p changes)).

Record MACD : Type := mkMACD {
  macd : list num;
  signal : option (list num);
  histogram : list num
}.

Definition calculateMACD (prices : list num)
    (fastPeriod slowPeriod signalPeriod : positive) : option MACD :=
  match calculateEMA prices fastPeriod, calculateEMA prices slowPeriod with
  | Some fastEMA, Some slowEMA =>
      let macdLine :=
        map (fun i => get fastEMA i - get slowEMA i) (range 0 (length fastEMA)) in
      let signalLine := calculateEMA macdLine signalPeriod in
      let histogram :=
        match signalLine with
        | Some sl =>
            map (fun i =>
                   let macdIndex := (i + (length macdLine - length sl))%nat in
                   get macdLine macdIndex - get sl i)
                (range 0 (length sl))
        | None => []
        end in
      Some (mkMACD macdLine signalLine histogram)
  | _, _ => None
  end.

Record Stochastic : Type := mkStochastic {
  k : option (list num);
  d : option (list num)
}.

Definition calculateStochastic (ohlcData : list OHLC)
    (period smoothK smoothD : positive) : option Stochastic :=
  let p := Pos.to_nat period in
  if (length ohlcData <? p)%nat then None
  else
    let percentK :=
      map (fun i =>
             let window := slice (i + 1 - p) (i + 1) ohlcData in
             let high := max_list (map high window) in
             let low := min_list (map low window) in
             let close := get (map close ohlcData) i in
             ((close - low) / (high - low)) * Fin 100)
          (range (p - 1) (length ohlcData)) in
    let smoothedK := calculateSMA percentK smoothK in
    let percentD :=
      match smoothedK with
      | Some sk => calculateSMA sk smoothD
      | None => None
      end in
    Some (mkStochastic smoothedK percentD).

Definition calculateCCI (ohlcData : list OHLC) (period : positive)
  : option (list num) :=
  let p := Pos.to_nat period in
  if (length ohlcData <? p)%nat then None
  else
    let typicalPrices :=
      map (fun d => (high d + low d + close d) / Fin 3) ohlcData in
    Some (map (fun i =>
                 let window := slice (i + 1 - p) (i + 1) typicalPrices in
                 let sma := sum window / of_nat p in
                 let meanDeviation :=
                   fold_left (fun acc tp => acc + abs (tp - sma)) window (Fin 0)
                   / of_nat p in
                 (get typicalPrices i - sma) / (Fin 0.015 * meanDeviation))
              (range (p - 1) (length typicalPrices))).

(** [levels.sort((a, b) => a - b)]: the comparator puts [b] before [a]
    exactly when [a - b > 0]; the sort is stable. *)
Fixpoint sort_insert (x : num) (sorted : list num) : list num :=
  match sorted with
  | [] => [x]
  | y :: sorted' =>
      if (y - x) >? Fin 0 then x :: y :: sorted'
      else y :: sort_insert x sorted'
  end.

Definition sort_ascending (levels : list num) : list num :=
  fold_left (fun sorted x => sort_insert x sorted) levels [].

Definition average (cluster : list num) : num :=
  sum cluster / of_nat (length cluster).

(** The loop of [clusterLevels]; [prev] is [sorted[i - 1]]. *)
Fixpoint cluster_loop (prev : num) (currentCluster rest : list num)
  : list num :=
  match rest with
  | [] => [average currentCluster]
  | x :: rest' =>
      if (x - prev) / prev <? Fin 0.02
      then cluster_loop x (currentCluster ++ [x]) rest'
      else average currentCluster :: cluster_loop x [x] rest'
  end.

Definition clusterLevels (levels : list num) : list num :=
  match sort_ascending levels with
  | [] => []
  | first :: rest => cluster_loop first [first] rest
  end.

Record SupportResistance : Type := mkSupportResistance {
  resistance : list num;
  support : list num
}.

(** The raw levels: bars that are strict extrema among their two
    neighbours on each side. *)
Definition local_maxima (highs : list num) : list num :=
  flat_map (fun i =>
              if (get highs i >? get highs (i - 1)) && (get highs i >? get highs (i - 2)) &&
                 (get highs i >? get highs (i + 1)) && (get highs i >? get highs (i + 2))
              then [get highs i] else [])
           (range 2 (length highs - 2)).

Definition local_minima (lows : list num) : list num :=
  flat_map (fun i =>
              if (get lows i <? get lows (i - 1)) && (get lows i <? get lows (i - 2)) &&
                 (get lows i <? get lows (i + 1)) && (get lows i <? get lows (i + 2))
              then [get lows i] else [])
           (range 2 (length lows - 2)).

Definition calculateSupportResistance (ohlcData : list OHLC)
    (lookback : positive) : option SupportResistance :=
  let n := Pos.to_nat lookback in
  if (length ohlcData <? n)%nat then None
  else
    let recentData := slice_last n ohlcData in
    let highs := map high recentData in
    let lows := map low recentData in
    let resistanceLevels := local_maxima highs in
    let supportLevels := local_minima lows in
    Some (mkSupportResistance
            (slice_last 3 (clusterLevels resistanceLevels))
            (slice 0 3 (clusterLevels supportLevels))).

End TechnicalIndicators.

(* ================================================================== *)
(** ** Exceptions *)

Inductive JsError : Type :=
| TypeError.

Inductive result (A : Type) : Type :=
| Ok (a : A)
| Throw (e : JsError).

Arguments Ok {A} a.
Arguments Throw {A} e.

Definition bind {A B : Type} (c : result A) (f : A -> result B) : result B :=
  match c with
  | Ok a => f a
  | Throw e => Throw e
  end.

Notation "x <- c ;; f" := (bind c (fun x => f))
  (at level 61, c at next level, right associativity).

(** [ToNumber] of a value that may be [undefined]. *)
Definition num_of (v : option num) : num :=
  match v with
  | Some x => x
  | None => NaN
  end.

(** [ToNumber] of a value that may be [null] (an SQL [NULL]). *)
Definition num_of_nullable (v : option num) : num :=
  match v with
  | Some x => x
  | None => Fin 0
  end.

(** ToBoolean of a number that may be [undefined]. *)
Definition truthy_opt (v : option num) : bool :=
  match v with
  | Some x => truthy x
  | None => false
  end.

(** [v.toFixed(digits)]: a property read on [undefined] throws. The
    formatted text is represented by the number that is formatted. *)
Definition toFixed (v : option num) : result num :=
  match v with
  | Some x => Ok x
  | None => Throw TypeError
  end.

(* ================================================================== *)
(** ** The database manager *)

Module DatabaseManager.

Local Open Scope js_scope.

(** The columns of [cryptocurrencies] that the evaluation reads. *)
Record Cryptocurrency : Type := mkCryptocurrency {
  id : string;
  current_price : option num
}.

Record PriceHistory : Type := mkPriceHistory {
  ph_crypto_id : string;
  ph_timestamp : Z;
  price : num
}.

(** A row of [predictions] ([indicators_used], a JSON text, is left out).
    [None] is SQL [NULL]. *)
Record PredictionRow : Type := mkPredictionRow {
  p_id : nat;
  crypto_id : string;
  created_at : Z;
  prediction_type : string;
  timeframe : Z;
  predicted_direction : option string;
  predicted_probability : option num;
  predicted_price_range_low : option num;
  predicted_price_range_high : option num;
  confidence_level : option num;
  actual_direction : option string;
  actual_price : option num;
  was_accurate : option Z;
  evaluated_at : option Z
}.

Record DB : Type := mkDB {
  cryptocurrencies : list Cryptocurrency;
  price_history : list PriceHistory;
  predictions : list PredictionRow
}.

(** The argument object of [savePrediction]. *)
Record NewPrediction : Type := mkNewPrediction {
  cryptoId : string;
  createdAt : Z;
  type : string;
  np_timeframe : Z;
  direction : string;
  probability : num;
  priceRangeLow : num;
  priceRangeHigh : num;
  confidence : num
}.

(** [INTEGER PRIMARY KEY AUTOINCREMENT]; no row is ever deleted. *)
Definition next_id (rows : list PredictionRow) : nat :=
  S (fold_left Nat.max (map p_id rows) 0%nat).

(** The [INSERT] of [savePrediction], when it succeeds; the outcome
    columns stay [NULL]. The storage engine enforces the foreign key on
    [crypto_id]: for an asset that is not a row of [cryptocurrencies] the
    [INSERT] throws and stores nothing. That check is in
    [ForeignKeys.savePrediction]. *)
Definition savePrediction (db : DB) (prediction : NewPrediction) : DB :=
  let row :=
    mkPredictionRow (next_id (predictions db))
      (cryptoId prediction) (createdAt prediction) (type prediction)
      (np_timeframe prediction) (Some (direction prediction))
      (Some (probability prediction)) (Some (priceRangeLow prediction))
      (Some (priceRangeHigh prediction)) (Some (confidence prediction))
      None None None None in
  mkDB (cryptocurrencies db) (price_history db) (predictions db ++ [row]).

(** [SELECT p.*, c.current_price FROM predictions p JOIN cryptocurrencies c
    ON p.crypto_id = c.id] for one [p]; [id] is the primary key. *)
Definition join_cryptocurrency (db : DB) (p : PredictionRow)
  : option (PredictionRow * option num) :=
  match find (fun c => String.eqb (crypto_id p) (id c)) (cryptocurrencies db) with
  | Some c => Some (p, current_price c)
  | None => None
  end.

(** [WHERE p.evaluated_at IS NULL AND p.created_at + (p.timeframe * 1000) <= ?]. *)
Definition due (currentTime : Z) (p : PredictionRow) : bool :=
  match evaluated_at p with
  | None => (created_at p + timeframe p * 1000 <=? currentTime)%Z
  | Some _ => false
  end.

Definition select_due (db : DB) (currentTime : Z)
  : list (PredictionRow * option num) :=
  flat_map (fun p =>
              if due currentTime p then
                match join_cryptocurrency db p with
                | Some row => [row]
                | None => []
                end
              else [])
           (predictions db).

(** [SELECT price FROM price_history WHERE crypto_id = ? AND timestamp <= ?
    ORDER BY timestamp DESC LIMIT 1]. *)
Definition price_at (db : DB) (cid : string) (t : Z) : option PriceHistory :=
  fold_left (fun best r =>
               if String.eqb (ph_crypto_id r) cid && (ph_timestamp r <=? t)%Z then
                 match best with
                 | Some b => if (ph_timestamp b <? ph_timestamp r)%Z then Some r else best
                 | None => Some r
                 end
               else best)
            (price_history db) None.

(** [UPDATE predictions SET ... WHERE id = ?]. *)
Definition update_prediction (db : DB) (actualDirection : string)
    (actualPrice : option num) (wasAccurate : Z) (evaluatedAt : Z) (pid : nat)
  : DB :=
  mkDB (cryptocurrencies db) (price_history db)
    (map (fun p =>
            if (p_id p =? pid)%nat then
              mkPredictionRow (p_id p) (crypto_id p) (created_at p)
                (prediction_type p) (timeframe p) (predicted_direction p)
                (predicted_probability p) (predicted_price_range_low p)
                (predicted_price_range_high p) (confidence_level p)
                (Some actualDirection) actualPrice (Some wasAccurate)
                (Some evaluatedAt)
            else p)
         (predictions db)).

(** [actualDirection === pred.predicted_direction]. *)
Definition direction_matches (actualDirection : string) (predicted : option string)
  : bool :=
  match predicted with
  | Some s => String.eqb actualDirection s
  | None => false
  end.

(** The body of the loop of [evaluatePredictions] for one selected row:
    [pred] is the row of [predictions] and [currentPrice] the joined
    column [c.current_price]. The comparisons read [pred.actual_price]. *)
Definition evaluate_one (db : DB) (currentTime : Z)
    (row : PredictionRow * option num) : DB :=
  let '(pred, currentPrice) := row in
  match price_at db (crypto_id pred) (created_at pred) with
  | Some originalPrice =>
      let actual := num_of_nullable (actual_price pred) in
      let actualDirection :=
        if actual >? price originalPrice then "up"%string
        else if actual <? price originalPrice then "down"%string
        else "neutral"%string in
      let wasAccurate :=
        direction_matches actualDirection (predicted_direction pred) &&
        (actual >=? num_of_nullable (predicted_price_range_low pred)) &&
        (actual <=? num_of_nullable (predicted_price_range_high pred)) in
      update_prediction db actualDirection currentPrice
        (if wasAccurate then 1%Z else 0%Z) currentTime (p_id pred)
  | None => db
  end.

(** Returns the number of selected rows and the database after the updates. *)
Definition evaluatePredictions (db : DB) (currentTime : Z) : nat * DB :=
  let selected := select_due db currentTime in
  (length selected,
   fold_left (fun db' row => evaluate_one db' currentTime row) selected db).

(** SQL [ROUND(x, 2)], half away from zero. *)
Definition round2 (x : Q) : Q :=
  if Qle_bool 0 x then Qfloor (x * 100 + 1 / 2) # 100
  else - (Qfloor (- x * 100 + 1 / 2) # 100).

Record AccuracyStats : Type := mkAccuracyStats {
  total_predictions : nat;
  accurate_predictions : option Z;
  accuracy_percentage : option Q
}.

(** [COUNT( * )], [SUM(was_accurate)] and
    [ROUND(SUM(was_accurate) * 100.0 / COUNT( * ), 2)] over [rows]; [SUM]
    skips [NULL] and is [NULL] when nothing is left, and a division by zero
    is [NULL]. *)
Definition aggregate (rows : list PredictionRow) : AccuracyStats :=
  let total := length rows in
  let flags := flat_map (fun p => match was_accurate p with
                                  | Some w => [w]
                                  | None => []
                                  end) rows in
  let accurate :=
    match flags with
    | [] => None
    | _ => Some (fold_left Z.add flags 0%Z)
    end in
  mkAccuracyStats total accurate
    (match accurate, total with
     | Some a, S _ => Some (round2 (inject_Z a * 100 / inject_Z (Z.of_nat total)))
     | _, _ => None
     end).

Definition evaluated (p : PredictionRow) : bool :=
  match evaluated_at p with
  | Some _ => true
  | None => false
  end.

Record HistoricalAccuracy : Type := mkHistoricalAccuracy {
  overall : AccuracyStats;
  byTimeframe : list (Z * AccuracyStats);
  last30Days : AccuracyStats
}.

Definition getHistoricalAccuracy (db : DB) (now : Z) : HistoricalAccuracy :=
  let rows := filter evaluated (predictions db) in
  mkHistoricalAccuracy
    (aggregate rows)
    (map (fun tf => (tf, aggregate (filter (fun p => (timeframe p =? tf)%Z) rows)))
         (nodup Z.eq_dec (map timeframe rows)))
    (aggregate (filter (fun p => (now - 30 * 24 * 60 * 60 * 1000 <=? created_at p)%Z) rows)).

End DatabaseManager.

(* ================================================================== *)
(** ** The prediction engine *)

Module PredictionEngine.

Import TechnicalIndicators.
Local Open Scope string_scope.
Local Open Scope list_scope.
Local Open Scope js_scope.

Record BollingerBands : Type := mkBollingerBands {
  upper : list num;
  middle : list num;
  lower : list num;
  bandwidth : list num
}.

Record ADX : Type := mkADX {
  adx : option (list num);
  plusDI : list num;
  minusDI : list num
}.

(** The indicator snapshot that [getAnalysis] hands to the scorers (the
    entries that no scorer reads are left out). [None] is [null]. *)
Record Indicators : Type := mkIndicators {
  sma20 : option (list num);
  sma50 : option (list num);
  sma200 : option (list num);
  rsi : option (list num);
  macd : option MACD;
  stochastic : option Stochastic;
  cci : option (list num);
  bollingerBands : option BollingerBands;
  volatility : option (list num);
  volumeMA : option (list num);
  obv : option (list num);
  supportResistance : option SupportResistance;
  adx_ : option ADX
}.

(** A rationale line: the text of the source, and the numbers that its
    template formats with [toFixed]. *)
Inductive Signal : Type :=
| Msg (text : string) (formatted : list num).

Inductive VolatilityLevel : Type :=
| VeryHighVolatility   (* 'very high' *)
| HighVolatility       (* 'high' *)
| MediumVolatility     (* 'medium' *)
| LowVolatility.       (* 'low' *)

Record SignalScore : Type := mkSignalScore {
  score : num;
  signals : list Signal;
  volatilityLevel : option VolatilityLevel;
  strength : num
}.

Record IndicatorWeights : Type := mkIndicatorWeights {
  w_trend : num;
  w_momentum : num;
  w_volatility : num;
  w_volume : num;
  w_support_resistance : num;
  w_patterns : num
}.

Definition indicatorWeights : IndicatorWeights :=
  mkIndicatorWeights (Fin 0.25) (Fin 0.20) (Fin 0.15) (Fin 0.15) (Fin 0.15) (Fin 0.10).

(** The pair [score], [signals] that each scorer accumulates. *)
Definition Acc : Type := num * list Signal.

Definition start : Acc := (Fin 0, []).

(** [score += delta; signals.push(text)]. *)
Definition plus (delta : Q) (text : string) (formatted : list num) (a : Acc) : Acc :=
  (fst a + Fin delta, snd a ++ [Msg text formatted]).

(** [score -= delta; signals.push(text)]. *)
Definition minus (delta : Q) (text : string) (formatted : list num) (a : Acc) : Acc :=
  (fst a - Fin delta, snd a ++ [Msg text formatted]).

(** [signals.push(text)]. *)
Definition note (text : string) (formatted : list num) (a : Acc) : Acc :=
  (fst a, snd a ++ [Msg text formatted]).

(** [Math.max(-1, Math.min(1, score))]. *)
Definition clamp (s : num) : num := max (Fin (-1)) (min (Fin 1) s).

(** [indicators.x?.[indicators.x.length - 1]]. *)
Definition latest (series : option (list num)) : option num :=
  match series with
  | Some l => last_elem l
  | None => None
  end.

Definition trend_moving_averages (ind : Indicators) (currentPrice : num) (a : Acc)
  : Acc :=
  let sma20 := latest (sma20 ind) in
  let sma50 := latest (sma50 ind) in
  let sma200 := latest (sma200 ind) in
  if truthy_opt sma20 && truthy_opt sma50 && truthy_opt sma200 then
    let sma20 := num_of sma20 in
    let sma50 := num_of sma50 in
    let sma200 := num_of sma200 in
    let a :=
      if currentPrice >? sma20
      then plus 0.2 "Price above 20-day MA (bullish)" [] a
      else minus 0.2 "Price below 20-day MA (bearish)" [] a in
    let a :=
      if currentPrice >? sma50
      then plus 0.15 "Price above 50-day MA (bullish)" [] a
      else minus 0.15 "Price below 50-day MA (bearish)" [] a in
    let a :=
      if sma50 >? sma200 then plus 0.25 "Golden cross present (bullish)" [] a
      else if sma50 <? sma200 then minus 0.25 "Death cross present (bearish)" [] a
      else a in
    if (sma20 >? sma50) && (sma50 >? sma200)
    then plus 0.2 "MAs in bullish alignment" [] a
    else if (sma20 <? sma50) && (sma50 <? sma200)
    then minus 0.2 "MAs in bearish alignment" [] a
    else a
  else a.

Definition trend_adx (ind : Indicators) (a : Acc) : result Acc :=
  match adx_ ind with
  | Some x =>
      match adx x with
      | Some series =>
          let adx := last_elem series in
          let plusDI := last_elem (plusDI x) in
          let minusDI := last_elem (minusDI x) in
          if num_of adx >? Fin 25 then
            if num_of plusDI >? num_of minusDI then
              v <- toFixed adx ;;
              Ok (plus 0.2 "Strong uptrend detected (ADX: _)" [v] a)
            else
              v <- toFixed adx ;;
              Ok (minus 0.2 "Strong downtrend detected (ADX: _)" [v] a)
          else
            v <- toFixed adx ;;
            Ok (note "Weak trend (ADX: _)" [v] a)
      | None => Ok a
      end
  | None => Ok a
  end.

Definition finish (a : Acc) : SignalScore :=
  let score := clamp (fst a) in
  mkSignalScore score (snd a) None (abs score).

Definition analyzeTrend (ind : Indicators) (currentPrice : num)
  : result SignalScore :=
  a <- trend_adx ind (trend_moving_averages ind currentPrice start) ;;
  Ok (finish a).

Definition momentum_rsi (ind : Indicators) (a : Acc) : result Acc :=
  match rsi ind with
  | Some series =>
      let rsi := last_elem series in
      if num_of rsi <? Fin 30 then
        v <- toFixed rsi ;; Ok (plus 0.3 "RSI oversold (_) - potential bounce" [v] a)
      else if num_of rsi >? Fin 70 then
        v <- toFixed rsi ;; Ok (minus 0.3 "RSI overbought (_) - potential pullback" [v] a)
      else if (num_of rsi >? Fin 50) && (num_of rsi <? Fin 70) then
        v <- toFixed rsi ;; Ok (plus 0.1 "RSI bullish (_)" [v] a)
      else if (num_of rsi <? Fin 50) && (num_of rsi >? Fin 30) then
        v <- toFixed rsi ;; Ok (minus 0.1 "RSI bearish (_)" [v] a)
      else Ok a
  | None => Ok a
  end.

Definition momentum_macd (ind : Indicators) (a : Acc) : Acc :=
  match macd ind with
  | Some m =>
      let histogram := histogram m in
      let current := get_from_end histogram 1 in
      let previous := get_from_end histogram 2 in
      if current >? Fin 0 then
        let a := plus 0.2 "MACD bullish (above signal)" [] a in
        if current >? previous then plus 0.1 "MACD momentum increasing" [] a else a
      else
        let a := minus 0.2 "MACD bearish (below signal)" [] a in
        if current <? previous then minus 0.1 "MACD momentum decreasing" [] a else a
  | None => a
  end.

Definition momentum_stochastic (ind : Indicators) (a : Acc) : result Acc :=
  match stochastic ind with
  | Some st =>
      match k st with
      | Some series =>
          let k := last_elem series in
          if num_of k <? Fin 20 then
            v <- toFixed k ;; Ok (plus 0.2 "Stochastic oversold (_)" [v] a)
          else if num_of k >? Fin 80 then
            v <- toFixed k ;; Ok (minus 0.2 "Stochastic overbought (_)" [v] a)
          else Ok a
      | None => Ok a
      end
  | None => Ok a
  end.

Definition momentum_cci (ind : Indicators) (a : Acc) : Acc :=
  match cci ind with
  | Some series =>
      let cci := num_of (last_elem series) in
      if cci <? Fin (-100) then plus 0.15 "CCI oversold" [] a
      else if cci >? Fin 100 then minus 0.15 "CCI overbought" [] a
      else a
  | None => a
  end.

Definition analyzeMomentum (ind : Indicators) : result SignalScore :=
  a <- momentum_rsi ind start ;;
  a <- momentum_stochastic ind (momentum_macd ind a) ;;
  Ok (finish (momentum_cci ind a)).

(** The level starts at ['medium'] and the score at [0]; nothing below
    changes the score. *)
Definition volatility_level (ind : Indicators) (a : Acc)
  : result (VolatilityLevel * Acc) :=
  match volatility ind with
  | Some series =>
      let vol := last_elem series in
      if num_of vol >? Fin 100 then
        v <- toFixed vol ;;
        Ok (VeryHighVolatility, note "Extreme volatility (_%)" [v] a)
      else if num_of vol >? Fin 70 then
        v <- toFixed vol ;;
        Ok (HighVolatility, note "High volatility (_%)" [v] a)
      else if num_of vol >? Fin 40 then
        v <- toFixed vol ;;
        Ok (MediumVolatility, note "Moderate volatility (_%)" [v] a)
      else
        v <- toFixed vol ;;
        Ok (LowVolatility, note "Low volatility (_%)" [v] a)
  | None => Ok (MediumVolatility, a)
  end.

Definition volatility_bands (ind : Indicators) (a : Acc) : Acc :=
  match bollingerBands ind with
  | Some bb =>
      let bandwidth := get_from_end (bandwidth bb) 1 in
      if bandwidth <? Fin 5
      then note "Bollinger Bands squeeze - potential breakout ahead" [] a
      else if bandwidth >? Fin 20
      then note "Bollinger Bands wide - high volatility period" [] a
      else a
  | None => a
  end.

Definition analyzeVolatility (ind : Indicators) : result SignalScore :=
  r <- volatility_level ind start ;;
  let a := volatility_bands ind (snd r) in
  Ok (mkSignalScore (fst a) (snd a) (Some (fst r)) (Fin 0)).

Definition analyzeVolume (ind : Indicators) : result SignalScore :=
  let a :=
    match volumeMA ind, obv ind with
    | Some volumes, Some obv =>
        let currentVol := get_from_end volumes 1 in
        let avgVol := sum (slice_last 20 volumes) / Fin 20 in
        let a :=
          if currentVol >? avgVol * Fin 2
          then plus 0.3 "Significant volume spike detected" [] start
          else if currentVol >? avgVol * Fin 1.5
          then plus 0.15 "Above-average volume" [] start
          else if currentVol <? avgVol * Fin 0.5
          then minus 0.1 "Low volume - weak momentum" [] start
          else start in
        let obvTrend := slice_last 10 obv in
        let obvIncreasing := get_from_end obvTrend 1 >? get obvTrend 0 in
        if obvIncreasing
        then plus 0.2 "OBV trending up - accumulation" [] a
        else minus 0.2 "OBV trending down - distribution" [] a
    | _, _ => start
    end in
  Ok (finish a).

(** [levels.reduce((prev, curr) => Math.abs(curr - currentPrice) <
    Math.abs(prev - currentPrice) ? curr : prev, levels[0])]: the initial
    value is passed, so an empty array gives it back, [undefined]. *)
Definition nearest (levels : list num) (currentPrice : num) : option num :=
  fold_left (fun prev curr =>
               if abs (curr - currentPrice) <? abs (num_of prev - currentPrice)
               then Some curr else prev)
            levels (nth_error levels 0).

Definition analyzeSupportResistance (ind : Indicators) (currentPrice : num)
  : result SignalScore :=
  a <- match supportResistance ind with
       | Some sr =>
           let nearestSupport := nearest (support sr) currentPrice in
           let nearestResistance := nearest (resistance sr) currentPrice in
           let distanceToSupport :=
             ((currentPrice - num_of nearestSupport) / currentPrice) * Fin 100 in
           let distanceToResistance :=
             ((num_of nearestResistance - currentPrice) / currentPrice) * Fin 100 in
           a <- (if distanceToSupport <? Fin 2 then
                   v <- toFixed nearestSupport ;;
                   Ok (plus 0.3 "Near support level ($_)" [v] start)
                 else Ok start) ;;
           a <- (if distanceToResistance <? Fin 2 then
                   v <- toFixed nearestResistance ;;
                   Ok (minus 0.3 "Near resistance level ($_)" [v] a)
                 else Ok a) ;;
           s <- toFixed nearestSupport ;;
           r <- toFixed nearestResistance ;;
           Ok (note "Support: $_, Resistance: $_" [s; r] a)
       | None => Ok start
       end ;;
  Ok (finish a).

(** [table[volatilityScore.volatilityLevel] || fallback]: a missing key
    and a falsy entry both give the fallback. *)
Definition lookup_or (table : VolatilityLevel -> option num)
    (level : option VolatilityLevel) (fallback : num) : num :=
  match level with
  | Some l =>
      match table l with
      | Some v => if truthy v then v else fallback
      | None => fallback
      end
  | None => fallback
  end.

Definition volatilityMultiplier (l : VolatilityLevel) : option num :=
  match l with
  | VeryHighVolatility => Some (Fin 0.5)
  | HighVolatility => Some (Fin 0.7)
  | MediumVolatility => Some (Fin 0.85)
  | LowVolatility => Some (Fin 0.95)
  end.

Definition volatilityValues (l : VolatilityLevel) : option num :=
  match l with
  | VeryHighVolatility => Some (Fin 0.15)
  | HighVolatility => Some (Fin 0.10)
  | MediumVolatility => Some (Fin 0.07)
  | LowVolatility => Some (Fin 0.04)
  end.

Record ConfidenceThresholds : Type := mkConfidenceThresholds {
  veryHigh : num;
  high : num;
  medium : num;
  low : num
}.

Definition confidenceThresholds : ConfidenceThresholds :=
  mkConfidenceThresholds (Fin 0.85) (Fin 0.70) (Fin 0.50) (Fin 0.30).

Definition getConfidenceLabel (confidence : num) : string :=
  if confidence >=? veryHigh confidenceThresholds then "Very High"
  else if confidence >=? high confidenceThresholds then "High"
  else if confidence >=? medium confidenceThresholds then "Medium"
  else if confidence >=? low confidenceThresholds then "Low"
  else "Very Low".

Record ExpectedRange : Type := mkExpectedRange {
  range_low : num;   (* expectedRange.low *)
  range_high : num   (* expectedRange.high *)
}.

Record Forecast : Type := mkForecast {
  timeframe : string;
  direction : string;
  probability : num;
  confidence : num;
  expectedRange : ExpectedRange;
  mostLikely : num
}.

Record Distribution : Type := mkDistribution {
  shortTerm : Forecast;
  mediumTerm : Forecast;
  compositeScore : num;
  confidenceLevel : string
}.

Definition generateProbabilityDistribution (compositeScore : num)
    (volatilityScore : SignalScore) (currentPrice : num) : Distribution :=
  let volatilityMultiplier :=
    lookup_or volatilityMultiplier (volatilityLevel volatilityScore) (Fin 0.85) in
  let baseConfidence := volatilityMultiplier in
  let normalizedScore := compositeScore in
  let '(direction, probability) :=
    if abs normalizedScore >? Fin 0.5 then
      (if normalizedScore >? Fin 0 then "bullish" else "bearish",
       abs normalizedScore)
    else if abs normalizedScore >? Fin 0.25 then
      (if normalizedScore >? Fin 0 then "slightly bullish" else "slightly bearish",
       Fin 0.5 + abs normalizedScore / Fin 2)
    else ("neutral", Fin 0.5) in
  let expectedMove :=
    lookup_or volatilityValues (volatilityLevel volatilityScore) (Fin 0.07) in
  let shortTerm :=
    mkForecast "24 hours" direction
      (probability * Fin 100)
      (baseConfidence * Fin 100)
      (mkExpectedRange
         (currentPrice * (Fin 1 - expectedMove * Fin 0.5))
         (currentPrice * (Fin 1 + expectedMove * Fin 0.5)))
      (currentPrice * (Fin 1 + normalizedScore * expectedMove * Fin 0.3)) in
  let mediumTerm :=
    mkForecast "7 days" direction
      ((probability * Fin 0.85) * Fin 100)
      ((baseConfidence * Fin 0.8) * Fin 100)
      (mkExpectedRange
         (currentPrice * (Fin 1 - expectedMove * Fin 1.5))
         (currentPrice * (Fin 1 + expectedMove * Fin 1.5)))
      (currentPrice * (Fin 1 + normalizedScore * expectedMove * Fin 0.7)) in
  mkDistribution shortTerm mediumTerm normalizedScore
    (getConfidenceLabel baseConfidence).

Record Signals : Type := mkSignals {
  trend : SignalScore;
  momentum : SignalScore;
  volatility_ : SignalScore;
  volume_ : SignalScore;
  supportResistance_ : SignalScore
}.

Definition categories (s : Signals) : list SignalScore :=
  [trend s; momentum s; volatility_ s; volume_ s; supportResistance_ s].

Definition countBullishSignals (s : Signals) : nat :=
  length (filter (fun c => score c >? Fin 0.2) (categories s)).

Definition countBearishSignals (s : Signals) : nat :=
  length (filter (fun c => score c <? Fin (-0.2)) (categories s)).

Definition countNeutralSignals (s : Signals) : nat :=
  length (filter (fun c => abs (score c) <=? Fin 0.2) (categories s)).

(** The weighted sum of [generatePrediction]. *)
Definition composite (s : Signals) : num :=
  score (trend s) * w_trend indicatorWeights +
  score (momentum s) * w_momentum indicatorWeights +
  score (volatility_ s) * w_volatility indicatorWeights +
  score (volume_ s) * w_volume indicatorWeights +
  score (supportResistance_ s) * w_support_resistance indicatorWeights.

Record Analysis : Type := mkAnalysis {
  indicators : Indicators;
  currentPrice : num
}.

Record Prediction : Type := mkPrediction {
  distribution : Distribution;
  prediction_signals : Signals;
  bullishSignals : nat;
  bearishSignals : nat;
  neutralSignals : nat
}.

(** [savePredictionForTracking], when both [INSERT]s succeed and the
    two readings of the clock are the same [now]. The [catch] branch and the
    two readings are in [ForeignKeys.savePredictionForTracking]. *)
Definition savePredictionForTracking (db : DatabaseManager.DB) (now : Z)
    (cryptoId : string) (d : Distribution) : DatabaseManager.DB :=
  let db :=
    DatabaseManager.savePrediction db
      (DatabaseManager.mkNewPrediction cryptoId now "short_term"
         (24 * 60 * 60 * 1000)
         (direction (shortTerm d)) (probability (shortTerm d))
         (range_low (expectedRange (shortTerm d)))
         (range_high (expectedRange (shortTerm d)))
         (confidence (shortTerm d))) in
  DatabaseManager.savePrediction db
    (DatabaseManager.mkNewPrediction cryptoId now "medium_term"
       (7 * 24 * 60 * 60 * 1000)
       (direction (mediumTerm d)) (probability (mediumTerm d))
       (range_low (expectedRange (mediumTerm d)))
       (range_high (expectedRange (mediumTerm d)))
       (confidence (mediumTerm d))).

(** [generatePrediction], from the result of [getAnalysis] on: [None] is
    the [null] of an analysis that had too little history. The fields
    [historicalAccuracy] and [risk], which nothing below reads, are left
    out. An exception of a scorer leaves the function before anything is
    saved. *)
Definition generatePrediction (db : DatabaseManager.DB) (now : Z)
    (cryptoId : string) (analysis : option Analysis)
  : result (option Prediction * DatabaseManager.DB) :=
  match analysis with
  | None => Ok (None, db)
  | Some analysis =>
      let indicators := indicators analysis in
      let currentPrice := currentPrice analysis in
      trendScore <- analyzeTrend indicators currentPrice ;;
      momentumScore <- analyzeMomentum indicators ;;
      volatilityScore <- analyzeVolatility indicators ;;
      volumeScore <- analyzeVolume indicators ;;
      supportResistanceScore <- analyzeSupportResistance indicators currentPrice ;;
      let signals :=
        mkSignals trendScore momentumScore volatilityScore volumeScore
          supportResistanceScore in
      let compositeScore := composite signals in
      let prediction :=
        generateProbabilityDistribution compositeScore volatilityScore currentPrice in
      Ok (Some (mkPrediction prediction signals
                  (countBullishSignals signals)
                  (countBearishSignals signals)
                  (countNeutralSignals signals)),
          savePredictionForTracking db now cryptoId prediction)
  end.

End PredictionEngine.

(* ================================================================== *)
(** ** technicalIndicators.js, the remaining indicators

    [calculateBollingerBands] and [calculateVolatility] take square roots
    and logarithms, which exact rationals do not have; they come last,
    with the two functions as parameters. *)

Module TechnicalIndicators2.

Import TechnicalIndicators.
Local Open Scope js_scope.

(** [f(l[i - 1], l[i])] for [i = 1 .. l.length - 1]. *)
Fixpoint adjacent_from {A B : Type} (f : A -> A -> B) (prev : A) (rest : list A)
  : list B :=
  match rest with
  | [] => []
  | x :: rest' => f prev x :: adjacent_from f x rest'
  end.

Definition adjacent {A B : Type} (f : A -> A -> B) (l : list A) : list B :=
  match l with
  | [] => []
  | first :: rest => adjacent_from f first rest
  end.

(** [Math.max(high - low, Math.abs(high - prevClose), Math.abs(low - prevClose))]. *)
Definition true_range (prev d : OHLC) : num :=
  max_list [high d - low d; abs (high d - close prev); abs (low d - close prev)].

(** The smoothing loop of [calculateATR]. *)
Fixpoint atr_loop (p currentATR : num) (rest : list num) : list num :=
  match rest with
  | [] => []
  | tr :: rest' =>
      let currentATR := (currentATR * (p - Fin 1) + tr) / p in
      currentATR :: atr_loop p currentATR rest'
  end.

Definition calculateATR (ohlcData : list OHLC) (period : positive)
  : option (list num) :=
  let p := Pos.to_nat period in
  if (length ohlcData <? p + 1)%nat then None
  else
    let trueRanges := adjacent true_range ohlcData in
    let currentATR := sum (slice 0 p trueRanges) / of_nat p in
    Some (currentATR :: atr_loop (of_nat p) currentATR (skipn p trueRanges)).

(** [x || 0] on a number. *)
Definition or_zero (x : num) : num := if truthy x then x else Fin 0.

(** The loop of [calculateOBV]; [prev] is [ohlcData[i - 1]]. *)
Fixpoint obv_loop (prevOBV : num) (prev : OHLC) (rest : list OHLC) : list num :=
  match rest with
  | [] => []
  | d :: rest' =>
      let volume := or_zero (volume d) in
      let next :=
        if close d >? close prev then prevOBV + volume
        else if close d <? close prev then prevOBV - volume
        else prevOBV in
      next :: obv_loop next d rest'
  end.

Definition calculateOBV (ohlcData : list OHLC) : option (list num) :=
  if (length ohlcData <? 2)%nat then None
  else
    match ohlcData with
    | [] => None (* not reached *)
    | first :: rest =>
        let start := or_zero (volume first) in
        Some (start :: obv_loop start first rest)
    end.

Definition calculateROC (prices : list num) (period : positive)
  : option (list num) :=
  let p := Pos.to_nat period in
  if (length prices <? p + 1)%nat then None
  else
    Some (map (fun i =>
                 ((get prices i - get prices (i - p)) / get prices (i - p)) * Fin 100)
              (range p (length prices))).

Definition plus_dm (prev d : OHLC) : num :=
  let highDiff := high d - high prev in
  let lowDiff := low prev - low d in
  if (highDiff >? lowDiff) && (highDiff >? Fin 0) then highDiff else Fin 0.

Definition minus_dm (prev d : OHLC) : num :=
  let highDiff := high d - high prev in
  let lowDiff := low prev - low d in
  if (lowDiff >? highDiff) && (lowDiff >? Fin 0) then lowDiff else Fin 0.

(** [a.map((x, i) => (x / b[i]) * 100)]. *)
Definition directional_index (dm smoothTR : list num) : list num :=
  map (fun i => (get dm i / get smoothTR i) * Fin 100) (range 0 (length dm)).

Definition dx_of (plusDI minusDI : list num) : list num :=
  map (fun i =>
         let pdi := get plusDI i in
         let sum := pdi + get minusDI i in
         if sum === Fin 0 then Fin 0
         else (abs (pdi - get minusDI i) / sum) * Fin 100)
      (range 0 (length plusDI)).

Definition calculateADX (ohlcData : list OHLC) (period : positive)
  : option PredictionEngine.ADX :=
  let p := Pos.to_nat period in
  if (length ohlcData <? p * 2)%nat then None
  else
    let plusDM := adjacent plus_dm ohlcData in
    let minusDM := adjacent minus_dm ohlcData in
    let tr := adjacent true_range ohlcData in
    match calculateEMA plusDM period, calculateEMA minusDM period,
          calculateEMA tr period with
    | Some smoothPlusDM, Some smoothMinusDM, Some smoothTR =>
        let plusDI := directional_index smoothPlusDM smoothTR in
        let minusDI := directional_index smoothMinusDM smoothTR in
        let dx := dx_of plusDI minusDI in
        Some (PredictionEngine.mkADX (calculateEMA dx period) plusDI minusDI)
    | _, _, _ => None
    end.

Definition calculateVolumeMA (volumes : list num) (period : positive)
  : option (list num) :=
  calculateSMA volumes period.

(** The inner function of [calculateIchimoku]; [p] is 9, 26 or 52. *)
Definition calculateDonchian (data : list OHLC) (p : nat) : list num :=
  map (fun i =>
         let window := slice (i + 1 - p) (i + 1) data in
         let high := max_list (map high window) in
         let low := min_list (map low window) in
         (high + low) / Fin 2)
      (range (p - 1) (length data)).

Record Ichimoku : Type := mkIchimoku {
  tenkanSen : list num;
  kijunSen : list num;
  senkouSpanA : list num;
  senkouSpanB : list num;
  chikouSpan : list num
}.

Definition calculateIchimoku (ohlcData : list OHLC) : option Ichimoku :=
  if (length ohlcData <? 52)%nat then None
  else
    let tenkanSen := calculateDonchian ohlcData 9 in
    let kijunSen := calculateDonchian ohlcData 26 in
    let senkouSpanB := calculateDonchian ohlcData 52 in
    let senkouSpanA :=
      map (fun i => (get tenkanSen i + get kijunSen i) / Fin 2)
          (range 0 (Nat.min (length tenkanSen) (length kijunSen))) in
    (* [ohlcData.slice(0, -26)]: all but the last 26 bars *)
    let chikouSpan := map close (firstn (length ohlcData - 26) ohlcData) in
    Some (mkIchimoku tenkanSen kijunSen senkouSpanA senkouSpanB chikouSpan).

(** *** The two indicators that use [Math.sqrt] and [Math.log]

    Neither function is rational-valued, so both are parameters of the
    two indicators below, and what is proved of them holds for every choice
    of the two functions. [Math.pow(x, 2)] is [x * x]. *)

Section SquareRootAndLogarithm.

Variables (Math_sqrt Math_log : num -> num).

(** [l.reduce((sum, x) => sum + Math.pow(x - mean, 2), 0)]. *)
Definition squared_deviations (mean : num) (l : list num) : num :=
  fold_left (fun sum x => sum + (x - mean) * (x - mean)) l (Fin 0).

(** One band of [calculateBollingerBands]: [side] is [+] for the upper
    band and [-] for the lower one. *)
Definition band (side : num -> num -> num) (prices sma : list num) (p : nat)
    (stdDev : num) : list num :=
  map (fun i =>
         let priceSlice := slice i (i + p) prices in
         let mean := get sma i in
         let variance := squared_deviations mean priceSlice / of_nat p in
         let sd := Math_sqrt variance in
         side mean (sd * stdDev))
      (range 0 (length sma)).

Definition calculateBollingerBands (prices : list num) (period : positive)
    (stdDev : num) : option PredictionEngine.BollingerBands :=
  match calculateSMA prices period with
  | None => None
  | Some sma =>
      let upper := band add prices sma (Pos.to_nat period) stdDev in
      let lower := band sub prices sma (Pos.to_nat period) stdDev in
      Some (PredictionEngine.mkBollingerBands upper sma lower
              (map (fun i => ((get upper i - get lower i) / get sma i) * Fin 100)
                   (range 0 (length upper))))
  end.

Definition calculateVolatility (prices : list num) (period : positive)
  : option (list num) :=
  let p := Pos.to_nat period in
  if (length prices <? p + 1)%nat then None
  else
    let returns :=
      map (fun i => Math_log (get prices i / get prices (i - 1)))
          (range 1 (length prices)) in
    Some (map (fun i =>
                 let slice := slice (i + 1 - p) (i + 1) returns in
                 let mean := sum slice / of_nat p in
                 let variance := squared_deviations mean slice / of_nat p in
                 Math_sqrt variance * Math_sqrt (Fin 365) * Fin 100)
              (range (p - 1) (length returns))).

End SquareRootAndLogarithm.

End TechnicalIndicators2.

(* ================================================================== *)
(** ** Sorting by an integer key *)

(** [l.sort((a, b) => key(a) - key(b))] and SQL [ORDER BY key ASC] on
    integer keys: [x] goes before the first element whose key is greater. *)
Fixpoint insert_by {A : Type} (key : A -> Z) (x : A) (sorted : list A) : list A :=
  match sorted with
  | [] => [x]
  | y :: sorted' =>
      if (key y - key x >? 0)%Z then x :: y :: sorted'
      else y :: insert_by key x sorted'
  end.

Definition sort_by {A : Type} (key : A -> Z) (l : list A) : list A :=
  fold_left (fun sorted x => insert_by key x sorted) l [].

(* ================================================================== *)
(** ** engine.js, the hourly bars and the accuracy context *)

Module PredictionEngine2.

Import TechnicalIndicators.
Local Open Scope string_scope.
Local Open Scope list_scope.
Local Open Scope js_scope.

(** A row of [price_history] as [constructOHLC] reads it; [volume] may be
    [NULL]. *)
Record PricePoint : Type := mkPricePoint {
  pp_timestamp : Z;
  pp_price : num;
  pp_volume : option num
}.

(** [point.volume || 0]. *)
Definition volume_or_zero (v : option num) : num :=
  match v with
  | Some x => if truthy x then x else Fin 0
  | None => Fin 0
  end.

(** [Math.floor(point.timestamp / 3600000) * 3600000]. *)
Definition hourKey (point : PricePoint) : Z :=
  (pp_timestamp point / 3600000 * 3600000)%Z.

(** One step of the loop of [constructOHLC] on the object [hourlyBuckets],
    held as the list of its values; each value carries its key in
    [timestamp]. *)
Fixpoint add_point (point : PricePoint) (hourlyBuckets : list OHLC) : list OHLC :=
  match hourlyBuckets with
  | [] =>
      [mkOHLC (hourKey point) (pp_price point) (pp_price point) (pp_price point)
         (pp_price point) (volume_or_zero (pp_volume point))]
  | bucket :: rest =>
      if (timestamp bucket =? hourKey point)%Z then
        mkOHLC (timestamp bucket) (open bucket)
          (max (high bucket) (pp_price point))
          (min (low bucket) (pp_price point))
          (pp_price point)
          (volume bucket + volume_or_zero (pp_volume point)) :: rest
      else bucket :: add_point point rest
  end.

Definition hourly_buckets (priceHistory : list PricePoint) : list OHLC :=
  fold_left (fun buckets point => add_point point buckets) priceHistory [].

(** [Object.values(hourlyBuckets).sort((a, b) => a.timestamp - b.timestamp)];
    the keys are distinct, so the order in which the object lists its values
    does not show in the result. *)
Definition constructOHLC (priceHistory : list PricePoint) : list OHLC :=
  sort_by timestamp (hourly_buckets priceHistory).

(** [getAnalysis], from the rows that [getPriceHistory] returned on.
    [Math.sqrt] and [Math.log] are parameters (see the indicators that use
    them). The entries of the snapshot that no scorer reads and the writes
    to the [indicators] table are left out; no indicator throws, so the
    [catch] branch is not taken. *)
Definition getAnalysis (Math_sqrt Math_log : num -> num)
    (priceHistory : list PricePoint) : option PredictionEngine.Analysis :=
  let ohlcData := constructOHLC priceHistory in
  if (length ohlcData <? 50)%nat then None
  else
    let prices := map close ohlcData in
    let volumes := map volume ohlcData in
    let indicators :=
      PredictionEngine.mkIndicators
        (calculateSMA prices 20)
        (calculateSMA prices 50)
        (calculateSMA prices 200)
        (calculateRSI prices 14)
        (calculateMACD prices 12 26 9)
        (calculateStochastic ohlcData 14 3 3)
        (calculateCCI ohlcData 20)
        (TechnicalIndicators2.calculateBollingerBands Math_sqrt prices 20 (Fin 2))
        (TechnicalIndicators2.calculateVolatility Math_sqrt Math_log prices 30)
        (TechnicalIndicators2.calculateVolumeMA volumes 20)
        (TechnicalIndicators2.calculateOBV ohlcData)
        (calculateSupportResistance ohlcData 50)
        (TechnicalIndicators2.calculateADX ohlcData 14) in
    Some (PredictionEngine.mkAnalysis indicators (get_from_end prices 1)).

Record AccuracyContext : Type := mkAccuracyContext {
  ctx_overall : Q;
  ctx_similarConditions : Q
}.

(** [accuracy.overall?.accuracy_percentage || 0]. *)
Definition percentage_or_zero (pct : option Q) : Q :=
  match pct with
  | Some q => if Qeq_bool q 0 then 0%Q else q
  | None => 0%Q
  end.

(** [getHistoricalAccuracyForConditions]; its two arguments are not read.
    The [note] text is left out. *)
Definition getHistoricalAccuracyForConditions (db : DatabaseManager.DB) (now : Z)
    (compositeScore : num) (volatilityLevel : option PredictionEngine.VolatilityLevel)
  : AccuracyContext :=
  let accuracy := DatabaseManager.getHistoricalAccuracy db now in
  mkAccuracyContext
    (percentage_or_zero
       (DatabaseManager.accuracy_percentage (DatabaseManager.overall accuracy)))
    (percentage_or_zero
       (DatabaseManager.accuracy_percentage (DatabaseManager.overall accuracy))).

End PredictionEngine2.

(* ================================================================== *)
(** ** The database manager, price history *)

Module DatabaseManager2.

Import DatabaseManager.

(** [INSERT OR IGNORE INTO price_history] under [UNIQUE(crypto_id,
    timestamp)], on the columns the record holds, when it does not throw.
    The foreign key on [crypto_id], which [OR IGNORE] does not cover, is in
    [ForeignKeys.insertPriceHistory]. *)
Definition insertPriceHistory (db : DB) (cryptoId : string) (timestamp : Z)
    (price : num) : DB :=
  if existsb (fun r => String.eqb (ph_crypto_id r) cryptoId &&
                       (ph_timestamp r =? timestamp)%Z)
             (price_history db)
  then db
  else mkDB (cryptocurrencies db)
            (price_history db ++ [mkPriceHistory cryptoId timestamp price])
            (predictions db).

(** [SELECT * FROM price_history WHERE crypto_id = ? AND timestamp >= ?
    ORDER BY timestamp ASC], the cutoff being [days] days before [now]. *)
Definition getPriceHistory (db : DB) (now : Z) (cryptoId : string) (days : Z)
  : list PriceHistory :=
  let cutoffTime := (now - days * 24 * 60 * 60 * 1000)%Z in
  sort_by ph_timestamp
    (filter (fun r => String.eqb (ph_crypto_id r) cryptoId &&
                      (cutoffTime <=? ph_timestamp r)%Z)
            (price_history db)).

End DatabaseManager2.

(* ================================================================== *)
(** ** The writers under the foreign key

    [price_history] and [predictions] declare [FOREIGN KEY (crypto_id)
    REFERENCES cryptocurrencies(id)], and the storage engine enforces it: an
    [INSERT] of a row whose asset is not a row of [cryptocurrencies] throws
    and stores nothing. [None] is that exception. *)

Module ForeignKeys.

Import DatabaseManager.
Local Open Scope string_scope.

Definition references_asset (db : DB) (cid : string) : bool :=
  existsb (fun c => String.eqb cid (id c)) (cryptocurrencies db).

(** [savePrediction]: the [INSERT] of [DatabaseManager.savePrediction], or
    the exception. *)
Definition savePrediction (db : DB) (prediction : NewPrediction) : option DB :=
  if references_asset db (cryptoId prediction)
  then Some (DatabaseManager.savePrediction db prediction)
  else None.

(** [insertPriceHistory]: a conflict on [UNIQUE(crypto_id, timestamp)] is
    ignored before any row is written; a new row is checked against the
    foreign key, which [OR IGNORE] does not cover. *)
Definition insertPriceHistory (db : DB) (cryptoId : string) (timestamp : Z)
    (price : num) : option DB :=
  if existsb (fun r => String.eqb (ph_crypto_id r) cryptoId &&
                       (ph_timestamp r =? timestamp)%Z)
             (price_history db)
  then Some db
  else if references_asset db cryptoId
       then Some (DatabaseManager2.insertPriceHistory db cryptoId timestamp price)
       else None.

(** [savePredictionForTracking]: the two calls of [savePrediction] in a
    [try] block whose [catch] branch logs the error; [now1] and [now2] are
    the two readings of [Date.now()]. *)
Definition savePredictionForTracking (db : DB) (now1 now2 : Z)
    (cryptoId : string) (d : PredictionEngine.Distribution) : DB :=
  match
    savePrediction db
      (mkNewPrediction cryptoId now1 "short_term"
         (24 * 60 * 60 * 1000)
         (PredictionEngine.direction (PredictionEngine.shortTerm d))
         (PredictionEngine.probability (PredictionEngine.shortTerm d))
         (PredictionEngine.range_low
            (PredictionEngine.expectedRange (PredictionEngine.shortTerm d)))
         (PredictionEngine.range_high
            (PredictionEngine.expectedRange (PredictionEngine.shortTerm d)))
         (PredictionEngine.confidence (PredictionEngine.shortTerm d)))
  with
  | None => db
  | Some db1 =>
      match
        savePrediction db1
          (mkNewPrediction cryptoId now2 "medium_term"
             (7 * 24 * 60 * 60 * 1000)
             (PredictionEngine.direction (PredictionEngine.mediumTerm d))
             (PredictionEngine.probability (PredictionEngine.mediumTerm d))
             (PredictionEngine.range_low
                (PredictionEngine.expectedRange (PredictionEngine.mediumTerm d)))
             (PredictionEngine.range_high
                (PredictionEngine.expectedRange (PredictionEngine.mediumTerm d)))
             (PredictionEngine.confidence (PredictionEngine.mediumTerm d)))
      with
      | None => db1
      | Some db2 => db2
      end
  end.

End ForeignKeys.

(* ================================================================== *)
(** * Vocabulary of the properties *)

Import TechnicalIndicators.
Import PredictionEngine.

Local Open Scope string_scope.
Local Open Scope list_scope.
Local Open Scope Q_scope.

(** A list of integer prices. *)
Definition prices_of (l : list Z) : list num := map (fun z => Fin (inject_Z z)) l.

(** Pointwise [=~] on series. *)
Definition same_series (l l' : list num) : Prop := Forall2 same l l'.

(** The score object of the volatility scorer at a given level. *)
Definition volatility_score (level : VolatilityLevel) : SignalScore :=
  mkSignalScore (Fin 0) [] (Some level) (Fin 0).

(** The width of a forecast's expected range, as a fraction of the price. *)
Definition relative_width (f : Forecast) (price : num) : num :=
  ((range_high (expectedRange f) - range_low (expectedRange f)) / price)%js.

(** A score within [[-1, 1]]. *)
Definition in_unit_range (x : num) : Prop :=
  exists q, x = Fin q /\ -1 <= q <= 1.

(** The accuracy test vector: one pending short-term prediction of
    direction ['up'] and range [[95, 105]], made when the asset traded at
    90; the asset now trades at 100. *)
Definition pending_up : DatabaseManager.PredictionRow :=
  DatabaseManager.mkPredictionRow 1 "bitcoin" 0 "short_term" 86400000
    (Some "up") (Some (Fin 60)) (Some (Fin 95)) (Some (Fin 105)) (Some (Fin 85))
    None None None None.

Definition single_row_db : DatabaseManager.DB :=
  DatabaseManager.mkDB
    [DatabaseManager.mkCryptocurrency "bitcoin" (Some (Fin 100))]
    [DatabaseManager.mkPriceHistory "bitcoin" 0 (Fin 90)]
    [pending_up].

(** What an evaluation recorded, row by row. *)
Definition outcomes (db : DatabaseManager.DB)
  : list (option string * option num * option Z) :=
  map (fun p => (DatabaseManager.actual_direction p,
                 DatabaseManager.actual_price p,
                 DatabaseManager.was_accurate p))
      (DatabaseManager.predictions db).

(** A database in which the engine has just tracked, at time [t0], one
    forecast for an asset that is listed and priced. *)
Definition tracked_db (t0 : Z) : DatabaseManager.DB :=
  savePredictionForTracking
    (DatabaseManager.mkDB
       [DatabaseManager.mkCryptocurrency "bitcoin" (Some (Fin 100))]
       [DatabaseManager.mkPriceHistory "bitcoin" t0 (Fin 100)]
       [])
    t0 "bitcoin"
    (generateProbabilityDistribution (Fin 0.6) (volatility_score LowVolatility) (Fin 100)).

(** [n] hourly bars of a market that rises by one each hour: no bar is a
    local extremum. *)
Definition rising_market (n : nat) : list OHLC :=
  map (fun i =>
         mkOHLC (Z.of_nat i * 3600000)
           (of_nat (100 + i)) (of_nat (101 + i)) (of_nat (99 + i))
           (of_nat (100 + i)) (Fin 1000))
      (seq 0 n).

(** [n] hourly bars of a market that does not move. *)
Definition flat_market (n : nat) : list OHLC :=
  map (fun i =>
         mkOHLC (Z.of_nat i * 3600000) (Fin 100) (Fin 100) (Fin 100) (Fin 100)
           (Fin 1000))
      (seq 0 n).

(** The running score of a scorer is a rational. *)
Definition finite_acc (a : Acc) : Prop := exists q, fst a = Fin q.

(** An indicator snapshot on which every scorer has something to read. *)
Definition sample_indicators : Indicators :=
  mkIndicators
    (Some [Fin 100]) (Some [Fin 95]) (Some [Fin 90])
    (Some [Fin 25])
    (Some (mkMACD [Fin 1; Fin 2] (Some [Fin 0.5; Fin 1]) [Fin 0.5; Fin 1]))
    (Some (mkStochastic (Some [Fin 15]) (Some [Fin 18])))
    (Some [Fin (-120)])
    (Some (mkBollingerBands [Fin 110] [Fin 100] [Fin 90] [Fin 20]))
    (Some [Fin 55])
    (Some [Fin 1000; Fin 5000])
    (Some [Fin 10; Fin 20])
    (Some (mkSupportResistance [Fin 106] [Fin 104]))
    (Some (mkADX (Some [Fin 30]) [Fin 28] [Fin 12])).

(** A rational between two bounds. *)
Definition fin_between (lo hi : Q) (x : num) : Prop :=
  exists q, x = Fin q /\ lo <= q <= hi.

(** A rational not below a bound. *)
Definition fin_from (lo : Q) (x : num) : Prop :=
  exists q, x = Fin q /\ lo <= q.

Definition finite (x : num) : Prop := exists q, x = Fin q.

(** [x <= y] holds in the language. *)
Definition le_num (x y : num) : Prop := (x <=? y)%js = true.

(** A bar whose high and low are rationals. *)
Definition finite_bar (d : OHLC) : Prop :=
  finite (TechnicalIndicators.high d) /\ finite (TechnicalIndicators.low d).

(** The selection the specification words describe: every level that is
    kept is at least as near to the price as every level that is dropped. *)
Definition nearest_kept (price : num) (kept dropped : list num) : Prop :=
  forall x y, In x kept -> In y dropped ->
    (abs (x - price) <=? abs (y - price))%js = true.

(** 50 hourly bars of a market that trades at 200 and dipped to 10, 50, 80
    and 190 on four separate hours. *)
Definition dipping_market : list OHLC :=
  map (fun i =>
         let low :=
           if (i =? 5)%nat then Fin 10
           else if (i =? 15)%nat then Fin 50
           else if (i =? 25)%nat then Fin 80
           else if (i =? 35)%nat then Fin 190
           else Fin 200 in
         mkOHLC (Z.of_nat i * 3600000) (Fin 200) (Fin 205) low (Fin 200) (Fin 1000))
      (seq 0 50).

(** A positive rational. *)
Definition fin_pos (x : num) : Prop := exists q, x = Fin q /\ 0 < q.

(** A bar whose high, low and close are rationals. *)
Definition finite_ohlc (d : OHLC) : Prop :=
  finite (TechnicalIndicators.high d) /\ finite (TechnicalIndicators.low d) /\
  finite (close d).

(** A short market with rises and falls, for the worked instances. *)
Definition choppy_market : list OHLC :=
  map (fun '(i, c, v) =>
         mkOHLC (i * 3600000) (Fin (inject_Z c)) (Fin (inject_Z (c + 1)))
           (Fin (inject_Z (c - 1))) (Fin (inject_Z c)) (Fin (inject_Z v)))
      [(0, 10, 5); (1, 11, 3); (2, 11, 4); (3, 9, 2); (4, 12, 6); (5, 13, 1)]%Z.

(** The three snapshots on which a scorer formats [undefined]. *)
Definition empty_adx (ind : Indicators) : Prop :=
  exists x, adx_ ind = Some x /\ adx x = Some [].

Definition empty_volatility (ind : Indicators) : Prop :=
  PredictionEngine.volatility ind = Some [].

Definition empty_levels (ind : Indicators) : Prop :=
  exists sr, supportResistance ind = Some sr /\
             (support sr = [] \/ resistance sr = []).

(** The columns of a prediction row that hold the forecast. *)
Definition forecast_columns (p : DatabaseManager.PredictionRow) :=
  (DatabaseManager.p_id p, DatabaseManager.crypto_id p,
   DatabaseManager.created_at p, DatabaseManager.prediction_type p,
   DatabaseManager.timeframe p, DatabaseManager.predicted_direction p,
   DatabaseManager.predicted_probability p,
   DatabaseManager.predicted_price_range_low p,
   DatabaseManager.predicted_price_range_high p,
   DatabaseManager.confidence_level p).

(** The four outcome columns are all [NULL]. *)
Definition pending (p : DatabaseManager.PredictionRow) : Prop :=
  DatabaseManager.actual_direction p = None /\
  DatabaseManager.actual_price p = None /\
  DatabaseManager.was_accurate p = None /\
  DatabaseManager.evaluated_at p = None.

(** The primary key of [predictions] is unique. *)
Definition unique_ids (db : DatabaseManager.DB) : Prop :=
  NoDup (map DatabaseManager.p_id (DatabaseManager.predictions db)).

(** What one pass of the loop of [evaluatePredictions] does to the row [p]
    of the table, for the selected row [row]. *)
Definition row_step (db : DatabaseManager.DB) (now : Z)
    (row : DatabaseManager.PredictionRow * option num)
    (p : DatabaseManager.PredictionRow) : DatabaseManager.PredictionRow :=
  match DatabaseManager.predictions
          (DatabaseManager.evaluate_one
             (DatabaseManager.mkDB (DatabaseManager.cryptocurrencies db)
                (DatabaseManager.price_history db) [p]) now row) with
  | [p'] => p'
  | _ => p
  end.

Definition row_steps (db : DatabaseManager.DB) (now : Z)
    (rows : list (DatabaseManager.PredictionRow * option num))
    (p : DatabaseManager.PredictionRow) : DatabaseManager.PredictionRow :=
  fold_left (fun p' row => row_step db now row p') rows p.

(** A row that holds a verdict. *)
Definition has_verdict (p : DatabaseManager.PredictionRow) : Prop :=
  (exists t, DatabaseManager.evaluated_at p = Some t) /\
  (DatabaseManager.was_accurate p = Some 0%Z \/
   DatabaseManager.was_accurate p = Some 1%Z) /\
  (DatabaseManager.actual_direction p = Some "up" \/
   DatabaseManager.actual_direction p = Some "down" \/
   DatabaseManager.actual_direction p = Some "neutral").

(** A row of [predictions] is pending, or it holds a verdict. *)
Definition settled (p : DatabaseManager.PredictionRow) : Prop :=
  pending p \/ has_verdict p.

(** [UNIQUE(crypto_id, timestamp)] on [price_history]. *)
Definition price_key (r : DatabaseManager.PriceHistory) : string * Z :=
  (DatabaseManager.ph_crypto_id r, DatabaseManager.ph_timestamp r).

Definition unique_prices (db : DatabaseManager.DB) : Prop :=
  NoDup (map price_key (DatabaseManager.price_history db)).

(** The databases that the manager's writers produce from empty tables of
    prices and predictions: [insertPriceHistory] is the only writer of
    [price_history], [savePrediction] and [evaluatePredictions] are the only
    writers of [predictions], and [upsertCryptocurrency] and
    [toggleWatchlist] write [cryptocurrencies] alone. *)
Inductive reachable : DatabaseManager.DB -> Prop :=
| reach_created (cs : list DatabaseManager.Cryptocurrency) :
    reachable (DatabaseManager.mkDB cs [] [])
| reach_listing (db : DatabaseManager.DB) (cs : list DatabaseManager.Cryptocurrency) :
    reachable db ->
    reachable (DatabaseManager.mkDB cs (DatabaseManager.price_history db)
                 (DatabaseManager.predictions db))
| reach_price (db : DatabaseManager.DB) (cid : string) (t : Z) (p : num) :
    reachable db -> reachable (DatabaseManager2.insertPriceHistory db cid t p)
| reach_save (db : DatabaseManager.DB) (np : DatabaseManager.NewPrediction) :
    reachable db -> reachable (DatabaseManager.savePrediction db np)
| reach_sweep (db : DatabaseManager.DB) (now : Z) :
    reachable db -> reachable (snd (DatabaseManager.evaluatePredictions db now)).

(** What an aggregate row of [getHistoricalAccuracy] may hold: no row
    counted and [NULL] for the sum and the percentage, or a positive count,
    a sum between 0 and the count and a percentage between 0 and 100. *)
Definition percent_ok (s : DatabaseManager.AccuracyStats) : Prop :=
  match DatabaseManager.accuracy_percentage s,
        DatabaseManager.accurate_predictions s with
  | Some pct, Some a =>
      0 <= pct <= 100 /\
      (0 <= a <= Z.of_nat (DatabaseManager.total_predictions s))%Z /\
      (0 < DatabaseManager.total_predictions s)%nat
  | None, None => DatabaseManager.total_predictions s = 0%nat
  | _, _ => False
  end.

(** A bar with rational prices whose open and close lie between its low
    and its high. *)
Definition bar_ok (b : OHLC) : Prop :=
  exists o h l c,
    open b = Fin o /\ TechnicalIndicators.high b = Fin h /\
    TechnicalIndicators.low b = Fin l /\ close b = Fin c /\
    l <= o <= h /\ l <= c <= h.

(** The bar [b] is the bar of the hour of [pt], and the price of [pt] lies
    between its low and its high. *)
Definition covers (b : OHLC) (pt : PredictionEngine2.PricePoint) : Prop :=
  timestamp b = PredictionEngine2.hourKey pt /\
  (timestamp b <= PredictionEngine2.pp_timestamp pt < timestamp b + 3600000)%Z /\
  le_num (TechnicalIndicators.low b) (PredictionEngine2.pp_price pt) /\
  le_num (PredictionEngine2.pp_price pt) (TechnicalIndicators.high b).

(** One part in a thousand million: far above what the rounding of the
    few binary64 operations behind one value can add, far below any move
    of a price. Bounds and products that rounding can miss by a last digit
    are stated up to this relative tolerance. *)
Definition tolerance : Q := 1 # 1000000000.

(** A rational within [[lo, hi]], up to the tolerance. *)
Definition within_tolerance (lo hi : Q) (x : num) : Prop :=
  fin_between (lo * (1 - tolerance)) (hi * (1 + tolerance)) x.

(** Two rationals that differ by at most the tolerance, relative to the
    second. *)
Definition close_to (x y : num) : Prop :=
  exists a b, x = Fin a /\ y = Fin b /\ Qabs (a - b) <= tolerance * Qabs b.

(** The expected move of a regime, as a fraction of the price. *)
Definition regime_move (level : option VolatilityLevel) : Q :=
  match level with
  | Some VeryHighVolatility => 0.15
  | Some HighVolatility => 0.10
  | Some MediumVolatility => 0.07
  | Some LowVolatility => 0.04
  | None => 0.07
  end.

(** The test of the loop of [clusterLevels]: the level [x] joins the
    cluster of the level [prev] before it. *)
Definition joins (prev x : num) : bool := ((x - prev) / prev <? Fin 0.02)%js.

(** Every level of a run joins the level before it. *)
Fixpoint chained (prev : num) (run : list num) : Prop :=
  match run with
  | [] => True
  | x :: run' => joins prev x = true /\ chained x run'
  end.

(** A division of an ascending list into clusters: each cluster is a
    non-empty run that is chained, and the first level of a cluster does not
    join the last level of the cluster before it. *)
Fixpoint clustering (clusters : list (list num)) : Prop :=
  match clusters with
  | [] => True
  | c :: clusters' =>
      match c with
      | [] => False
      | first :: run => chained first run
      end /\
      match clusters' with
      | (first' :: _) :: _ => joins (last c NaN) first' = false
      | _ => True
      end /\
      clustering clusters'
  end.

(** The asset is a row of [cryptocurrencies], so a row that refers to it
    satisfies the foreign key on [crypto_id]. *)
Definition listed (db : DatabaseManager.DB) (cid : string) : Prop :=
  In cid (map DatabaseManager.id (DatabaseManager.cryptocurrencies db)).

(* ================================================================== *)
(** * Properties *)

(** ** Numbers *)

Section NumberFacts.

Lemma same_refl (x : num) : (x =~ x)%js.
Proof. destruct x; simpl; auto; reflexivity. Qed.

Lemma same_sym (x y : num) : (x =~ y)%js -> (y =~ x)%js.
Proof. destruct x, y; simpl; auto; intros H; symmetry; exact H. Qed.

Lemma same_trans (x y z : num) : (x =~ y)%js -> (y =~ z)%js -> (x =~ z)%js.
Proof.
  destruct x, y, z; simpl; auto; try contradiction.
  intros H1 H2; rewrite H1; exact H2.
Qed.

Lemma ltb_fin (a b : Q) : (Fin a <? Fin b)%js = true <-> a < b.
Proof.
  simpl. rewrite negb_true_iff. split.
  - intros H. apply Qnot_le_lt. intros Hle.
    apply Qle_bool_iff in Hle. congruence.
  - intros H. destruct (Qle_bool b a) eqn:E; auto.
    apply Qle_bool_iff in E. apply Qlt_not_le in H. contradiction.
Qed.

Lemma ltb_fin_false (a b : Q) : (Fin a <? Fin b)%js = false <-> b <= a.
Proof.
  simpl. rewrite negb_false_iff. apply Qle_bool_iff.
Qed.

Lemma leb_fin (a b : Q) : (Fin a <=? Fin b)%js = true <-> a <= b.
Proof. simpl. apply Qle_bool_iff. Qed.

Lemma Qeq_bool_false (a b : Q) : ~ a == b -> Qeq_bool a b = false.
Proof.
  intros H. destruct (Qeq_bool a b) eqn:E; auto.
  apply Qeq_bool_iff in E. contradiction.
Qed.

Lemma div_fin (a b : Q) : ~ b == 0 -> (Fin a / Fin b)%js = Fin (a / b).
Proof. intros H. simpl. rewrite (Qeq_bool_false _ _ H). reflexivity. Qed.

Lemma of_nat_pos (n : nat) : (0 < n)%nat -> 0 < inject_Z (Z.of_nat n).
Proof.
  intros H. change 0 with (inject_Z 0). rewrite <- Zlt_Qlt. lia.
Qed.

End NumberFacts.

(** ** The probability model *)

(** C6. The two calibration vectors: a composite score of 0 in a medium
    regime at price 100 is a neutral forecast of probability 50 and
    confidence 85; a composite score of 0.6 in a low regime at price 100 is
    a bullish forecast of short-term probability 60 and confidence 95, and
    of medium-term probability 51 and confidence 76. *)
Theorem C6_calibration_vectors :
  let d0 := generateProbabilityDistribution (Fin 0)
              (volatility_score MediumVolatility) (Fin 100) in
  let d1 := generateProbabilityDistribution (Fin 0.6)
              (volatility_score LowVolatility) (Fin 100) in
  (direction (shortTerm d0) = "neutral" /\
   direction (mediumTerm d0) = "neutral" /\
   (probability (shortTerm d0) =~ Fin 50)%js /\
   (confidence (shortTerm d0) =~ Fin 85)%js) /\
  (direction (shortTerm d1) = "bullish" /\
   direction (mediumTerm d1) = "bullish" /\
   (probability (shortTerm d1) =~ Fin 60)%js /\
   (confidence (shortTerm d1) =~ Fin 95)%js /\
   (probability (mediumTerm d1) =~ Fin 51)%js /\
   (confidence (mediumTerm d1) =~ Fin 76)%js).
Proof.
  vm_compute. repeat split; reflexivity.
Qed.

Ltac fin_bool :=
  repeat match goal with
    | H : (Fin _ <? Fin _)%js = true |- _ => apply ltb_fin in H
    | H : (Fin _ <? Fin _)%js = false |- _ => apply ltb_fin_false in H
    | H : (Fin _ >? Fin _)%js = true |- _ => unfold gtb in H; apply ltb_fin in H
    | H : (Fin _ >? Fin _)%js = false |- _ => unfold gtb in H; apply ltb_fin_false in H
    | |- (Fin _ <? Fin _)%js = true => apply ltb_fin
    | |- (Fin _ >? Fin _)%js = true => unfold gtb; apply ltb_fin
    | |- (Fin _ <=? Fin _)%js = true => apply leb_fin
    end.

Lemma range_width (p c : Q) :
  ~ p == 0 -> (p * (1 + c) + - (p * (1 + - c))) / p == 2 * c.
Proof. intros Hp. field. exact Hp. Qed.

Ltac to_ltb :=
  match goal with
  | |- negb (Qle_bool ?b ?a) = true => change ((Fin a <? Fin b)%js = true)
  end.

Lemma close_to_fin (a b : Q) : a == b -> close_to (Fin a) (Fin b).
Proof.
  intros H. exists a, b. split; [reflexivity |]. split; [reflexivity |].
  assert (E : a - b == 0) by (rewrite H; ring).
  rewrite E. change (Qabs 0) with 0.
  apply Qmult_le_0_compat; [discriminate | apply Qabs_nonneg].
Qed.

Lemma regime_move_lookup (lvl : option VolatilityLevel) :
  lookup_or volatilityValues lvl (Fin 0.07) = Fin (regime_move lvl) /\
  0.04 <= regime_move lvl <= 0.15.
Proof.
  destruct lvl as [[| | |] |]; (split; [reflexivity | split; discriminate]).
Qed.

Lemma regime_multiplier_lookup (lvl : option VolatilityLevel) :
  exists c, lookup_or volatilityMultiplier lvl (Fin 0.85) = Fin c /\
            1 # 2 <= c <= 0.95.
Proof.
  destruct lvl as [[| | |] |]; eexists; (split; [reflexivity | split; discriminate]).
Qed.

(** What the claim says of two forecasts built from a base probability
    [b], a base confidence [c] and an expected move [m]. *)
Lemma dampened_forecasts (b c m p : Q) :
  1 # 2 <= b -> 1 # 2 <= c -> 0.04 <= m <= 0.15 -> 0 < p ->
  close_to (Fin b * Fin 0.85 * Fin 100)%js (Fin b * Fin 100 * Fin 0.85)%js /\
  (Fin b * Fin 0.85 * Fin 100 <? Fin b * Fin 100)%js = true /\
  close_to (Fin c * Fin 0.8 * Fin 100)%js (Fin c * Fin 100 * Fin 0.8)%js /\
  (Fin c * Fin 0.8 * Fin 100 <? Fin c * Fin 100)%js = true /\
  (Fin p * (Fin 1 - Fin m * Fin 1.5) <? Fin p * (Fin 1 - Fin m * Fin 0.5))%js = true /\
  (Fin p * (Fin 1 + Fin m * Fin 0.5) <? Fin p * (Fin 1 + Fin m * Fin 1.5))%js = true /\
  close_to
    ((Fin p * (Fin 1 + Fin m * Fin 1.5) - Fin p * (Fin 1 - Fin m * Fin 1.5)) / Fin p)%js
    ((Fin p * (Fin 1 + Fin m * Fin 0.5) - Fin p * (Fin 1 - Fin m * Fin 0.5)) / Fin p
     * Fin 3)%js /\
  ((Fin p * (Fin 1 + Fin m * Fin 0.5) - Fin p * (Fin 1 - Fin m * Fin 0.5)) / Fin p <?
   (Fin p * (Fin 1 + Fin m * Fin 1.5) - Fin p * (Fin 1 - Fin m * Fin 1.5)) / Fin p)%js
  = true.
Proof.
  intros Hb Hc [Hm1 Hm2] Hp.
  assert (Hp0 : ~ p == 0)
    by (intros H; rewrite H in Hp; apply Qlt_irrefl in Hp; exact Hp).
  assert (Hpm : 0 < p * m) by (apply Qmult_lt_0_compat; lra).
  unfold mul, sub, add, neg. rewrite !div_fin by exact Hp0.
  unfold mul.
  split; [apply close_to_fin; ring |].
  split; [apply ltb_fin; lra |].
  split; [apply close_to_fin; ring |].
  split; [apply ltb_fin; lra |].
  split; [apply ltb_fin; lra |].
  split; [apply ltb_fin; lra |].
  split; [apply close_to_fin; field; exact Hp0 |].
  apply ltb_fin. rewrite !range_width by exact Hp0. lra.
Qed.

(** C7. For every composite score, regime (classified or not) and positive
    price, the medium-term forecast of a distribution is the short-term one
    dampened. Both have the same direction. The short-term probability is
    a base probability times 100 and the medium-term one the same base
    times 0.85 times 100, which is the short-term probability times 0.85
    up to the rounding of the last digit, and strictly smaller; the same
    holds of the confidence, with 0.8. The short-term range is the price
    times 1 -/+ expectedMove * 0.5 and the medium-term range the price
    times 1 -/+ expectedMove * 1.5, for the expected move of the regime: the
    medium-term range strictly contains the short-term one and is, as a
    fraction of the price, three times as wide up to rounding. *)
Theorem C7_medium_term_dampened (s p : Q) (vs : SignalScore) :
  0 < p ->
  let dist := generateProbabilityDistribution (Fin s) vs (Fin p) in
  let st := shortTerm dist in
  let mt := mediumTerm dist in
  let expectedMove := Fin (regime_move (volatilityLevel vs)) in
  direction mt = direction st /\
  (exists base : Q,
     1 # 2 <= base /\
     probability st = (Fin base * Fin 100)%js /\
     probability mt = (Fin base * Fin 0.85 * Fin 100)%js) /\
  close_to (probability mt) (probability st * Fin 0.85)%js /\
  (probability mt <? probability st)%js = true /\
  (exists base : Q,
     1 # 2 <= base /\
     confidence st = (Fin base * Fin 100)%js /\
     confidence mt = (Fin base * Fin 0.8 * Fin 100)%js) /\
  close_to (confidence mt) (confidence st * Fin 0.8)%js /\
  (confidence mt <? confidence st)%js = true /\
  expectedRange st =
    mkExpectedRange (Fin p * (Fin 1 - expectedMove * Fin 0.5))%js
                    (Fin p * (Fin 1 + expectedMove * Fin 0.5))%js /\
  expectedRange mt =
    mkExpectedRange (Fin p * (Fin 1 - expectedMove * Fin 1.5))%js
                    (Fin p * (Fin 1 + expectedMove * Fin 1.5))%js /\
  (range_low (expectedRange mt) <? range_low (expectedRange st))%js = true /\
  (range_high (expectedRange st) <? range_high (expectedRange mt))%js = true /\
  close_to (relative_width mt (Fin p)) (relative_width st (Fin p) * Fin 3)%js /\
  (relative_width st (Fin p) <? relative_width mt (Fin p))%js = true.
Proof.
  intros Hp dist st mt expectedMove.
  subst st mt dist expectedMove. unfold generateProbabilityDistribution, relative_width.
  destruct vs as [sc sg lvl str]. cbn [volatilityLevel].
  destruct (regime_move_lookup lvl) as [-> Hm].
  destruct (regime_multiplier_lookup lvl) as [c [-> [Hc _]]].
  change (abs (Fin s)) with (Fin (Qabs s)).
  assert (Hhalf : (Fin 0.5 + Fin (Qabs s) / Fin 2)%js = Fin (0.5 + Qabs s / 2)).
  { rewrite div_fin by discriminate. reflexivity. }
  rewrite Hhalf.
  assert (Hcases :
    exists b, 1 # 2 <= b /\
      (let '(direction, probability) :=
         if (Fin (Qabs s) >? Fin 0.5)%js
         then (if (Fin s >? Fin 0)%js then "bullish" else "bearish", Fin (Qabs s))
         else if (Fin (Qabs s) >? Fin 0.25)%js
              then (if (Fin s >? Fin 0)%js then "slightly bullish" else "slightly bearish",
                    Fin (0.5 + Qabs s / 2))
              else ("neutral", Fin 0.5) in probability) = Fin b).
  { destruct (Fin (Qabs s) >? Fin 0.5)%js eqn:E1;
      [| destruct (Fin (Qabs s) >? Fin 0.25)%js eqn:E2]; fin_bool.
    - exists (Qabs s). split; [lra | reflexivity].
    - exists (0.5 + Qabs s / 2). split; [| reflexivity].
      assert (0 <= Qabs s / 2) by (apply Qle_shift_div_l; lra). lra.
    - exists 0.5. split; [discriminate | reflexivity]. }
  destruct (if (Fin (Qabs s) >? Fin 0.5)%js
            then (if (Fin s >? Fin 0)%js then "bullish" else "bearish", Fin (Qabs s))
            else if (Fin (Qabs s) >? Fin 0.25)%js
                 then (if (Fin s >? Fin 0)%js then "slightly bullish"
                       else "slightly bearish", Fin (0.5 + Qabs s / 2))
                 else ("neutral", Fin 0.5)) as [d pr].
  destruct Hcases as [b [Hb ->]].
  cbn [direction probability confidence expectedRange range_low range_high
       shortTerm mediumTerm].
  destruct (dampened_forecasts b c (regime_move lvl) p Hb Hc Hm Hp)
    as [P1 [P2 [C1 [C2 [R1 [R2 [W1 W2]]]]]]].
  split; [reflexivity |].
  split; [exists b; split; [exact Hb | split; reflexivity] |].
  split; [exact P1 |]. split; [exact P2 |].
  split; [exists c; split; [exact Hc | split; reflexivity] |].
  split; [exact C1 |]. split; [exact C2 |].
  split; [reflexivity |]. split; [reflexivity |].
  split; [exact R1 |]. split; [exact R2 |].
  split; [exact W1 | exact W2].
Qed.

Lemma C7_medium_term_dampened_witness :
  0 < 100 /\
  let dist := generateProbabilityDistribution (Fin 0.6)
                (volatility_score LowVolatility) (Fin 100) in
  (confidence (mediumTerm dist) <? confidence (shortTerm dist))%js = true /\
  (relative_width (shortTerm dist) (Fin 100) <?
   relative_width (mediumTerm dist) (Fin 100))%js = true.
Proof.
  split; [reflexivity |].
  split; apply (C7_medium_term_dampened 0.6 100 (volatility_score LowVolatility));
    reflexivity.
Defined.

(** ** The accuracy evaluation *)

Section Evaluation.

Import DatabaseManager.

Lemma due_iff (now : Z) (p : PredictionRow) :
  due now p = true <->
  evaluated_at p = None /\ (created_at p + DatabaseManager.timeframe p * 1000 <= now)%Z.
Proof.
  unfold due. destruct (evaluated_at p).
  - split; [discriminate | intros [H _]; discriminate].
  - rewrite Z.leb_le. tauto.
Qed.

(** A row whose [actual_price] is still unset is compared as [0]: against a
    positive reference price its direction is ['down'], whatever the
    current price. *)
Lemma pending_row_direction (db : DB) (now : Z) (pred : PredictionRow)
    (cur : option num) (ref : PriceHistory) :
  actual_price pred = None ->
  price_at db (crypto_id pred) (created_at pred) = Some ref ->
  (Fin 0 <? price ref)%js = true ->
  evaluate_one db now (pred, cur) =
  update_prediction db "down" cur
    (if direction_matches "down" (predicted_direction pred) &&
        (Fin 0 >=? num_of_nullable (predicted_price_range_low pred))%js &&
        (Fin 0 <=? num_of_nullable (predicted_price_range_high pred))%js
     then 1%Z else 0%Z)
    now (p_id pred).
Proof.
  intros Hnull Href Hpos. unfold evaluate_one. rewrite Href, Hnull.
  simpl num_of_nullable. unfold gtb.
  destruct (price ref) as [q | | |]; try discriminate.
  - apply ltb_fin in Hpos.
    assert (H1 : (Fin q <? Fin 0)%js = false) by (apply ltb_fin_false; lra).
    assert (H2 : (Fin 0 <? Fin q)%js = true) by (apply ltb_fin; exact Hpos).
    rewrite H1, H2. reflexivity.
  - reflexivity.
Qed.

(** C1, at the accuracy test vector (predicted ['up'], range [[95, 105]],
    reference price 90, realized price 100): the evaluation compares the
    row's own unset [actual_price] and not the realized price, so it
    records direction ['down'] and [was_accurate = 0], and the aggregate
    accuracy of the single-row dataset is 0 where the specification
    expects ['up'], 1 and 100. *)
Theorem C1_evaluation_reads_unset_actual_price :
  let now := 86400000000%Z in
  let db' := snd (evaluatePredictions single_row_db now) in
  fst (evaluatePredictions single_row_db now) = 1%nat /\
  outcomes db' = [(Some "down", Some (Fin 100), Some 0%Z)] /\
  total_predictions (overall (getHistoricalAccuracy db' now)) = 1%nat /\
  exists pct, accuracy_percentage (overall (getHistoricalAccuracy db' now)) = Some pct /\
              pct == 0.
Proof.
  vm_compute. repeat split. eexists. split; reflexivity.
Qed.

(** C2, on the rows that the engine itself tracks at time [t0]: the stored
    horizons are 86,400,000 and 604,800,000 ms, yet the sweep multiplies
    the stored horizon by 1000 and selects nothing once 24 hours or 7 days
    have elapsed; the short-term row is first selected 86,400,000,000 ms
    after its creation. *)
Theorem C2_sweep_scales_horizon_by_1000 (t0 : Z) :
  let db := tracked_db t0 in
  map DatabaseManager.timeframe (predictions db) = [86400000; 604800000]%Z /\
  map evaluated_at (predictions db) = [None; None] /\
  select_due db (t0 + 86400000) = [] /\
  select_due db (t0 + 604800000) = [] /\
  evaluatePredictions db (t0 + 86400000) = (0%nat, db) /\
  length (select_due db (t0 + 86400000000 - 1)) = 0%nat /\
  length (select_due db (t0 + 86400000000)) = 1%nat.
Proof.
  assert (H1 : (t0 + 86400000 * 1000 <=? t0 + 86400000)%Z = false)
    by (apply Z.leb_gt; lia).
  assert (H2 : (t0 + 604800000 * 1000 <=? t0 + 86400000)%Z = false)
    by (apply Z.leb_gt; lia).
  assert (H3 : (t0 + 86400000 * 1000 <=? t0 + 604800000)%Z = false)
    by (apply Z.leb_gt; lia).
  assert (H4 : (t0 + 604800000 * 1000 <=? t0 + 604800000)%Z = false)
    by (apply Z.leb_gt; lia).
  assert (H5 : (t0 + 86400000 * 1000 <=? t0 + 86400000000 - 1)%Z = false)
    by (apply Z.leb_gt; lia).
  assert (H6 : (t0 + 604800000 * 1000 <=? t0 + 86400000000 - 1)%Z = false)
    by (apply Z.leb_gt; lia).
  assert (H7 : (t0 + 86400000 * 1000 <=? t0 + 86400000000)%Z = true)
    by (apply Z.leb_le; lia).
  assert (H8 : (t0 + 604800000 * 1000 <=? t0 + 86400000000)%Z = false)
    by (apply Z.leb_gt; lia).
  cbv zeta.
  unfold evaluatePredictions, select_due, tracked_db, savePredictionForTracking,
    savePrediction, due.
  cbn -[Z.add Z.mul Z.leb Z.sub generateProbabilityDistribution].
  change (24 * 60 * 60 * 1000)%Z with 86400000%Z.
  change (7 * 24 * 60 * 60 * 1000)%Z with 604800000%Z.
  rewrite H1, H2, H3, H4, H5, H6, H7, H8.
  cbn -[generateProbabilityDistribution].
  repeat split; reflexivity.
Qed.

End Evaluation.

(** ** Exceptions of the scorers *)

Lemma nan_distance (price : num) :
  (((price - NaN) / price) * Fin 100 <? Fin 2)%js = false /\
  (((NaN - price) / price) * Fin 100 <? Fin 2)%js = false.
Proof. destruct price; split; reflexivity. Qed.

(** With no support level, or no resistance level, the support and
    resistance scorer formats [undefined] and throws. *)
Lemma analyzeSupportResistance_throws (ind : Indicators) (price : num)
    (sr : SupportResistance) :
  supportResistance ind = Some sr ->
  support sr = [] \/ resistance sr = [] ->
  analyzeSupportResistance ind price = Throw TypeError.
Proof.
  intros Hsr Hempty. unfold analyzeSupportResistance. rewrite Hsr.
  destruct (nan_distance price) as [Hs Hr].
  destruct Hempty as [He | He]; rewrite He; simpl nearest; simpl num_of.
  - rewrite Hs. simpl bind at 3.
    destruct ((num_of (nearest (resistance sr) price) - price) / price * Fin 100 <? Fin 2)%js;
      destruct (nearest (resistance sr) price); reflexivity.
  - rewrite Hr.
    destruct ((price - num_of (nearest (support sr) price)) / price * Fin 100 <? Fin 2)%js;
      destruct (nearest (support sr) price); reflexivity.
Qed.

(** C3, on the indicator snapshot of a market that rose hour after hour
    for the 50 bars of the lookback window, whatever the other indicators
    are: the level lists are empty, the support and resistance scorer
    throws a [TypeError], and so does [generatePrediction], where the
    specification expects both to return a value. *)
Theorem C3_empty_levels_throw (db : DatabaseManager.DB) (now : Z) (cid : string)
    (s20 s50 s200 r : option (list num)) (m : option MACD)
    (st : option Stochastic) (c : option (list num)) (bb : option BollingerBands)
    (vol vma ob : option (list num)) (ax : option ADX) (price : num) :
  let sr := calculateSupportResistance (rising_market 50) 50 in
  let ind := mkIndicators s20 s50 s200 r m st c bb vol vma ob sr ax in
  sr = Some (mkSupportResistance [] []) /\
  analyzeSupportResistance ind price = Throw TypeError /\
  generatePrediction db now cid (Some (mkAnalysis ind price)) = Throw TypeError.
Proof.
  intros sr ind.
  assert (Hsr : sr = Some (mkSupportResistance [] [])) by (vm_compute; reflexivity).
  assert (Hthrow : analyzeSupportResistance ind price = Throw TypeError).
  { apply (analyzeSupportResistance_throws ind price (mkSupportResistance [] [])).
    - subst ind. simpl. exact Hsr.
    - left. reflexivity. }
  repeat split; try assumption.
  unfold generatePrediction. cbv zeta. simpl indicators. simpl currentPrice.
  rewrite Hthrow.
  destruct (analyzeTrend ind price) as [? | []]; simpl; try reflexivity.
  destruct (analyzeMomentum ind) as [? | []]; simpl; try reflexivity.
  destruct (analyzeVolatility ind) as [? | []]; simpl; reflexivity.
Qed.

(** ** The guarded division of RSI *)

Section RsiGuard.

Lemma changes_from_finite (prev : num) (rest : list num) :
  finite prev -> Forall finite rest -> Forall finite (changes_from prev rest).
Proof.
  intros Hp H. revert prev Hp.
  induction H as [| x rest [qx ->] _ IH]; intros prev [qp ->]; simpl.
  - constructor.
  - constructor; [eexists; reflexivity |]. apply IH. eexists. reflexivity.
Qed.

Lemma changes_of_finite (prices : list num) :
  Forall finite prices -> Forall finite (changes_of prices).
Proof.
  intros H. destruct H as [| x rest Hx H]; simpl.
  - constructor.
  - apply changes_from_finite; assumption.
Qed.

Lemma firstn_forall {A : Type} (P : A -> Prop) (n : nat) (l : list A) :
  Forall P l -> Forall P (firstn n l).
Proof.
  intros H. rewrite <- (firstn_skipn n l) in H. apply Forall_app in H. tauto.
Qed.

Lemma skipn_forall {A : Type} (P : A -> Prop) (n : nat) (l : list A) :
  Forall P l -> Forall P (skipn n l).
Proof.
  intros H. rewrite <- (firstn_skipn n l) in H. apply Forall_app in H. tauto.
Qed.

Lemma rsi_seed_step_nonneg (g l q : Q) :
  0 <= g -> 0 <= l ->
  exists g' l', rsi_seed_step (Fin g, Fin l) (Fin q) = (Fin g', Fin l') /\
                0 <= g' /\ 0 <= l'.
Proof.
  intros Hg Hl. unfold rsi_seed_step.
  destruct (Fin q >? Fin 0)%js eqn:E.
  - unfold gtb in E. apply ltb_fin in E.
    exists (g + q), l. split; [reflexivity |]. split; lra.
  - exists g, (l + Qabs q). split; [reflexivity |].
    pose proof (Qabs_nonneg q). split; lra.
Qed.

Lemma rsi_seed_nonneg (cs : list num) :
  Forall finite cs ->
  exists g l, rsi_seed cs = (Fin g, Fin l) /\ 0 <= g /\ 0 <= l.
Proof.
  intros H. unfold rsi_seed.
  assert (G : forall g l, 0 <= g -> 0 <= l ->
            exists g' l',
              fold_left rsi_seed_step cs (Fin g, Fin l) = (Fin g', Fin l') /\
              0 <= g' /\ 0 <= l').
  { induction H as [| c cs [q ->] _ IH]; intros g l Hg Hl; cbn [fold_left].
    - exists g, l. auto.
    - destruct (rsi_seed_step_nonneg g l q Hg Hl) as [g' [l' [-> [Hg' Hl']]]].
      apply IH; assumption. }
  apply G; lra.
Qed.

Lemma rsi_value_bounded (g l : Q) :
  0 <= g -> 0 <= l ->
  fin_between 0 100
    (Fin 100 - Fin 100 / (Fin 1 + (if (Fin l === Fin 0)%js then Fin 100
                                   else Fin g / Fin l)))%js.
Proof.
  intros Hg Hl. simpl strict_eq.
  destruct (Qeq_bool l 0) eqn:E.
  - simpl. eexists. split; [reflexivity |]. split.
    + apply Qle_bool_iff. reflexivity.
    + apply Qle_bool_iff. reflexivity.
  - assert (Hl0 : ~ l == 0) by (intros H; apply Qeq_bool_iff in H; congruence).
    assert (Hlpos : 0 < l) by (apply Qnot_le_lt; intros H; apply Hl0; lra).
    rewrite div_fin by exact Hl0.
    assert (Hrs : 0 <= g / l) by (apply Qle_shift_div_l; [exact Hlpos | lra]).
    unfold add at 1. rewrite div_fin by lra.
    assert (H1 : 0 <= 100 / (1 + g / l)) by (apply Qle_shift_div_l; lra).
    assert (H2 : 100 / (1 + g / l) <= 100) by (apply Qle_shift_div_r; lra).
    eexists. split; [reflexivity |]. lra.
Qed.

Lemma rsi_loop_bounded (p g l : Q) (rest : list num) :
  0 < p -> 0 <= p - 1 -> 0 <= g -> 0 <= l -> Forall finite rest ->
  Forall (fin_between 0 100) (rsi_loop (Fin p) (Fin g) (Fin l) rest).
Proof.
  intros Hp Hp1 Hg Hl H. revert g l Hg Hl.
  induction H as [| c rest [q ->] _ IH]; intros g l Hg Hl; cbn [rsi_loop].
  - constructor.
  - constructor; [apply rsi_value_bounded; assumption |].
    assert (Eg : exists gain, (if (Fin q >? Fin 0)%js then Fin q else Fin 0) = Fin gain
                              /\ 0 <= gain).
    { destruct (Fin q >? Fin 0)%js eqn:E.
      - exists q. split; [reflexivity |]. unfold gtb in E. apply ltb_fin in E. lra.
      - exists 0. split; [reflexivity | lra]. }
    assert (El : exists loss, (if (Fin q <? Fin 0)%js then abs (Fin q) else Fin 0) = Fin loss
                              /\ 0 <= loss).
    { destruct (Fin q <? Fin 0)%js.
      - exists (Qabs q). split; [reflexivity | apply Qabs_nonneg].
      - exists 0. split; [reflexivity | lra]. }
    destruct Eg as [gain [-> Hgain]]. destruct El as [loss [-> Hloss]].
    unfold sub, neg, mul, add.
    rewrite !div_fin by lra.
    apply IH.
    + apply Qle_shift_div_l; [exact Hp |]. nra.
    + apply Qle_shift_div_l; [exact Hp |]. nra.
Qed.

(** On rational prices RSI stays within [[0, 100]]: its division is
    guarded by the [RS = 100] convention. *)
Lemma calculateRSI_bounded (prices : list num) (period : positive) (rsi : list num) :
  Forall finite prices ->
  calculateRSI prices period = Some rsi ->
  Forall (fin_between 0 100) rsi.
Proof.
  intros Hfin H. unfold calculateRSI in H. cbv zeta in H.
  destruct (length prices <? Pos.to_nat period + 1)%nat; [discriminate |].
  pose proof (changes_of_finite prices Hfin) as Hc.
  destruct (rsi_seed_nonneg (firstn (Pos.to_nat period) (changes_of prices)))
    as [g [l [E [Hg Hl]]]]; [apply firstn_forall; exact Hc |].
  rewrite E in H. injection H as <-.
  assert (Hp : 0 < inject_Z (Z.of_nat (Pos.to_nat period)))
    by (apply of_nat_pos, Pos2Nat.is_pos).
  assert (Hp1 : 0 <= inject_Z (Z.of_nat (Pos.to_nat period)) - 1).
  { pose proof (Pos2Nat.is_pos period) as Hpos.
    assert (Hz : (1 <= Z.of_nat (Pos.to_nat period))%Z) by lia.
    rewrite Zle_Qle in Hz. change (inject_Z 1) with 1 in Hz. lra. }
  rewrite !(Qeq_bool_false (inject_Z (Z.of_nat (Pos.to_nat period))) 0) by lra.
  unfold of_nat. apply rsi_loop_bounded; try assumption.
  - apply Qle_shift_div_l; [exact Hp | lra].
  - apply Qle_shift_div_l; [exact Hp | lra].
  - apply skipn_forall. exact Hc.
Qed.

End RsiGuard.

(** ** Divisions by zero in the indicator library *)

(** C4, on a market that does not move: RSI takes its guarded branch and
    is finite, but the commodity channel index divides [0] by a zero mean
    deviation and the stochastic oscillator divides [0] by a zero range;
    both return [NaN] in their series, where the specification expects a
    guarded fallback value. *)
Theorem C4_unguarded_divisions :
  (exists v, calculateRSI (map close (flat_market 16)) 14 = Some [v] /\
             (v =~ Fin (10000 # 101))%js) /\
  calculateCCI (flat_market 20) 20 = Some [NaN] /\
  calculateStochastic (flat_market 16) 14 3 3 = Some (mkStochastic (Some [NaN]) None).
Proof.
  split; [| split].
  - eexists. split; [vm_compute; reflexivity | vm_compute; reflexivity].
  - vm_compute. reflexivity.
  - vm_compute. reflexivity.
Qed.

(** ** Lengths and alignment of the indicator series *)

Section SeriesLengths.

Lemma range_length (lo hi : nat) : length (range lo hi) = (hi - lo)%nat.
Proof. unfold range. apply length_seq. Qed.

Lemma slice_length {A : Type} (start stop : nat) (l : list A) :
  (stop <= length l)%nat -> length (slice start stop l) = (stop - start)%nat.
Proof.
  intros H. unfold slice. rewrite length_firstn, length_skipn. lia.
Qed.

Lemma nth_map_range (f : nat -> num) (lo hi j : nat) :
  (j < hi - lo)%nat -> nth j (map f (range lo hi)) NaN = f (lo + j)%nat.
Proof.
  intros H. unfold range.
  rewrite (nth_indep _ NaN (f 0%nat)) by (rewrite length_map, length_seq; exact H).
  rewrite map_nth, seq_nth by exact H. reflexivity.
Qed.

Lemma ema_loop_length (k prev : num) (rest : list num) :
  length (ema_loop k prev rest) = length rest.
Proof.
  revert prev. induction rest as [| x rest IH]; intros prev; simpl.
  - reflexivity.
  - rewrite IH. reflexivity.
Qed.

Lemma changes_from_length (prev : num) (rest : list num) :
  length (changes_from prev rest) = length rest.
Proof.
  revert prev. induction rest as [| x rest IH]; intros prev; simpl.
  - reflexivity.
  - rewrite IH. reflexivity.
Qed.

Lemma changes_of_length (prices : list num) :
  length (changes_of prices) = (length prices - 1)%nat.
Proof.
  destruct prices as [| x rest]; simpl.
  - reflexivity.
  - rewrite changes_from_length. lia.
Qed.

Lemma rsi_loop_length (p g l : num) (rest : list num) :
  length (rsi_loop p g l rest) = length rest.
Proof.
  revert g l. induction rest as [| c rest IH]; intros g l; simpl.
  - reflexivity.
  - rewrite IH. reflexivity.
Qed.

Lemma calculateSMA_series (prices : list num) (period : positive) :
  (Pos.to_nat period <= length prices)%nat ->
  exists sma,
    calculateSMA prices period = Some sma /\
    length sma = (length prices - Pos.to_nat period + 1)%nat /\
    forall j, (j < length sma)%nat ->
      let window := slice j (j + Pos.to_nat period) prices in
      length window = Pos.to_nat period /\
      nth j sma NaN = average window.
Proof.
  intros Hle. pose proof (Pos2Nat.is_pos period) as Hpos.
  unfold calculateSMA. cbv zeta.
  destruct (Nat.ltb_spec (length prices) (Pos.to_nat period)) as [Hlt | _]; [lia |].
  eexists. split; [reflexivity |]. split.
  - rewrite length_map, range_length. lia.
  - intros j Hj. rewrite length_map, range_length in Hj.
    assert (Hw : length (slice j (j + Pos.to_nat period) prices) = Pos.to_nat period)
      by (rewrite slice_length; lia).
    split; [exact Hw |].
    rewrite nth_map_range by exact Hj.
    unfold average. rewrite Hw.
    replace (Pos.to_nat period - 1 + j + 1 - Pos.to_nat period)%nat with j by lia.
    replace (Pos.to_nat period - 1 + j + 1)%nat with (j + Pos.to_nat period)%nat by lia.
    reflexivity.
Qed.

Lemma calculateRSI_length (prices : list num) (period : positive) :
  (Pos.to_nat period + 1 <= length prices)%nat ->
  exists rsi,
    calculateRSI prices period = Some rsi /\
    length rsi = (length prices - Pos.to_nat period - 1)%nat.
Proof.
  intros Hle. unfold calculateRSI. cbv zeta.
  destruct (Nat.ltb_spec (length prices) (Pos.to_nat period + 1)) as [Hlt | _]; [lia |].
  destruct (rsi_seed (firstn (Pos.to_nat period) (changes_of prices))) as [g l].
  eexists. split; [reflexivity |].
  rewrite rsi_loop_length, length_skipn, changes_of_length. lia.
Qed.

Lemma calculateEMA_length (prices : list num) (period : positive) :
  (Pos.to_nat period <= length prices)%nat ->
  exists ema,
    calculateEMA prices period = Some ema /\
    length ema = length prices /\
    nth_error ema 0 = nth_error prices 0.
Proof.
  intros Hle. pose proof (Pos2Nat.is_pos period) as Hpos.
  unfold calculateEMA. cbv zeta.
  destruct (Nat.ltb_spec (length prices) (Pos.to_nat period)) as [Hlt | _]; [lia |].
  destruct prices as [| first rest]; [simpl in Hle; lia |].
  eexists. split; [reflexivity |]. split.
  - simpl. rewrite ema_loop_length. reflexivity.
  - reflexivity.
Qed.

End SeriesLengths.




(** C10. On a series at least as long as the period, the exponential
    average has exactly the length of its input and starts with the first
    input value. Consequently, when the series is at least as long as the
    three periods of MACD, the MACD line, the signal line and the histogram
    all have the length of the input, the histogram's offset into the MACD
    line is 0, and the histogram is the difference of the two lines index
    by index. *)
Theorem C10_ema_keeps_input_length (prices : list num)
    (period fast slow sig : positive) :
  ((Pos.to_nat period <= length prices)%nat ->
   exists ema,
     calculateEMA prices period = Some ema /\
     length ema = length prices /\
     nth_error ema 0 = nth_error prices 0) /\
  ((Pos.to_nat fast <= length prices)%nat ->
   (Pos.to_nat slow <= length prices)%nat ->
   (Pos.to_nat sig <= length prices)%nat ->
   exists m signalLine,
     calculateMACD prices fast slow sig = Some m /\
     signal m = Some signalLine /\
     length (TechnicalIndicators.macd m) = length prices /\
     length signalLine = length prices /\
     length (histogram m) = length prices /\
     (length (TechnicalIndicators.macd m) - length signalLine = 0)%nat /\
     forall i, (i < length prices)%nat ->
       get (histogram m) i =
       (get (TechnicalIndicators.macd m) i - get signalLine i)%js).
Proof.
  split; [apply calculateEMA_length |].
  intros Hf Hs Hg.
  destruct (calculateEMA_length prices fast Hf) as [fastEMA [Ef [Lf _]]].
  destruct (calculateEMA_length prices slow Hs) as [slowEMA [Es [Ls _]]].
  unfold calculateMACD. rewrite Ef, Es.
  set (macdLine := map (fun i => (get fastEMA i - get slowEMA i)%js)
                       (range 0 (length fastEMA))).
  assert (Lm : length macdLine = length prices).
  { subst macdLine. rewrite length_map, range_length. lia. }
  destruct (calculateEMA_length macdLine sig) as [signalLine [Eg [Lg _]]];
    [rewrite Lm; exact Hg |].
  rewrite Eg. eexists. exists signalLine.
  split; [reflexivity |]. simpl.
  repeat split; try assumption; try lia.
  - rewrite length_map, range_length. lia.
  - intros i Hi. unfold get at 1.
    rewrite nth_map_range by lia.
    replace (0 + i + (length macdLine - length signalLine))%nat with i by lia.
    reflexivity.
Qed.

Lemma C10_ema_keeps_input_length_witness :
  let prices := prices_of [10; 12; 14; 16]%Z in
  (Pos.to_nat 2 <= length prices)%nat /\
  (Pos.to_nat 3 <= length prices)%nat /\
  (exists ema, calculateEMA prices 3 = Some ema /\ length ema = 4%nat) /\
  (exists m signalLine,
     calculateMACD prices 2 3 2 = Some m /\ signal m = Some signalLine /\
     length (histogram m) = 4%nat).
Proof.
  intros prices.
  assert (H2 : (Pos.to_nat 2 <= length prices)%nat) by (vm_compute; lia).
  assert (H3 : (Pos.to_nat 3 <= length prices)%nat) by (vm_compute; lia).
  split; [exact H2 |]. split; [exact H3 |].
  destruct (C10_ema_keeps_input_length prices 3 2 3 2) as [Hema Hmacd].
  split.
  - destruct (Hema H3) as [ema [E [L _]]]. exists ema. split; [exact E | exact L].
  - destruct (Hmacd H2 H3 H2) as [m [sl [E [S [_ [_ [L _]]]]]]].
    exists m, sl. split; [exact E |]. split; [exact S | exact L].
Defined.

(** ** The category scores and the composite score *)

Section Scores.

Lemma start_finite : finite_acc start.
Proof. exists 0. reflexivity. Qed.

Lemma plus_finite (delta : Q) (text : string) (f : list num) (a : Acc) :
  finite_acc a -> finite_acc (plus delta text f a).
Proof. intros [q Hq]. exists (q + delta). unfold plus. simpl. rewrite Hq. reflexivity. Qed.

Lemma minus_finite (delta : Q) (text : string) (f : list num) (a : Acc) :
  finite_acc a -> finite_acc (minus delta text f a).
Proof.
  intros [q Hq]. exists (q + - delta). unfold minus. simpl. rewrite Hq. reflexivity.
Qed.

Lemma note_finite (text : string) (f : list num) (a : Acc) :
  finite_acc a -> finite_acc (note text f a).
Proof. intros [q Hq]. exists q. exact Hq. Qed.

Create HintDb scores.
#[local] Hint Resolve start_finite plus_finite minus_finite note_finite : scores.

(** Split every conditional of the goal. *)
Ltac split_ifs :=
  repeat match goal with
    | |- context [if ?c then _ else _] => destruct c
    end.

(** Split the conditionals and the monadic steps of a hypothesis
    [... = Ok a']. *)
Ltac split_ok H :=
  repeat match type of H with
    | context [if ?c then _ else _] => destruct c
    | context [toFixed ?v] => destruct v; simpl in H
    end;
  try discriminate H;
  try (injection H as H; subst).

Lemma clamp_fin (q : Q) : in_unit_range (clamp (Fin q)).
Proof.
  unfold in_unit_range, clamp, min, max.
  destruct (Fin q <? Fin 1)%js eqn:E1.
  - destruct (Fin (-1) <? Fin q)%js eqn:E2; fin_bool; eexists; split;
      try reflexivity; lra.
  - fin_bool. simpl. eexists. split; [reflexivity | lra].
Qed.

Lemma finish_in_range (a : Acc) : finite_acc a -> in_unit_range (score (finish a)).
Proof. intros [q Hq]. unfold finish. simpl. rewrite Hq. apply clamp_fin. Qed.

Lemma trend_moving_averages_finite (ind : Indicators) (price : num) (a : Acc) :
  finite_acc a -> finite_acc (trend_moving_averages ind price a).
Proof.
  intros Ha. unfold trend_moving_averages. cbv zeta. split_ifs; auto 10 with scores.
Qed.

Lemma trend_adx_finite (ind : Indicators) (a a' : Acc) :
  trend_adx ind a = Ok a' -> finite_acc a -> finite_acc a'.
Proof.
  intros H Ha. unfold trend_adx in H.
  destruct (adx_ ind) as [x |]; [destruct (adx x) as [series |] |];
    cbv zeta in H; split_ok H; auto with scores.
Qed.

Lemma analyzeTrend_in_range (ind : Indicators) (price : num) (t : SignalScore) :
  analyzeTrend ind price = Ok t -> in_unit_range (score t).
Proof.
  unfold analyzeTrend. intros H.
  destruct (trend_adx ind (trend_moving_averages ind price start)) as [a |] eqn:E;
    simpl in H; [| discriminate].
  injection H as <-. apply finish_in_range.
  eapply trend_adx_finite; [exact E |].
  apply trend_moving_averages_finite, start_finite.
Qed.

Lemma momentum_rsi_finite (ind : Indicators) (a a' : Acc) :
  momentum_rsi ind a = Ok a' -> finite_acc a -> finite_acc a'.
Proof.
  intros H Ha. unfold momentum_rsi in H.
  destruct (rsi ind) as [series |]; cbv zeta in H; split_ok H; auto with scores.
Qed.

Lemma momentum_macd_finite (ind : Indicators) (a : Acc) :
  finite_acc a -> finite_acc (momentum_macd ind a).
Proof.
  intros Ha. unfold momentum_macd. destruct (PredictionEngine.macd ind); cbv zeta;
    split_ifs; auto 10 with scores.
Qed.

Lemma momentum_stochastic_finite (ind : Indicators) (a a' : Acc) :
  momentum_stochastic ind a = Ok a' -> finite_acc a -> finite_acc a'.
Proof.
  intros H Ha. unfold momentum_stochastic in H.
  destruct (stochastic ind) as [st |]; [destruct (k st) as [series |] |];
    cbv zeta in H; split_ok H; auto with scores.
Qed.

Lemma momentum_cci_finite (ind : Indicators) (a : Acc) :
  finite_acc a -> finite_acc (momentum_cci ind a).
Proof.
  intros Ha. unfold momentum_cci. destruct (cci ind); cbv zeta;
    split_ifs; auto with scores.
Qed.

Lemma analyzeMomentum_in_range (ind : Indicators) (m : SignalScore) :
  analyzeMomentum ind = Ok m -> in_unit_range (score m).
Proof.
  unfold analyzeMomentum. intros H.
  destruct (momentum_rsi ind start) as [a |] eqn:E1; simpl in H; [| discriminate].
  destruct (momentum_stochastic ind (momentum_macd ind a)) as [a' |] eqn:E2;
    simpl in H; [| discriminate].
  injection H as <-. apply finish_in_range, momentum_cci_finite.
  eapply momentum_stochastic_finite; [exact E2 |].
  apply momentum_macd_finite.
  eapply momentum_rsi_finite; [exact E1 | apply start_finite].
Qed.

Lemma volatility_level_score (ind : Indicators) (a : Acc) (r : VolatilityLevel * Acc) :
  volatility_level ind a = Ok r -> fst (snd r) = fst a.
Proof.
  intros H. unfold volatility_level in H.
  destruct (PredictionEngine.volatility ind) as [series |]; cbv zeta in H;
    split_ok H; reflexivity.
Qed.

Lemma volatility_bands_score (ind : Indicators) (a : Acc) :
  fst (volatility_bands ind a) = fst a.
Proof.
  unfold volatility_bands. destruct (bollingerBands ind); cbv zeta;
    split_ifs; reflexivity.
Qed.

(** The volatility scorer only classifies: its score is [0]. *)
Lemma analyzeVolatility_score (ind : Indicators) (v : SignalScore) :
  analyzeVolatility ind = Ok v -> score v = Fin 0.
Proof.
  unfold analyzeVolatility. intros H.
  destruct (volatility_level ind start) as [r |] eqn:E; simpl in H; [| discriminate].
  injection H as <-. simpl.
  rewrite volatility_bands_score, (volatility_level_score _ _ _ E). reflexivity.
Qed.

Lemma analyzeVolume_in_range (ind : Indicators) (v : SignalScore) :
  analyzeVolume ind = Ok v -> in_unit_range (score v).
Proof.
  unfold analyzeVolume. intros H. injection H as <-.
  apply finish_in_range.
  destruct (volumeMA ind), (obv ind); cbv zeta; split_ifs; auto 10 with scores.
Qed.

Lemma analyzeSupportResistance_in_range (ind : Indicators) (price : num)
    (s : SignalScore) :
  analyzeSupportResistance ind price = Ok s -> in_unit_range (score s).
Proof.
  unfold analyzeSupportResistance. intros H.
  destruct (supportResistance ind) as [sr |]; cbv zeta in H.
  - repeat match type of H with
      | context [if ?c then _ else _] => destruct c
      | context [toFixed ?v] => destruct v; simpl in H
      end; try discriminate H; injection H as <-;
      apply finish_in_range; auto 10 with scores.
  - simpl in H. injection H as <-. apply finish_in_range, start_finite.
Qed.

End Scores.

(** The distribution carries the composite score it was given. *)
Lemma generateProbabilityDistribution_score (c : num) (v : SignalScore) (p : num) :
  compositeScore (generateProbabilityDistribution c v p) = c.
Proof.
  unfold generateProbabilityDistribution.
  destruct (abs c >? Fin 0.5)%js; [| destruct (abs c >? Fin 0.25)%js]; reflexivity.
Qed.

(** C5. Whenever the five scorers return, the scores of trend, momentum,
    volume and support/resistance are each within [[-1, 1]], the
    volatility score is [0], and the composite score, their sum weighted by
    0.25, 0.20, 0.15, 0.15 and 0.15, is within [[-1, 1]]; it is the
    composite score of the prediction that [generatePrediction] returns. *)
Theorem C5_composite_score_in_range (ind : Indicators) (price : num)
    (t m v vol sr : SignalScore)
    (db : DatabaseManager.DB) (now : Z) (cid : string) :
  analyzeTrend ind price = Ok t ->
  analyzeMomentum ind = Ok m ->
  analyzeVolatility ind = Ok v ->
  analyzeVolume ind = Ok vol ->
  analyzeSupportResistance ind price = Ok sr ->
  in_unit_range (score t) /\
  in_unit_range (score m) /\
  score v = Fin 0 /\
  in_unit_range (score vol) /\
  in_unit_range (score sr) /\
  in_unit_range (composite (mkSignals t m v vol sr)) /\
  (composite (mkSignals t m v vol sr) =~
   score t * Fin 0.25 + score m * Fin 0.20 + score vol * Fin 0.15 +
   score sr * Fin 0.15)%js /\
  exists p db',
    generatePrediction db now cid (Some (mkAnalysis ind price)) = Ok (Some p, db') /\
    compositeScore (distribution p) = composite (mkSignals t m v vol sr).
Proof.
  intros Ht Hm Hv Hvol Hsr.
  assert (Hgen : exists p db',
             generatePrediction db now cid (Some (mkAnalysis ind price))
             = Ok (Some p, db') /\
             compositeScore (distribution p) = composite (mkSignals t m v vol sr)).
  { unfold generatePrediction. cbv zeta. simpl indicators. simpl currentPrice.
    rewrite Ht, Hm, Hv, Hvol, Hsr. cbn [bind].
    eexists. eexists. split; [reflexivity |].
    apply generateProbabilityDistribution_score. }
  pose proof (analyzeTrend_in_range _ _ _ Ht) as [qt [Et Bt]].
  pose proof (analyzeMomentum_in_range _ _ Hm) as [qm [Em Bm]].
  pose proof (analyzeVolatility_score _ _ Hv) as Ev.
  pose proof (analyzeVolume_in_range _ _ Hvol) as [qv [Evol Bv]].
  pose proof (analyzeSupportResistance_in_range _ _ _ Hsr) as [qs [Es Bs]].
  repeat split; try (eexists; split; [eassumption | lra]); try assumption.
  - unfold composite. simpl. rewrite Et, Em, Ev, Evol, Es. simpl.
    eexists. split; [reflexivity | lra].
  - unfold composite. simpl. rewrite Et, Em, Ev, Evol, Es. simpl. ring.
Qed.

Lemma C5_composite_score_in_range_witness :
  exists t m v vol sr,
    analyzeTrend sample_indicators (Fin 105) = Ok t /\
    analyzeMomentum sample_indicators = Ok m /\
    analyzeVolatility sample_indicators = Ok v /\
    analyzeVolume sample_indicators = Ok vol /\
    analyzeSupportResistance sample_indicators (Fin 105) = Ok sr /\
    in_unit_range (composite (mkSignals t m v vol sr)).
Proof.
  do 5 eexists.
  assert (Ht : analyzeTrend sample_indicators (Fin 105) = Ok _) by (vm_compute; reflexivity).
  assert (Hm : analyzeMomentum sample_indicators = Ok _) by (vm_compute; reflexivity).
  assert (Hv : analyzeVolatility sample_indicators = Ok _) by (vm_compute; reflexivity).
  assert (Hvol : analyzeVolume sample_indicators = Ok _) by (vm_compute; reflexivity).
  assert (Hsr : analyzeSupportResistance sample_indicators (Fin 105) = Ok _)
    by (vm_compute; reflexivity).
  repeat (split; [eassumption |]).
  apply (C5_composite_score_in_range sample_indicators (Fin 105) _ _ _ _ _
           (DatabaseManager.mkDB [] [] []) 0%Z "bitcoin"
           Ht Hm Hv Hvol Hsr).
Defined.

(** ** Support and resistance *)

Section Clustering.

Lemma le_num_trans (x y z : num) : le_num x y -> le_num y z -> le_num x z.
Proof.
  unfold le_num. destruct x, y, z; simpl; try discriminate; auto.
  rewrite !Qle_bool_iff. intros; lra.
Qed.

Lemma le_num_fin (a b : Q) : le_num (Fin a) (Fin b) <-> a <= b.
Proof. unfold le_num. apply leb_fin. Qed.

Lemma of_nat_succ (n : nat) :
  inject_Z (Z.of_nat (S n)) == inject_Z (Z.of_nat n) + 1.
Proof.
  rewrite Nat2Z.inj_succ. unfold Z.succ. rewrite inject_Z_plus. reflexivity.
Qed.

Lemma fold_add_between (lo hi : Q) (l : list num) (acc : Q) :
  Forall (fin_between lo hi) l ->
  exists s,
    fold_left add l (Fin acc) = Fin s /\
    acc + inject_Z (Z.of_nat (length l)) * lo <= s /\
    s <= acc + inject_Z (Z.of_nat (length l)) * hi.
Proof.
  intros H. revert acc. induction H as [| x l [q [-> Hq]] _ IH]; intros acc.
  - exists acc. split; [reflexivity |].
    change (inject_Z (Z.of_nat (@length num []))) with 0. split; lra.
  - destruct (IH (acc + q)) as [s [Es [Hlo Hhi]]].
    exists s. split; [exact Es |].
    change (length (Fin q :: l)) with (S (length l)).
    rewrite of_nat_succ.
    set (n := inject_Z (Z.of_nat (length l))) in *.
    split; nra.
Qed.

Lemma average_between (lo hi : Q) (l : list num) :
  l <> [] -> Forall (fin_between lo hi) l -> fin_between lo hi (average l).
Proof.
  intros Hne H.
  destruct (fold_add_between lo hi l 0 H) as [s [Es [Hlo Hhi]]].
  assert (Hn : 0 < inject_Z (Z.of_nat (length l))).
  { apply of_nat_pos. destruct l; [congruence | simpl; lia]. }
  unfold average, sum. rewrite Es. unfold of_nat.
  rewrite div_fin by lra.
  eexists. split; [reflexivity |]. split.
  - apply Qle_shift_div_l; [exact Hn | lra].
  - apply Qle_shift_div_r; [exact Hn | lra].
Qed.

Lemma sort_insert_finite (x : num) (l : list num) :
  finite x -> Forall finite l -> Forall finite (sort_insert x l).
Proof.
  intros Hx Hl. induction Hl as [| y l Hy Hl IH]; cbn [sort_insert].
  - constructor; [exact Hx | constructor].
  - destruct (y - x >? Fin 0)%js.
    + constructor; [exact Hx |]. constructor; assumption.
    + constructor; assumption.
Qed.

Lemma sort_insert_hd (a x : num) (l : list num) :
  le_num a x -> HdRel le_num a l -> HdRel le_num a (sort_insert x l).
Proof.
  intros Hax Hl. destruct l as [| y l]; cbn [sort_insert].
  - constructor. exact Hax.
  - destruct (y - x >? Fin 0)%js; constructor.
    + exact Hax.
    + inversion Hl; assumption.
Qed.

Lemma sort_insert_sorted (x : num) (l : list num) :
  finite x -> Forall finite l -> Sorted le_num l -> Sorted le_num (sort_insert x l).
Proof.
  intros [qx ->] Hfin Hs. induction Hs as [| y l Hs IH Hhd]; cbn [sort_insert].
  - constructor; constructor.
  - inversion Hfin as [| ? ? [qy ->] Hfin']; subst.
    destruct (Fin qy - Fin qx >? Fin 0)%js eqn:E.
    + constructor; [constructor; assumption |].
      constructor. apply le_num_fin.
      simpl in E. unfold gtb in E. apply ltb_fin in E. lra.
    + constructor; [apply IH; exact Hfin' |].
      apply sort_insert_hd; [| exact Hhd].
      apply le_num_fin. simpl in E. unfold gtb in E. apply ltb_fin_false in E. lra.
Qed.

Lemma sort_ascending_sorted (levels : list num) :
  Forall finite levels ->
  Forall finite (sort_ascending levels) /\
  StronglySorted le_num (sort_ascending levels).
Proof.
  intros H. unfold sort_ascending.
  assert (G : forall acc, Forall finite acc -> Sorted le_num acc ->
            Forall finite (fold_left (fun sorted x => sort_insert x sorted) levels acc) /\
            Sorted le_num (fold_left (fun sorted x => sort_insert x sorted) levels acc)).
  { induction H as [| x l Hx Hl IH]; intros acc Hacc Hs; simpl.
    - split; assumption.
    - apply IH.
      + apply sort_insert_finite; assumption.
      + apply sort_insert_sorted; assumption. }
  destruct (G [] (Forall_nil _) (Sorted_nil _)) as [G1 G2].
  split; [exact G1 |].
  apply Sorted_StronglySorted; [| exact G2].
  intros x y z. apply le_num_trans.
Qed.

Lemma cluster_loop_sorted (rest : list num) :
  forall (prev : num) (cur : list num) (lo pq : Q),
    prev = Fin pq -> lo <= pq -> cur <> [] ->
    Forall (fin_between lo pq) cur ->
    Forall finite rest ->
    StronglySorted le_num (prev :: rest) ->
    StronglySorted le_num (cluster_loop prev cur rest) /\
    Forall (fin_from lo) (cluster_loop prev cur rest).
Proof.
  induction rest as [| x rest IH]; intros prev cur lo pq -> Hlo Hne Hcur Hfin Hs.
  - simpl. destruct (average_between lo pq cur Hne Hcur) as [a [Ea [Ha _]]].
    split.
    + constructor; constructor.
    + constructor; [| constructor]. exists a. split; assumption.
  - inversion Hfin as [| ? ? [xq ->] Hfin']; subst.
    inversion Hs as [| ? ? Hs' Hall]; subst.
    assert (Hpx : pq <= xq).
    { inversion Hall; subst. apply le_num_fin. assumption. }
    cbn [cluster_loop]. destruct ((Fin xq - Fin pq) / Fin pq <? Fin 0.02)%js.
    + apply (IH (Fin xq) (cur ++ [Fin xq]) lo xq); auto.
      * lra.
      * destruct cur; discriminate.
      * apply Forall_app. split.
        -- eapply Forall_impl; [| exact Hcur].
           intros z [q [-> Hq]]. exists q. split; [reflexivity | lra].
        -- constructor; [| constructor]. exists xq. split; [reflexivity | lra].
    + destruct (average_between lo pq cur Hne Hcur) as [a [Ea [Ha1 Ha2]]].
      destruct (IH (Fin xq) [Fin xq] xq xq) as [IH1 IH2]; auto.
      * lra.
      * discriminate.
      * constructor; [| constructor]. exists xq. split; [reflexivity | lra].
      * rewrite Ea. split.
        -- constructor; [exact IH1 |].
           eapply Forall_impl; [| exact IH2].
           intros z [q [-> Hq]]. apply le_num_fin. lra.
        -- constructor.
           ++ exists a. split; [reflexivity | exact Ha1].
           ++ eapply Forall_impl; [| exact IH2].
              intros z [q [-> Hq]]. exists q. split; [reflexivity | lra].
Qed.

(** The clusters of rational levels come out in ascending order. *)
Lemma clusterLevels_sorted (levels : list num) :
  Forall finite levels -> StronglySorted le_num (clusterLevels levels).
Proof.
  intros H. unfold clusterLevels.
  destruct (sort_ascending_sorted levels H) as [Hfin Hs].
  destruct (sort_ascending levels) as [| first rest].
  - constructor.
  - inversion Hfin as [| ? ? [fq ->] Hfin']; subst.
    apply (cluster_loop_sorted rest (Fin fq) [Fin fq] fq fq); auto.
    + lra.
    + discriminate.
    + constructor; [| constructor]. exists fq. split; [reflexivity | lra].
Qed.

Lemma sorted_app_le (l1 l2 : list num) :
  StronglySorted le_num (l1 ++ l2) ->
  forall x y, In x l1 -> In y l2 -> le_num x y.
Proof.
  induction l1 as [| a l1 IH]; simpl; intros Hs x y Hx Hy.
  - contradiction.
  - inversion Hs as [| ? ? Hs' Hall]; subst.
    destruct Hx as [<- | Hx].
    + rewrite Forall_forall in Hall. apply Hall. apply in_or_app. right. exact Hy.
    + apply (IH Hs' x y Hx Hy).
Qed.

End Clustering.

Section Levels.

Lemma gtb_sub_fin (a b : Q) :
  (Fin a - Fin b >? Fin 0)%js = negb (Qle_bool a b).
Proof.
  unfold gtb. simpl.
  destruct (Qle_bool a b) eqn:E1, (Qle_bool (a + - b) 0) eqn:E2; try reflexivity.
  - apply Qle_bool_iff in E1.
    assert (H : ~ a + - b <= 0) by (intros H; apply Qle_bool_iff in H; congruence).
    exfalso. apply H. lra.
  - apply Qle_bool_iff in E2.
    assert (H : ~ a <= b) by (intros H; apply Qle_bool_iff in H; congruence).
    exfalso. apply H. lra.
Qed.

Lemma relative_gap_fin (a b : Q) :
  0 < a ->
  ((Fin b - Fin a) / Fin a <? Fin 0.02)%js = negb (Qle_bool 0.02 ((b - a) / a)).
Proof.
  intros Ha. unfold sub, neg, add. rewrite div_fin by lra. reflexivity.
Qed.

Lemma average_one (a : Q) : (average [Fin a] =~ Fin a)%js.
Proof. unfold average, sum. simpl. field. Qed.

Lemma average_two (a b : Q) : (average [Fin a; Fin b] =~ Fin ((a + b) / 2))%js.
Proof. unfold average, sum. simpl. field. Qed.

Lemma clusterLevels_pair (a b : Q) :
  0 < a -> a <= b ->
  ((b - a) / a < 0.02 ->
   same_series (clusterLevels [Fin a; Fin b]) [Fin ((a + b) / 2)] /\
   same_series (clusterLevels [Fin b; Fin a]) [Fin ((a + b) / 2)]) /\
  (0.02 <= (b - a) / a ->
   same_series (clusterLevels [Fin a; Fin b]) [Fin a; Fin b] /\
   same_series (clusterLevels [Fin b; Fin a]) [Fin a; Fin b]).
Proof.
  intros Ha Hab.
  assert (Hba : Qle_bool a b = true) by (apply Qle_bool_iff; exact Hab).
  assert (Hgap : (b - a) / a == (b - a) * / a) by reflexivity.
  unfold clusterLevels, sort_ascending. cbn [fold_left sort_insert].
  rewrite !gtb_sub_fin, Hba. cbn [negb].
  split; intros Hrel.
  - assert (E : Qle_bool 0.02 ((b - a) / a) = false).
    { destruct (Qle_bool 0.02 ((b - a) / a)) eqn:E; [| reflexivity].
      apply Qle_bool_iff in E. lra. }
    split.
    + cbn [cluster_loop]. rewrite relative_gap_fin, E by exact Ha. cbn [negb app].
      constructor; [apply average_two | constructor].
    + destruct (Qle_bool b a) eqn:Eba; cbn [negb cluster_loop].
      * apply Qle_bool_iff in Eba.
        assert (Hb : 0 < b) by lra.
        assert (E' : Qle_bool 0.02 ((a - b) / b) = false).
        { destruct (Qle_bool 0.02 ((a - b) / b)) eqn:E'; [| reflexivity].
          apply Qle_bool_iff in E'. exfalso.
          assert (Heq : a == b) by lra.
          assert (Hz : (a - b) / b == 0) by (rewrite Heq; field; lra).
          rewrite Hz in E'. lra. }
        rewrite relative_gap_fin, E' by exact Hb. cbn [negb app].
        constructor; [| constructor].
        eapply same_trans; [apply average_two |]. simpl. field.
      * rewrite relative_gap_fin, E by exact Ha. cbn [negb app].
        constructor; [apply average_two | constructor].
  - assert (E : Qle_bool 0.02 ((b - a) / a) = true) by (apply Qle_bool_iff; exact Hrel).
    assert (Hlt : a < b).
    { apply Qnot_le_lt. intros Hle. assert (Heq : a == b) by lra.
      assert (Hz : (b - a) / a == 0) by (rewrite Heq; field; lra).
      rewrite Hz in Hrel. lra. }
    assert (Eba : Qle_bool b a = false).
    { destruct (Qle_bool b a) eqn:Eba; [| reflexivity].
      apply Qle_bool_iff in Eba. lra. }
    rewrite Eba. cbn [negb cluster_loop].
    rewrite relative_gap_fin, E by exact Ha. cbn [negb].
    split; (constructor; [apply average_one |]; constructor;
            [apply average_one | constructor]).
Qed.

Lemma get_finite (l : list num) (i : nat) :
  Forall finite l -> (i < length l)%nat -> finite (get l i).
Proof.
  intros H Hi. rewrite Forall_forall in H. apply H. unfold get. apply nth_In. exact Hi.
Qed.

Lemma local_maxima_finite (highs : list num) :
  Forall finite highs -> Forall finite (local_maxima highs).
Proof.
  intros H. unfold local_maxima. apply Forall_flat_map. apply Forall_forall.
  intros i Hi. unfold range in Hi. apply in_seq in Hi.
  match goal with |- context [if ?c then _ else _] => destruct c end;
    constructor; [| constructor].
  apply get_finite; [exact H | lia].
Qed.

Lemma local_minima_finite (lows : list num) :
  Forall finite lows -> Forall finite (local_minima lows).
Proof.
  intros H. unfold local_minima. apply Forall_flat_map. apply Forall_forall.
  intros i Hi. unfold range in Hi. apply in_seq in Hi.
  match goal with |- context [if ?c then _ else _] => destruct c end;
    constructor; [| constructor].
  apply get_finite; [exact H | lia].
Qed.

Lemma slice_last_forall {A : Type} (P : A -> Prop) (n : nat) (l : list A) :
  Forall P l -> Forall P (slice_last n l).
Proof.
  intros H. unfold slice_last. rewrite <- (firstn_skipn (length l - n) l) in H.
  apply Forall_app in H. tauto.
Qed.

End Levels.

Lemma sort_insert_perm (x : num) (l : list num) :
  Permutation (sort_insert x l) (x :: l).
Proof.
  induction l as [| y l IH]; cbn [sort_insert]; [apply Permutation_refl |].
  destruct (y - x >? Fin 0)%js; [apply Permutation_refl |].
  apply Permutation_trans with (y :: x :: l);
    [apply perm_skip; exact IH | apply perm_swap].
Qed.

Lemma sort_ascending_perm (levels : list num) :
  Permutation (sort_ascending levels) levels.
Proof.
  unfold sort_ascending.
  assert (G : forall acc,
            Permutation (fold_left (fun sorted x => sort_insert x sorted) levels acc)
                        (levels ++ acc)).
  { induction levels as [| x l IH]; intros acc; cbn [fold_left app];
      [apply Permutation_refl |].
    apply Permutation_trans with (l ++ sort_insert x acc); [apply IH |].
    apply Permutation_trans with (l ++ x :: acc);
      [apply Permutation_app_head, sort_insert_perm |].
    apply Permutation_sym, Permutation_middle. }
  apply Permutation_trans with (levels ++ []); [apply G |].
  rewrite app_nil_r. apply Permutation_refl.
Qed.

Lemma chained_snoc (first : num) (run : list num) (x : num) :
  chained first run -> joins (last (first :: run) NaN) x = true ->
  chained first (run ++ [x]).
Proof.
  revert first. induction run as [| y run IH]; intros first Hc Hj.
  - cbn in *. auto.
  - destruct Hc as [Hy Hc]. cbn [app chained]. split; [exact Hy |].
    apply IH; [exact Hc |].
    change (last (first :: y :: run) NaN) with (last (y :: run) NaN) in Hj. exact Hj.
Qed.

Lemma last_snoc (l : list num) (x : num) : last (l ++ [x]) NaN = x.
Proof. apply last_last. Qed.

(** The loop of [clusterLevels] closes a cluster exactly where a level does
    not join the level before it, and averages each cluster. *)
Lemma cluster_loop_clusters (rest : list num) :
  forall (first : num) (run : list num),
    chained first run ->
    exists clusters more,
      cluster_loop (last (first :: run) NaN) (first :: run) rest =
        map average ((first :: run ++ more) :: clusters) /\
      concat ((first :: run ++ more) :: clusters) = (first :: run) ++ rest /\
      clustering ((first :: run ++ more) :: clusters).
Proof.
  induction rest as [| x rest IH]; intros first run Hc.
  - exists [], []. rewrite app_nil_r. cbn [cluster_loop map concat].
    rewrite !app_nil_r. split; [reflexivity |]. split; [reflexivity |].
    cbn. auto.
  - cbn [cluster_loop].
    change ((x - last (first :: run) NaN) / last (first :: run) NaN <? Fin 0.02)%js
      with (joins (last (first :: run) NaN) x).
    destruct (joins (last (first :: run) NaN) x) eqn:Ej.
    + destruct (IH first (run ++ [x]) (chained_snoc first run x Hc Ej))
        as [clusters [more [E [Ecat Hcl]]]].
      change (first :: run ++ [x]) with ((first :: run) ++ [x]) in E.
      rewrite last_snoc in E.
      exists clusters, (x :: more).
      replace (run ++ x :: more) with ((run ++ [x]) ++ more)
        by (rewrite <- app_assoc; reflexivity).
      split; [exact E |]. split; [| exact Hcl].
      rewrite Ecat. cbn [app]. rewrite <- app_assoc. reflexivity.
    + destruct (IH x [] I) as [clusters [more [E [Ecat Hcl]]]].
      cbn [last app] in E, Ecat, Hcl.
      exists ((x :: more) :: clusters), [].
      rewrite app_nil_r. cbn [map]. rewrite E. cbn [map].
      split; [reflexivity |]. split.
      * cbn [concat] in *. rewrite Ecat. reflexivity.
      * cbn [clustering]. split; [exact Hc |]. split; [exact Ej | exact Hcl].
Qed.

Lemma clusterLevels_clusters (levels : list num) :
  exists clusters,
    clusterLevels levels = map average clusters /\
    concat clusters = sort_ascending levels /\
    clustering clusters.
Proof.
  unfold clusterLevels. destruct (sort_ascending levels) as [| first rest].
  - exists []. cbn. auto.
  - destruct (cluster_loop_clusters rest first [] I) as [clusters [more [E [Ecat Hcl]]]].
    cbn [last app] in E, Ecat, Hcl.
    exists ((first :: more) :: clusters). auto.
Qed.

(** The clusters of a list are determined by the test. *)
Lemma chained_prefix_unique (run run' : list num) :
  forall (prev : num) (tail tail' : list num),
    run ++ tail = run' ++ tail' ->
    chained prev run -> chained prev run' ->
    match tail with
    | [] => True
    | y :: _ => joins (last (prev :: run) NaN) y = false
    end ->
    match tail' with
    | [] => True
    | y :: _ => joins (last (prev :: run') NaN) y = false
    end ->
    run = run' /\ tail = tail'.
Proof.
  revert run'. induction run as [| x run IH]; intros [| x' run'] prev tail tail' E Hc Hc' Ht Ht'.
  - auto.
  - cbn [app] in E. subst tail. destruct Hc' as [Hj _]. cbn [last] in Ht. congruence.
  - cbn [app] in E. subst tail'. destruct Hc as [Hj _]. cbn [last] in Ht'. congruence.
  - cbn [app] in E. injection E as <- E.
    destruct Hc as [_ Hc]. destruct Hc' as [_ Hc'].
    destruct (IH run' x tail tail' E Hc Hc') as [-> ->]; auto.
Qed.

Lemma clustering_unique (clusters : list (list num)) :
  forall clusters',
    clustering clusters -> clustering clusters' ->
    concat clusters = concat clusters' -> clusters = clusters'.
Proof.
  induction clusters as [| c clusters IH]; intros [| c' clusters'] H H' E.
  - reflexivity.
  - exfalso. destruct H' as [Hc' _]. destruct c'; [contradiction | discriminate].
  - exfalso. destruct H as [Hc _]. destruct c; [contradiction | discriminate].
  - destruct H as [Hc [Hb Hrest]]. destruct H' as [Hc' [Hb' Hrest']].
    destruct c as [| first run]; [contradiction |].
    destruct c' as [| first' run']; [contradiction |].
    cbn [concat app] in E. injection E as <- E.
    assert (Ht : match concat clusters with
                 | [] => True
                 | y :: _ => joins (last (first :: run) NaN) y = false
                 end).
    { destruct clusters as [| [| y c2] clusters2]; cbn [concat app]; auto.
      destruct Hrest as [F _]. contradiction. }
    assert (Ht' : match concat clusters' with
                  | [] => True
                  | y :: _ => joins (last (first :: run') NaN) y = false
                  end).
    { destruct clusters' as [| [| y c2] clusters2]; cbn [concat app]; auto.
      destruct Hrest' as [F _]. contradiction. }
    destruct (chained_prefix_unique run run' first _ _ E Hc Hc' Ht Ht') as [-> E'].
    f_equal. apply IH; assumption.
Qed.

(** C9, as the code has it. Two positive raw levels less than 2% apart
    (relative to the lower one) merge into their average, and two levels
    further apart stay distinct. Of the clusters, which come out in
    ascending order, the function returns the first three support clusters
    (the lowest) and the last three resistance clusters (the highest): at
    most three each, and no cluster left out lies below a returned support
    or above a returned resistance. For every list of raw levels, the
    clusters are the averages of the one division of the ascending list
    into runs in which every level passes the 2% test of the loop against
    the level before it, and which end where the next level fails it. *)
Theorem C9_clusters_and_selection (a b : Q) (ohlcData : list OHLC)
    (lookback : positive) :
  (0 < a -> a <= b ->
   ((b - a) / a < 0.02 ->
    same_series (clusterLevels [Fin a; Fin b]) [Fin ((a + b) / 2)] /\
    same_series (clusterLevels [Fin b; Fin a]) [Fin ((a + b) / 2)]) /\
   (0.02 <= (b - a) / a ->
    same_series (clusterLevels [Fin a; Fin b]) [Fin a; Fin b] /\
    same_series (clusterLevels [Fin b; Fin a]) [Fin a; Fin b])) /\
  (Forall finite_bar ohlcData ->
   (Pos.to_nat lookback <= length ohlcData)%nat ->
   let recentData := slice_last (Pos.to_nat lookback) ohlcData in
   let supports :=
     clusterLevels (local_minima (map TechnicalIndicators.low recentData)) in
   let resistances :=
     clusterLevels (local_maxima (map TechnicalIndicators.high recentData)) in
   exists sr,
     calculateSupportResistance ohlcData lookback = Some sr /\
     support sr = firstn 3 supports /\
     resistance sr = skipn (length resistances - 3) resistances /\
     (length (support sr) <= 3)%nat /\
     (length (resistance sr) <= 3)%nat /\
     (forall x y, In x (support sr) -> In y (skipn 3 supports) -> le_num x y) /\
     (forall x y, In x (firstn (length resistances - 3) resistances) ->
                  In y (resistance sr) -> le_num x y)) /\
  (forall levels : list num,
     Permutation (sort_ascending levels) levels /\
     (Forall finite levels -> StronglySorted le_num (sort_ascending levels)) /\
     exists clusters,
       clusterLevels levels = map average clusters /\
       concat clusters = sort_ascending levels /\
       clustering clusters /\
       forall clusters',
         clustering clusters' -> concat clusters' = sort_ascending levels ->
         clusters' = clusters).
Proof.
  split; [apply clusterLevels_pair |].
  split; [| intros levels; split; [apply sort_ascending_perm |];
            split; [intros H; apply sort_ascending_sorted; exact H |];
            destruct (clusterLevels_clusters levels) as [clusters [E [Ecat Hcl]]];
            exists clusters; split; [exact E |]; split; [exact Ecat |];
            split; [exact Hcl |];
            intros clusters' Hcl' Ecat'; apply clustering_unique;
            [exact Hcl' | exact Hcl | rewrite Ecat', Ecat; reflexivity]].
  intros Hfin Hlen recentData supports resistances.
  assert (Hrecent : Forall finite_bar recentData)
    by (apply slice_last_forall; exact Hfin).
  assert (Hs : StronglySorted le_num supports).
  { apply clusterLevels_sorted, local_minima_finite.
    apply Forall_map. eapply Forall_impl; [| exact Hrecent].
    intros d [_ H]. exact H. }
  assert (Hr : StronglySorted le_num resistances).
  { apply clusterLevels_sorted, local_maxima_finite.
    apply Forall_map. eapply Forall_impl; [| exact Hrecent].
    intros d [H _]. exact H. }
  unfold calculateSupportResistance. cbv zeta.
  destruct (Nat.ltb_spec (length ohlcData) (Pos.to_nat lookback)) as [Hlt | _]; [lia |].
  eexists. split; [reflexivity |]. simpl support. simpl resistance.
  fold recentData. fold supports. fold resistances.
  unfold slice, slice_last. simpl skipn at 1. rewrite Nat.sub_0_r.
  split; [reflexivity |]. split; [reflexivity |].
  split; [apply firstn_le_length |].
  split; [rewrite length_skipn; lia |].
  split.
  - apply sorted_app_le. rewrite firstn_skipn. exact Hs.
  - apply sorted_app_le. rewrite firstn_skipn. exact Hr.
Qed.

Lemma C9_clusters_and_selection_witness :
  0 < 100 /\ 100 <= 101 /\ (101 - 100) / 100 < 0.02 /\
  Forall finite_bar dipping_market /\
  (Pos.to_nat 50 <= length dipping_market)%nat /\
  same_series (clusterLevels [Fin 100; Fin 101]) [Fin ((100 + 101) / 2)] /\
  exists sr,
    calculateSupportResistance dipping_market 50 = Some sr /\
    (length (support sr) <= 3)%nat.
Proof.
  assert (H1 : 0 < 100) by reflexivity.
  assert (H2 : 100 <= 101) by (intros H; discriminate H).
  assert (H3 : (101 - 100) / 100 < 0.02) by reflexivity.
  assert (H4 : Forall finite_bar dipping_market).
  { unfold dipping_market. apply Forall_map. apply Forall_forall. intros i _.
    split; [exists 205; reflexivity |].
    simpl. repeat match goal with |- context [if ?c then _ else _] => destruct c end;
      eexists; reflexivity. }
  assert (H5 : (Pos.to_nat 50 <= length dipping_market)%nat) by (vm_compute; lia).
  repeat (split; [assumption |]).
  destruct (C9_clusters_and_selection 100 101 dipping_market 50) as [Hpair [Hsel _]].
  split.
  - apply (Hpair H1 H2). exact H3.
  - destruct (Hsel H4 H5) as [sr [E [_ [_ [L _]]]]].
    exists sr. split; [exact E | exact L].
Defined.

(** C9 as stated fails on the selection. In a market that trades at 200
    and dipped to 10, 50, 80 and 190, the support clusters are those four
    levels, and the function returns 10, 50 and 80: the cluster at 190, the
    nearest to the current price, is left out, and the farthest is kept. *)
Lemma C9_nearest_counterexample :
  let currentPrice := Fin 200 in
  let supports :=
    clusterLevels (local_minima (map TechnicalIndicators.low dipping_market)) in
  last_elem (map close dipping_market) = Some currentPrice /\
  same_series supports (prices_of [10; 50; 80; 190]%Z) /\
  exists sr,
    calculateSupportResistance dipping_market 50 = Some sr /\
    same_series (support sr) (prices_of [10; 50; 80]%Z) /\
    ~ nearest_kept currentPrice (support sr) (skipn 3 supports).
Proof.
  intros currentPrice supports.
  split; [vm_compute; reflexivity |].
  split.
  - vm_compute. repeat constructor.
  - eexists. split; [vm_compute; reflexivity |]. split.
    + repeat constructor.
    + intros H.
      specialize (H (Fin (10 / inject_Z 1)) (Fin (190 / inject_Z 1))).
      assert (Hf : (abs (Fin (10 / inject_Z 1) - currentPrice) <=?
                    abs (Fin (190 / inject_Z 1) - currentPrice))%js = false)
        by (vm_compute; reflexivity).
      rewrite H in Hf; [discriminate | |].
      * left. vm_compute. reflexivity.
      * vm_compute. left. reflexivity.
Qed.

(* ================================================================== *)
(** * Further properties of the indicator library *)

Section IndicatorBounds.

Import TechnicalIndicators2.

Lemma slice_forall {A : Type} (P : A -> Prop) (start stop : nat) (l : list A) :
  Forall P l -> Forall P (slice start stop l).
Proof. intros H. unfold slice. apply firstn_forall, skipn_forall, H. Qed.

Lemma length_nonempty {A : Type} (l : list A) : (0 < length l)%nat -> l <> [].
Proof. destruct l; simpl; [lia | discriminate]. Qed.

(** A rational within the bounds is within them up to the tolerance. *)
Lemma between_within_tolerance (lo hi : Q) (x : num) :
  0 <= lo -> fin_between lo hi x -> within_tolerance lo hi x.
Proof.
  intros Hlo [q [-> [H1 H2]]]. exists q. split; [reflexivity |].
  unfold tolerance. split; lra.
Qed.

(** In exact arithmetic the average of a window lies between its prices. *)
Lemma calculateSMA_between (lo hi : Q) (prices : list num)
    (period : positive) (sma : list num) :
  Forall (fin_between lo hi) prices ->
  calculateSMA prices period = Some sma ->
  Forall (fin_between lo hi) sma.
Proof.
  intros Hb H. pose proof (Pos2Nat.is_pos period) as Hpos.
  unfold calculateSMA in H. cbv zeta in H.
  destruct (Nat.ltb_spec (length prices) (Pos.to_nat period)) as [Hlt | Hle];
    [discriminate |].
  injection H as <-. apply Forall_map, Forall_forall.
  intros i Hi. unfold range in Hi. apply in_seq in Hi.
  assert (Hw : length (slice (i + 1 - Pos.to_nat period) (i + 1) prices)
               = Pos.to_nat period) by (rewrite slice_length; lia).
  rewrite <- Hw at 2.
  apply (average_between lo hi).
  - apply length_nonempty. lia.
  - apply slice_forall. exact Hb.
Qed.

(** X1. If every price lies in [[lo, hi]], with [0 <= lo], every value of
    the simple moving average lies in [[lo, hi]] up to a relative tolerance
    of one part in 10^9. The tolerance is for the rounding of the sum: the
    average of equal prices can differ from them in the last digit. *)
Theorem X1_sma_within_price_bounds (lo hi : Q) (prices : list num)
    (period : positive) (sma : list num) :
  0 <= lo ->
  Forall (fin_between lo hi) prices ->
  calculateSMA prices period = Some sma ->
  Forall (within_tolerance lo hi) sma.
Proof.
  intros Hlo Hb H.
  eapply Forall_impl; [| apply (calculateSMA_between lo hi prices period sma Hb H)].
  intros x Hx. apply between_within_tolerance; assumption.
Qed.

Lemma X1_sma_within_price_bounds_witness :
  0 <= 10 /\
  Forall (fin_between 10 18) (prices_of [10; 12; 14; 16; 18]%Z) /\
  exists sma,
    calculateSMA (prices_of [10; 12; 14; 16; 18]%Z) 3 = Some sma /\
    Forall (within_tolerance 10 18) sma.
Proof.
  assert (Hlo : 0 <= 10) by discriminate.
  assert (Hb : Forall (fin_between 10 18) (prices_of [10; 12; 14; 16; 18]%Z)).
  { repeat constructor; eexists; (split; [reflexivity |]); split;
      apply Qle_bool_iff; reflexivity. }
  split; [exact Hlo |]. split; [exact Hb |].
  eexists. split; [vm_compute; reflexivity |].
  apply (X1_sma_within_price_bounds 10 18 (prices_of [10; 12; 14; 16; 18]%Z) 3).
  - exact Hlo.
  - exact Hb.
  - vm_compute. reflexivity.
Defined.

Lemma ema_step_between (lo hi k x prev : Q) :
  0 <= k <= 1 -> lo <= x <= hi -> lo <= prev <= hi ->
  lo <= x * k + prev * (1 + - k) <= hi.
Proof. intros Hk Hx Hp. split; nra. Qed.

Lemma ema_loop_between (lo hi k prev : Q) (rest : list num) :
  0 <= k <= 1 -> lo <= prev <= hi ->
  Forall (fin_between lo hi) rest ->
  Forall (fin_between lo hi) (ema_loop (Fin k) (Fin prev) rest).
Proof.
  intros Hk Hp H. revert prev Hp.
  induction H as [| x rest [q [-> Hq]] _ IH]; intros prev Hp; cbn [ema_loop].
  - constructor.
  - unfold sub, neg, mul, add. constructor.
    + eexists. split; [reflexivity |]. apply ema_step_between; assumption.
    + apply IH. apply ema_step_between; assumption.
Qed.

Lemma smoothing_factor (n : nat) :
  (0 < n)%nat ->
  exists k, (Fin 2 / (of_nat n + Fin 1))%js = Fin k /\ 0 <= k <= 1.
Proof.
  intros Hn. pose proof (of_nat_pos n Hn) as Hp.
  assert (H1 : 1 <= inject_Z (Z.of_nat n)).
  { assert (Hz : (1 <= Z.of_nat n)%Z) by lia.
    rewrite Zle_Qle in Hz. exact Hz. }
  unfold of_nat, add. rewrite div_fin by lra.
  eexists. split; [reflexivity |]. split.
  - apply Qle_shift_div_l; lra.
  - apply Qle_shift_div_r; lra.
Qed.

(** In exact arithmetic each value of the recurrence lies between the
    prices. *)
Lemma calculateEMA_between (lo hi : Q) (prices : list num)
    (period : positive) (ema : list num) :
  Forall (fin_between lo hi) prices ->
  calculateEMA prices period = Some ema ->
  Forall (fin_between lo hi) ema.
Proof.
  intros Hb H. unfold calculateEMA in H. cbv zeta in H.
  destruct (length prices <? Pos.to_nat period)%nat; [discriminate |].
  destruct prices as [| first rest]; [discriminate |].
  destruct (smoothing_factor (Pos.to_nat period) (Pos2Nat.is_pos period))
    as [k [Ek Hk]].
  rewrite Ek in H. injection H as <-.
  inversion Hb as [| ? ? [q [-> Hq]] Hrest]; subst.
  constructor.
  - exists q. split; [reflexivity | exact Hq].
  - apply ema_loop_between; assumption.
Qed.

(** X2. If every price lies in [[lo, hi]], with [0 <= lo], every value of
    the exponential moving average lies in [[lo, hi]] up to a relative
    tolerance of one part in 10^9. The tolerance is for the rounding of the
    recurrence: the average of equal prices can differ from them in the
    last digit. *)
Theorem X2_ema_within_price_bounds (lo hi : Q) (prices : list num)
    (period : positive) (ema : list num) :
  0 <= lo ->
  Forall (fin_between lo hi) prices ->
  calculateEMA prices period = Some ema ->
  Forall (within_tolerance lo hi) ema.
Proof.
  intros Hlo Hb H.
  eapply Forall_impl; [| apply (calculateEMA_between lo hi prices period ema Hb H)].
  intros x Hx. apply between_within_tolerance; assumption.
Qed.

Lemma X2_ema_within_price_bounds_witness :
  0 <= 10 /\
  Forall (fin_between 10 18) (prices_of [10; 12; 14; 16; 18]%Z) /\
  exists ema,
    calculateEMA (prices_of [10; 12; 14; 16; 18]%Z) 3 = Some ema /\
    Forall (within_tolerance 10 18) ema.
Proof.
  assert (Hlo : 0 <= 10) by discriminate.
  assert (Hb : Forall (fin_between 10 18) (prices_of [10; 12; 14; 16; 18]%Z)).
  { repeat constructor; eexists; (split; [reflexivity |]); split;
      apply Qle_bool_iff; reflexivity. }
  split; [exact Hlo |]. split; [exact Hb |].
  eexists. split; [vm_compute; reflexivity |].
  apply (X2_ema_within_price_bounds 10 18 (prices_of [10; 12; 14; 16; 18]%Z) 3).
  - exact Hlo.
  - exact Hb.
  - vm_compute. reflexivity.
Defined.

(** X3. On rational prices, a series of at least [period + 1] prices has
    an RSI, and every RSI value is a number within [[0, 100]]; a shorter
    series has none. *)
Theorem X3_rsi_within_0_100 (prices : list num) (period : positive) :
  Forall finite prices ->
  ((length prices < Pos.to_nat period + 1)%nat -> calculateRSI prices period = None) /\
  ((Pos.to_nat period + 1 <= length prices)%nat ->
   exists rsi, calculateRSI prices period = Some rsi /\
               Forall (fin_between 0 100) rsi).
Proof.
  intros Hfin. split.
  - intros Hlt. unfold calculateRSI. cbv zeta.
    destruct (Nat.ltb_spec (length prices) (Pos.to_nat period + 1)); [reflexivity | lia].
  - intros Hle. destruct (calculateRSI_length prices period Hle) as [rsi [E _]].
    exists rsi. split; [exact E |].
    apply (calculateRSI_bounded prices period rsi Hfin E).
Qed.

Lemma X3_rsi_within_0_100_witness :
  Forall finite (prices_of [10; 12; 11; 13; 12; 14]%Z) /\
  exists rsi,
    calculateRSI (prices_of [10; 12; 11; 13; 12; 14]%Z) 3 = Some rsi /\
    Forall (fin_between 0 100) rsi.
Proof.
  assert (Hf : Forall finite (prices_of [10; 12; 11; 13; 12; 14]%Z))
    by (repeat constructor; eexists; reflexivity).
  split; [exact Hf |].
  apply (X3_rsi_within_0_100 (prices_of [10; 12; 11; 13; 12; 14]%Z) 3 Hf).
  vm_compute. lia.
Defined.

End IndicatorBounds.

Section IndicatorSeries.

Import TechnicalIndicators2.

Lemma adjacent_from_length {A B : Type} (f : A -> A -> B) (prev : A) (rest : list A) :
  length (adjacent_from f prev rest) = length rest.
Proof.
  revert prev. induction rest as [| x rest IH]; intros prev; simpl; [| rewrite IH];
    reflexivity.
Qed.

Lemma adjacent_length {A B : Type} (f : A -> A -> B) (l : list A) :
  length (adjacent f l) = (length l - 1)%nat.
Proof.
  destruct l as [| x rest]; simpl; [reflexivity |].
  rewrite adjacent_from_length. lia.
Qed.

Lemma adjacent_from_forall {A B : Type} (f : A -> A -> B) (P : A -> Prop)
    (R : B -> Prop) (prev : A) (rest : list A) :
  (forall a b, P a -> P b -> R (f a b)) ->
  P prev -> Forall P rest -> Forall R (adjacent_from f prev rest).
Proof.
  intros Hf Hp H. revert prev Hp.
  induction H as [| x rest Hx _ IH]; intros prev Hp; simpl; constructor; auto.
Qed.

Lemma adjacent_forall {A B : Type} (f : A -> A -> B) (P : A -> Prop)
    (R : B -> Prop) (l : list A) :
  (forall a b, P a -> P b -> R (f a b)) ->
  Forall P l -> Forall R (adjacent f l).
Proof.
  intros Hf H. destruct H as [| x rest Hx H]; simpl; [constructor |].
  apply (adjacent_from_forall f P R); assumption.
Qed.

Lemma max_fin (a b : Q) :
  exists q, JsNum.max (Fin a) (Fin b) = Fin q /\ a <= q /\ b <= q.
Proof.
  unfold JsNum.max. destruct (Fin a <? Fin b)%js eqn:E; fin_bool.
  - exists b. split; [reflexivity | lra].
  - exists a. split; [reflexivity | lra].
Qed.

Lemma true_range_nonneg (prev d : OHLC) :
  finite_ohlc prev -> finite_ohlc d -> fin_from 0 (true_range prev d).
Proof.
  intros [_ [_ [c Hc]]] [[h Hh] [[l Hl] _]].
  unfold true_range, max_list. rewrite Hc, Hh, Hl. cbn [fold_left].
  unfold sub, neg, add, abs.
  change (JsNum.max NegInf (Fin (h + - l))) with (Fin (h + - l)).
  destruct (max_fin (h + - l) (Qabs (h + - c))) as [q1 [-> [_ H1]]].
  destruct (max_fin q1 (Qabs (l + - c))) as [q2 [-> [H2 _]]].
  exists q2. split; [reflexivity |].
  pose proof (Qabs_nonneg (h + - c)). lra.
Qed.

Lemma fold_add_nonneg (l : list num) (acc : Q) :
  Forall (fin_from 0) l ->
  exists s, fold_left add l (Fin acc) = Fin s /\ acc <= s.
Proof.
  intros H. revert acc. induction H as [| x l [q [-> Hq]] _ IH]; intros acc.
  - exists acc. split; [reflexivity | lra].
  - destruct (IH (acc + q)) as [s [Es Hs]]. exists s. split; [exact Es | lra].
Qed.

Lemma atr_loop_nonneg (p cur : Q) (rest : list num) :
  0 < p -> 0 <= p - 1 -> 0 <= cur -> Forall (fin_from 0) rest ->
  Forall (fin_from 0) (atr_loop (Fin p) (Fin cur) rest).
Proof.
  intros Hp Hp1 Hc H. revert cur Hc.
  induction H as [| tr rest [q [-> Hq]] _ IH]; intros cur Hc; cbn [atr_loop].
  - constructor.
  - unfold sub, neg, mul, add. rewrite div_fin by lra.
    assert (Hn : 0 <= (cur * (p + - (1)) + q) / p)
      by (apply Qle_shift_div_l; [exact Hp | nra]).
    constructor; [eexists; split; [reflexivity | exact Hn] | apply IH; exact Hn].
Qed.

Lemma atr_loop_length (p cur : num) (rest : list num) :
  length (atr_loop p cur rest) = length rest.
Proof.
  revert cur. induction rest as [| x rest IH]; intros cur; simpl; [| rewrite IH];
    reflexivity.
Qed.

Lemma of_nat_period (period : positive) :
  0 < inject_Z (Z.of_nat (Pos.to_nat period)) /\
  0 <= inject_Z (Z.of_nat (Pos.to_nat period)) - 1.
Proof.
  pose proof (Pos2Nat.is_pos period) as Hpos.
  assert (Hz : (1 <= Z.of_nat (Pos.to_nat period))%Z) by lia.
  rewrite Zle_Qle in Hz. change (inject_Z 1) with 1 in Hz. split; lra.
Qed.

(** X4. The average true range of fewer than [period + 1] bars is [null].
    On at least [period + 1] bars with rational prices it has
    [L - period] values, each a number that is not negative. *)
Theorem X4_atr_length_and_sign (ohlcData : list OHLC) (period : positive) :
  ((length ohlcData < Pos.to_nat period + 1)%nat ->
   calculateATR ohlcData period = None) /\
  (Forall finite_ohlc ohlcData ->
   (Pos.to_nat period + 1 <= length ohlcData)%nat ->
   exists atr,
     calculateATR ohlcData period = Some atr /\
     length atr = (length ohlcData - Pos.to_nat period)%nat /\
     Forall (fin_from 0) atr).
Proof.
  unfold calculateATR. cbv zeta.
  destruct (Nat.ltb_spec (length ohlcData) (Pos.to_nat period + 1)) as [Hlt | Hle].
  - split; [reflexivity | intros; lia].
  - split; [intros; lia |]. intros Hfin _.
    destruct (of_nat_period period) as [Hp Hp1].
    assert (Htr : Forall (fin_from 0) (adjacent true_range ohlcData))
      by (apply (adjacent_forall true_range finite_ohlc); [apply true_range_nonneg | exact Hfin]).
    destruct (fold_add_nonneg (slice 0 (Pos.to_nat period) (adjacent true_range ohlcData)) 0)
      as [s [Es Hs]]; [apply slice_forall; exact Htr |].
    unfold sum, of_nat. rewrite Es, div_fin by lra.
    assert (Hseed : 0 <= s / inject_Z (Z.of_nat (Pos.to_nat period)))
      by (apply Qle_shift_div_l; [exact Hp | lra]).
    eexists. split; [reflexivity |]. split.
    + cbn [length]. rewrite atr_loop_length, length_skipn, adjacent_length. lia.
    + constructor; [eexists; split; [reflexivity | exact Hseed] |].
      apply atr_loop_nonneg; try assumption. apply skipn_forall. exact Htr.
Qed.

Lemma obv_loop_length (start : num) (prev : OHLC) (rest : list OHLC) :
  length (obv_loop start prev rest) = length rest.
Proof.
  revert start prev. induction rest as [| d rest IH]; intros start prev; simpl;
    [| rewrite IH]; reflexivity.
Qed.

Lemma obv_loop_step (rest : list OHLC) :
  forall (start : num) (first : OHLC) (i : nat) (prev d : OHLC) (x : num),
    nth_error (first :: rest) i = Some prev ->
    nth_error (first :: rest) (S i) = Some d ->
    nth_error (start :: obv_loop start first rest) i = Some x ->
    nth_error (start :: obv_loop start first rest) (S i) =
    Some (if (close d >? close prev)%js then (x + or_zero (volume d))%js
          else if (close d <? close prev)%js then (x - or_zero (volume d))%js
          else x).
Proof.
  induction rest as [| d0 rest IH]; intros start first i prev d x Hprev Hd Hx.
  - destruct i; simpl in Hd; [discriminate | destruct i; discriminate].
  - destruct i as [| i].
    + simpl in Hprev, Hd, Hx. injection Hprev as <-. injection Hd as <-.
      injection Hx as <-. reflexivity.
    + cbn [obv_loop]. apply (IH _ d0 i prev d x); assumption.
Qed.

(** X5. On-balance volume is [null] on fewer than two bars. Otherwise it
    has one value per bar, starts at the first bar's volume (0 if that is
    missing), and from one bar to the next it adds the bar's volume when
    the close rose, subtracts it when the close fell and stays when the
    close is unchanged. *)
Theorem X5_obv_follows_closes (ohlcData : list OHLC) :
  ((length ohlcData < 2)%nat -> calculateOBV ohlcData = None) /\
  ((2 <= length ohlcData)%nat ->
   exists obv,
     calculateOBV ohlcData = Some obv /\
     length obv = length ohlcData /\
     nth_error obv 0 =
       option_map (fun d => or_zero (volume d)) (nth_error ohlcData 0) /\
     forall i prev d x,
       nth_error ohlcData i = Some prev ->
       nth_error ohlcData (S i) = Some d ->
       nth_error obv i = Some x ->
       nth_error obv (S i) =
       Some (if (close d >? close prev)%js then (x + or_zero (volume d))%js
             else if (close d <? close prev)%js then (x - or_zero (volume d))%js
             else x)).
Proof.
  unfold calculateOBV.
  destruct (Nat.ltb_spec (length ohlcData) 2) as [Hlt | Hle].
  - split; [reflexivity | intros; lia].
  - split; [intros; lia |]. intros _.
    destruct ohlcData as [| first rest]; [simpl in Hle; lia |].
    eexists. split; [reflexivity |]. split; [| split].
    + simpl. rewrite obv_loop_length. reflexivity.
    + reflexivity.
    + intros i prev d x. apply obv_loop_step.
Qed.

Lemma get_fin_pos (l : list num) (i : nat) :
  Forall fin_pos l -> (i < length l)%nat -> fin_pos (get l i).
Proof.
  intros H Hi. rewrite Forall_forall in H. apply H. unfold get. apply nth_In. exact Hi.
Qed.

(** X6. The rate of change of fewer than [period + 1] prices is [null].
    On at least [period + 1] positive prices it has [L - period] values,
    each a number that is not below -100. *)
Theorem X6_roc_length_and_floor (prices : list num) (period : positive) :
  ((length prices < Pos.to_nat period + 1)%nat -> calculateROC prices period = None) /\
  (Forall fin_pos prices ->
   (Pos.to_nat period + 1 <= length prices)%nat ->
   exists roc,
     calculateROC prices period = Some roc /\
     length roc = (length prices - Pos.to_nat period)%nat /\
     Forall (fin_from (-100)) roc).
Proof.
  unfold calculateROC. cbv zeta.
  destruct (Nat.ltb_spec (length prices) (Pos.to_nat period + 1)) as [Hlt | Hle].
  - split; [reflexivity | intros; lia].
  - split; [intros; lia |]. intros Hpos _.
    eexists. split; [reflexivity |]. split.
    + rewrite length_map, range_length. reflexivity.
    + apply Forall_map, Forall_forall. intros i Hi.
      unfold range in Hi. apply in_seq in Hi.
      destruct (get_fin_pos prices i Hpos) as [b [-> Hb]]; [lia |].
      destruct (get_fin_pos prices (i - Pos.to_nat period) Hpos) as [a [-> Ha]]; [lia |].
      unfold sub, neg, add. rewrite div_fin by lra. unfold mul.
      eexists. split; [reflexivity |].
      assert (H : -1 <= (b + - a) / a)
        by (apply Qle_shift_div_l; [exact Ha | lra]).
      lra.
Qed.

End IndicatorSeries.

Section IndicatorShapes.

Import TechnicalIndicators2.

Lemma X4_atr_length_and_sign_witness :
  Forall finite_ohlc choppy_market /\
  (Pos.to_nat 2 + 1 <= length choppy_market)%nat /\
  exists atr, calculateATR choppy_market 2 = Some atr /\ length atr = 4%nat /\
              Forall (fin_from 0) atr.
Proof.
  assert (Hf : Forall finite_ohlc choppy_market).
  { repeat constructor; eexists; reflexivity. }
  assert (Hl : (Pos.to_nat 2 + 1 <= length choppy_market)%nat) by (vm_compute; lia).
  split; [exact Hf |]. split; [exact Hl |].
  destruct (proj2 (X4_atr_length_and_sign choppy_market 2) Hf Hl) as [atr [E [L B]]].
  exists atr. split; [exact E |]. split; [exact L | exact B].
Defined.

Lemma X5_obv_follows_closes_witness :
  (2 <= length choppy_market)%nat /\
  exists obv, calculateOBV choppy_market = Some obv /\ length obv = 6%nat.
Proof.
  assert (Hl : (2 <= length choppy_market)%nat) by (vm_compute; lia).
  split; [exact Hl |].
  destruct (proj2 (X5_obv_follows_closes choppy_market) Hl) as [obv [E [L _]]].
  exists obv. split; [exact E | exact L].
Defined.

Lemma X6_roc_length_and_floor_witness :
  Forall fin_pos (prices_of [10; 12; 14; 16; 8; 5]%Z) /\
  (Pos.to_nat 2 + 1 <= length (prices_of [10; 12; 14; 16; 8; 5]%Z))%nat /\
  exists roc,
    calculateROC (prices_of [10; 12; 14; 16; 8; 5]%Z) 2 = Some roc /\
    length roc = 4%nat.
Proof.
  assert (Hp : Forall fin_pos (prices_of [10; 12; 14; 16; 8; 5]%Z))
    by (repeat constructor; eexists; (split; [reflexivity | reflexivity])).
  assert (Hl : (Pos.to_nat 2 + 1 <= length (prices_of [10; 12; 14; 16; 8; 5]%Z))%nat)
    by (vm_compute; lia).
  split; [exact Hp |]. split; [exact Hl |].
  destruct (proj2 (X6_roc_length_and_floor (prices_of [10; 12; 14; 16; 8; 5]%Z) 2) Hp Hl)
    as [roc [E [L _]]].
  exists roc. split; [exact E | exact L].
Defined.

Lemma calculateSMA_short (prices : list num) (period : positive) :
  (length prices < Pos.to_nat period)%nat -> calculateSMA prices period = None.
Proof.
  intros H. unfold calculateSMA. cbv zeta.
  destruct (Nat.ltb_spec (length prices) (Pos.to_nat period)); [reflexivity | lia].
Qed.

Lemma calculateEMA_short (prices : list num) (period : positive) :
  (length prices < Pos.to_nat period)%nat -> calculateEMA prices period = None.
Proof.
  intros H. unfold calculateEMA. cbv zeta.
  destruct (Nat.ltb_spec (length prices) (Pos.to_nat period)); [reflexivity | lia].
Qed.

Lemma calculateADX_series (ohlcData : list OHLC) (period : positive) :
  ((length ohlcData < Pos.to_nat period * 2)%nat ->
   calculateADX ohlcData period = None) /\
  ((Pos.to_nat period * 2 <= length ohlcData)%nat ->
   exists r series,
     calculateADX ohlcData period = Some r /\
     adx r = Some series /\
     length series = (length ohlcData - 1)%nat /\
     length (plusDI r) = (length ohlcData - 1)%nat /\
     length (minusDI r) = (length ohlcData - 1)%nat).
Proof.
  pose proof (Pos2Nat.is_pos period) as Hpos.
  unfold calculateADX. cbv zeta.
  destruct (Nat.ltb_spec (length ohlcData) (Pos.to_nat period * 2)) as [Hlt | Hle].
  - split; [reflexivity | intros; lia].
  - split; [intros; lia |]. intros _.
    destruct (calculateEMA_length (adjacent plus_dm ohlcData) period)
      as [sp [Ep [Lp _]]]; [rewrite adjacent_length; lia |].
    destruct (calculateEMA_length (adjacent minus_dm ohlcData) period)
      as [sm [Em [Lm _]]]; [rewrite adjacent_length; lia |].
    destruct (calculateEMA_length (adjacent true_range ohlcData) period)
      as [st [Et [Lt _]]]; [rewrite adjacent_length; lia |].
    rewrite Ep, Em, Et.
    rewrite adjacent_length in Lp, Lm.
    assert (Lpdi : length (directional_index sp st) = (length ohlcData - 1)%nat)
      by (unfold directional_index; rewrite length_map, range_length; lia).
    assert (Lmdi : length (directional_index sm st) = (length ohlcData - 1)%nat)
      by (unfold directional_index; rewrite length_map, range_length; lia).
    destruct (calculateEMA_length
                (dx_of (directional_index sp st) (directional_index sm st)) period)
      as [series [Ea [La _]]].
    { unfold dx_of. rewrite length_map, range_length. lia. }
    exists (mkADX (Some series) (directional_index sp st) (directional_index sm st)).
    exists series. rewrite Ea. split; [reflexivity |]. split; [reflexivity |].
    split; [| split; assumption].
    rewrite La. unfold dx_of. rewrite length_map, range_length. lia.
Qed.

(** X7. The directional index of fewer than [2 * period] bars is [null].
    Otherwise its three series, [plusDI], [minusDI] and [adx], each have
    one value per bar after the first: [L - 1] values, with no warm-up
    removed. *)
Theorem X7_adx_series_lengths (ohlcData : list OHLC) (period : positive) :
  ((length ohlcData < Pos.to_nat period * 2)%nat ->
   calculateADX ohlcData period = None) /\
  ((Pos.to_nat period * 2 <= length ohlcData)%nat ->
   exists r series,
     calculateADX ohlcData period = Some r /\
     adx r = Some series /\
     length series = (length ohlcData - 1)%nat /\
     length (plusDI r) = (length ohlcData - 1)%nat /\
     length (minusDI r) = (length ohlcData - 1)%nat).
Proof. apply calculateADX_series. Qed.

Lemma X7_adx_series_lengths_witness :
  (Pos.to_nat 2 * 2 <= length choppy_market)%nat /\
  exists r series,
    calculateADX choppy_market 2 = Some r /\ adx r = Some series /\
    length series = 5%nat.
Proof.
  assert (Hl : (Pos.to_nat 2 * 2 <= length choppy_market)%nat) by (vm_compute; lia).
  split; [exact Hl |].
  destruct (proj2 (X7_adx_series_lengths choppy_market 2) Hl)
    as [r [series [E [A [L _]]]]].
  exists r, series. split; [exact E |]. split; [exact A | exact L].
Defined.

Lemma calculateDonchian_length (data : list OHLC) (p : nat) :
  length (calculateDonchian data p) = (length data - (p - 1))%nat.
Proof. unfold calculateDonchian. rewrite length_map, range_length. reflexivity. Qed.

(** X8. The Ichimoku cloud of fewer than 52 bars is [null]. Otherwise the
    conversion line has [L - 8] values, the base line and the leading span
    A [L - 25], the leading span B [L - 51] and the lagging span [L - 26];
    span A pairs the two lines by their own index, and the lagging span is
    the closes of all but the last 26 bars. *)
Theorem X8_ichimoku_series_lengths (ohlcData : list OHLC) :
  ((length ohlcData < 52)%nat -> calculateIchimoku ohlcData = None) /\
  ((52 <= length ohlcData)%nat ->
   exists c,
     calculateIchimoku ohlcData = Some c /\
     length (tenkanSen c) = (length ohlcData - 8)%nat /\
     length (kijunSen c) = (length ohlcData - 25)%nat /\
     length (senkouSpanA c) = (length ohlcData - 25)%nat /\
     length (senkouSpanB c) = (length ohlcData - 51)%nat /\
     length (chikouSpan c) = (length ohlcData - 26)%nat /\
     (forall i, (i < length ohlcData - 25)%nat ->
        get (senkouSpanA c) i =
        ((get (tenkanSen c) i + get (kijunSen c) i) / Fin 2)%js) /\
     (forall i, (i < length ohlcData - 26)%nat ->
        nth_error (chikouSpan c) i = option_map close (nth_error ohlcData i))).
Proof.
  unfold calculateIchimoku. cbv zeta.
  destruct (Nat.ltb_spec (length ohlcData) 52) as [Hlt | Hle].
  - split; [reflexivity | intros; lia].
  - split; [intros; lia |]. intros _.
    eexists. split; [reflexivity |]. cbn [tenkanSen kijunSen senkouSpanA senkouSpanB chikouSpan].
    rewrite !length_map, !range_length, !calculateDonchian_length, length_firstn.
    repeat split; try lia.
    + intros i Hi. unfold get at 1. rewrite nth_map_range; [reflexivity |].
      rewrite ?calculateDonchian_length. lia.
    + intros i Hi. rewrite nth_error_map, nth_error_firstn.
      destruct (Nat.ltb_spec i (length ohlcData - 26)); [reflexivity | lia].
Qed.

Lemma X8_ichimoku_series_lengths_witness :
  (52 <= length (rising_market 60))%nat /\
  exists c, calculateIchimoku (rising_market 60) = Some c /\
            length (senkouSpanB c) = 9%nat.
Proof.
  assert (Hl : (52 <= length (rising_market 60))%nat) by (vm_compute; lia).
  split; [exact Hl |].
  destruct (proj2 (X8_ichimoku_series_lengths (rising_market 60)) Hl)
    as [c [E [_ [_ [_ [L _]]]]]].
  exists c. split; [exact E |]. rewrite L. vm_compute. reflexivity.
Defined.

End IndicatorShapes.

Section StochasticAndClusters.

(** X9. The stochastic oscillator of fewer than [period] bars is [null].
    Otherwise it returns an object; its [k] line is [null] when fewer than
    [smoothK] raw values exist and has [L - period - smoothK + 2] values
    otherwise, and its [d] line is [null] when [k] is [null] or shorter
    than [smoothD] and has [smoothD - 1] values fewer than [k] otherwise. *)
Theorem X9_stochastic_shape (ohlcData : list OHLC) (period smoothK smoothD : positive) :
  let raw := (length ohlcData - Pos.to_nat period + 1)%nat in
  ((length ohlcData < Pos.to_nat period)%nat ->
   calculateStochastic ohlcData period smoothK smoothD = None) /\
  ((Pos.to_nat period <= length ohlcData)%nat ->
   exists st,
     calculateStochastic ohlcData period smoothK smoothD = Some st /\
     ((raw < Pos.to_nat smoothK)%nat -> k st = None /\ d st = None) /\
     ((Pos.to_nat smoothK <= raw)%nat ->
      exists ks,
        k st = Some ks /\
        length ks = (raw - Pos.to_nat smoothK + 1)%nat /\
        ((length ks < Pos.to_nat smoothD)%nat -> d st = None) /\
        ((Pos.to_nat smoothD <= length ks)%nat ->
         exists ds, d st = Some ds /\
                    length ds = (length ks - Pos.to_nat smoothD + 1)%nat))).
Proof.
  intros raw. pose proof (Pos2Nat.is_pos period) as Hpos.
  unfold calculateStochastic. cbv zeta.
  destruct (Nat.ltb_spec (length ohlcData) (Pos.to_nat period)) as [Hlt | Hle].
  - split; [reflexivity | intros; lia].
  - split; [intros; lia |]. intros _.
    set (percentK := map _ (range (Pos.to_nat period - 1) (length ohlcData))).
    assert (Lk : length percentK = raw)
      by (subst percentK raw; rewrite length_map, range_length; lia).
    eexists. split; [reflexivity |]. cbn [k d]. split.
    + intros Hshort. rewrite calculateSMA_short by lia. split; reflexivity.
    + intros Hlong.
      destruct (calculateSMA_series percentK smoothK) as [ks [Ek [Lks _]]]; [lia |].
      rewrite Ek. exists ks. split; [reflexivity |]. split; [lia |]. split.
      * intros Hs. apply calculateSMA_short. exact Hs.
      * intros Hl.
        destruct (calculateSMA_series ks smoothD Hl) as [ds [Ed [Lds _]]].
        exists ds. split; assumption.
Qed.

Lemma X9_stochastic_shape_witness :
  (Pos.to_nat 14 <= length (rising_market 16))%nat /\
  exists st ks,
    calculateStochastic (rising_market 16) 14 3 3 = Some st /\
    k st = Some ks /\ length ks = 1%nat /\ d st = None.
Proof.
  assert (Hl : (Pos.to_nat 14 <= length (rising_market 16))%nat) by (vm_compute; lia).
  split; [exact Hl |].
  destruct (proj2 (X9_stochastic_shape (rising_market 16) 14 3 3) Hl)
    as [st [E [_ Hk]]].
  destruct Hk as [ks [Ek [Lk [Hd _]]]]; [vm_compute; lia |].
  exists st, ks. split; [exact E |]. split; [exact Ek |].
  assert (L1 : length ks = 1%nat) by (rewrite Lk; vm_compute; reflexivity).
  split; [exact L1 |]. apply Hd. rewrite L1. vm_compute. lia.
Defined.

Lemma sort_insert_forall (P : num -> Prop) (x : num) (l : list num) :
  P x -> Forall P l -> Forall P (sort_insert x l).
Proof.
  intros Hx Hl. induction Hl as [| y l Hy Hl IH]; cbn [sort_insert].
  - constructor; [exact Hx | constructor].
  - destruct (y - x >? Fin 0)%js.
    + constructor; [exact Hx |]. constructor; assumption.
    + constructor; assumption.
Qed.

Lemma sort_insert_length (x : num) (l : list num) :
  length (sort_insert x l) = S (length l).
Proof.
  induction l as [| y l IH]; cbn [sort_insert]; [reflexivity |].
  destruct (y - x >? Fin 0)%js; simpl; [reflexivity | rewrite IH; reflexivity].
Qed.

Lemma sort_ascending_forall_length (P : num -> Prop) (levels : list num) :
  Forall P levels ->
  Forall P (sort_ascending levels) /\
  length (sort_ascending levels) = length levels.
Proof.
  intros H. unfold sort_ascending.
  assert (G : forall acc, Forall P acc ->
            Forall P (fold_left (fun sorted x => sort_insert x sorted) levels acc) /\
            length (fold_left (fun sorted x => sort_insert x sorted) levels acc)
            = (length levels + length acc)%nat).
  { induction H as [| x l Hx Hl IH]; intros acc Hacc; cbn [fold_left].
    - split; [exact Hacc | reflexivity].
    - destruct (IH (sort_insert x acc)) as [G1 G2];
        [apply sort_insert_forall; assumption |].
      split; [exact G1 |]. rewrite G2, sort_insert_length. simpl. lia. }
  destruct (G [] (Forall_nil _)) as [G1 G2]. split; [exact G1 |].
  rewrite G2. simpl. lia.
Qed.

Lemma cluster_loop_between (lo hi : Q) (rest : list num) :
  forall (prev : num) (cur : list num),
    cur <> [] ->
    Forall (fin_between lo hi) cur ->
    Forall (fin_between lo hi) rest ->
    Forall (fin_between lo hi) (cluster_loop prev cur rest) /\
    (1 <= length (cluster_loop prev cur rest) <= S (length rest))%nat.
Proof.
  induction rest as [| x rest IH]; intros prev cur Hne Hcur Hrest; cbn [cluster_loop].
  - split; [| simpl; lia].
    constructor; [apply average_between; assumption | constructor].
  - inversion Hrest as [| ? ? Hx Hrest']; subst.
    destruct ((x - prev) / prev <? Fin 0.02)%js.
    + destruct (IH x (cur ++ [x])) as [B L]; auto.
      * destruct cur; discriminate.
      * apply Forall_app. split; [exact Hcur |]. constructor; [exact Hx | constructor].
      * split; [exact B |]. simpl. lia.
    + destruct (IH x [x]) as [B L]; auto.
      * discriminate.
      * split; [| simpl; lia].
        constructor; [apply average_between; assumption | exact B].
Qed.

(** X10. Clustering rational levels that lie in [[lo, hi]] gives clusters
    that come out in ascending order, at least one and at most as many as
    there are levels; no level gives no cluster. With [0 <= lo] the
    clusters lie in [[lo, hi]] up to a relative tolerance of one part in
    10^9, which is for the rounding of the sum of a cluster. *)
Theorem X10_clusters_bounded_and_ordered (lo hi : Q) (levels : list num) :
  Forall (fin_between lo hi) levels ->
  (0 <= lo -> Forall (within_tolerance lo hi) (clusterLevels levels)) /\
  StronglySorted le_num (clusterLevels levels) /\
  (length (clusterLevels levels) <= length levels)%nat /\
  (clusterLevels levels = [] <-> levels = []).
Proof.
  intros H.
  assert (Hfin : Forall finite levels).
  { eapply Forall_impl; [| exact H]. intros x [q [-> _]]. exists q. reflexivity. }
  split; [| split; [apply clusterLevels_sorted; exact Hfin |]].
  - intros Hlo.
    apply (Forall_impl (within_tolerance lo hi)
             (fun x => between_within_tolerance lo hi x Hlo)).
    unfold clusterLevels.
    destruct (sort_ascending_forall_length _ levels H) as [Hs _].
    destruct (sort_ascending levels) as [| first rest]; [constructor |].
    inversion Hs; subst.
    apply cluster_loop_between; auto. discriminate.
  - unfold clusterLevels.
    destruct (sort_ascending_forall_length _ levels H) as [Hs Hl].
    destruct (sort_ascending levels) as [| first rest].
    + destruct levels; [| discriminate Hl]. split; [simpl; lia | tauto].
    + inversion Hs; subst.
      destruct (cluster_loop_between lo hi rest first [first]) as [_ L]; auto.
      { discriminate. }
      simpl in Hl. split; [lia |]. split.
      * intros E. rewrite E in L. simpl in L. lia.
      * intros E. rewrite E in Hl. discriminate.
Qed.

Lemma X10_clusters_bounded_and_ordered_witness :
  Forall (fin_between 100 300) (prices_of [100; 300; 101; 200; 102]%Z) /\
  (length (clusterLevels (prices_of [100; 300; 101; 200; 102]%Z)) <= 5)%nat.
Proof.
  assert (Hb : Forall (fin_between 100 300) (prices_of [100; 300; 101; 200; 102]%Z)).
  { repeat constructor; eexists; (split; [reflexivity |]); split;
      apply Qle_bool_iff; reflexivity. }
  split; [exact Hb |].
  apply (X10_clusters_bounded_and_ordered 100 300
           (prices_of [100; 300; 101; 200; 102]%Z) Hb).
Defined.

End StochasticAndClusters.

(* ================================================================== *)
(** * Further properties of the prediction engine *)

Section ScorerExceptions.

Lemma last_elem_none {A : Type} (l : list A) : last_elem l = None <-> l = [].
Proof.
  unfold last_elem. rewrite nth_error_None. destruct l; simpl.
  - split; [reflexivity | lia].
  - split; [lia | discriminate].
Qed.

Lemma toFixed_some (x : num) : toFixed (Some x) = Ok x.
Proof. reflexivity. Qed.

Ltac ok_branches :=
  repeat match goal with
    | |- context [if ?c then _ else _] => destruct c
    end;
  simpl; eauto.

Lemma momentum_rsi_ok (ind : Indicators) (a : Acc) :
  exists a', momentum_rsi ind a = Ok a'.
Proof.
  unfold momentum_rsi. destruct (rsi ind) as [series |]; [| eauto].
  cbv zeta. destruct (last_elem series) as [x |].
  - ok_branches.
  - simpl. eauto.
Qed.

Lemma momentum_stochastic_ok (ind : Indicators) (a : Acc) :
  exists a', momentum_stochastic ind a = Ok a'.
Proof.
  unfold momentum_stochastic.
  destruct (stochastic ind) as [st |]; [| eauto].
  destruct (k st) as [series |]; [| eauto].
  cbv zeta. destruct (last_elem series) as [x |].
  - ok_branches.
  - simpl. eauto.
Qed.

Lemma analyzeMomentum_ok (ind : Indicators) : exists s, analyzeMomentum ind = Ok s.
Proof.
  unfold analyzeMomentum.
  destruct (momentum_rsi_ok ind start) as [a ->]. cbn [bind].
  destruct (momentum_stochastic_ok ind (momentum_macd ind a)) as [a' ->].
  cbn [bind]. eauto.
Qed.

Lemma analyzeVolume_ok (ind : Indicators) : exists s, analyzeVolume ind = Ok s.
Proof. unfold analyzeVolume. eauto. Qed.

(** X11. The momentum scorer and the volume scorer return a score on
    every indicator snapshot: on an empty series their comparisons with
    [undefined] are all false, so nothing is formatted. *)
Theorem X11_momentum_and_volume_never_throw (ind : Indicators) :
  (exists s, analyzeMomentum ind = Ok s) /\
  (exists s, analyzeVolume ind = Ok s).
Proof. split; [apply analyzeMomentum_ok | apply analyzeVolume_ok]. Qed.

Lemma trend_adx_throws_iff (ind : Indicators) (a : Acc) :
  trend_adx ind a = Throw TypeError <-> empty_adx ind.
Proof.
  unfold trend_adx, empty_adx.
  destruct (adx_ ind) as [x |].
  - destruct (adx x) as [series |] eqn:Ea.
    + cbv zeta. destruct (last_elem series) as [v |] eqn:E.
      * split.
        -- repeat match goal with
             | |- context [if ?c then _ else _] => destruct c
             end; simpl; discriminate.
        -- intros [x' [Hx Hs]]. injection Hx as <-. rewrite Ea in Hs.
           injection Hs as ->. discriminate E.
      * apply last_elem_none in E. subst series. simpl. split; eauto.
    + split; [discriminate |]. intros [x' [Hx Hs]]. injection Hx as <-.
      rewrite Ea in Hs. discriminate.
  - split; [discriminate |]. intros [x' [Hx _]]. discriminate.
Qed.

Lemma volatility_level_throws_iff (ind : Indicators) (a : Acc) :
  volatility_level ind a = Throw TypeError <-> empty_volatility ind.
Proof.
  unfold volatility_level, empty_volatility.
  destruct (PredictionEngine.volatility ind) as [series |].
  - cbv zeta. destruct (last_elem series) as [v |] eqn:E.
    + split.
      * repeat match goal with
          | |- context [if ?c then _ else _] => destruct c
          end; simpl; discriminate.
      * intros H. injection H as ->. discriminate E.
    + apply last_elem_none in E. subst series. simpl. split; eauto.
  - split; discriminate.
Qed.

Lemma nearest_some (levels : list num) (price : num) :
  levels <> [] -> exists v, nearest levels price = Some v.
Proof.
  intros Hne. unfold nearest.
  destruct levels as [| first rest]; [congruence |].
  cbn [nth_error].
  assert (G : forall l v, exists v',
            fold_left (fun prev curr =>
                         if (abs (curr - price) <? abs (num_of prev - price))%js
                         then Some curr else prev) l (Some v) = Some v').
  { induction l as [| c l IH]; intros v; cbn [fold_left]; [eauto |].
    destruct (abs (c - price) <? abs (num_of (Some v) - price))%js; apply IH. }
  apply G.
Qed.

Lemma analyzeSupportResistance_ok (ind : Indicators) (price : num) :
  ~ empty_levels ind -> exists s, analyzeSupportResistance ind price = Ok s.
Proof.
  intros Hne. unfold analyzeSupportResistance.
  destruct (supportResistance ind) as [sr |] eqn:E; [| simpl; eauto].
  assert (Hs : support sr <> []) by (intros H; apply Hne; exists sr; auto).
  assert (Hr : resistance sr <> []) by (intros H; apply Hne; exists sr; auto).
  destruct (nearest_some (support sr) price Hs) as [vs ->].
  destruct (nearest_some (resistance sr) price Hr) as [vr ->].
  repeat match goal with
    | |- context [if ?c then _ else _] => destruct c
    end; simpl; eauto.
Qed.

Lemma scorers_throw_iff (ind : Indicators) (price : num) :
  (analyzeTrend ind price = Throw TypeError <-> empty_adx ind) /\
  (analyzeVolatility ind = Throw TypeError <-> empty_volatility ind) /\
  (analyzeSupportResistance ind price = Throw TypeError <-> empty_levels ind).
Proof.
  split; [| split].
  - rewrite <- (trend_adx_throws_iff ind (trend_moving_averages ind price start)).
    unfold analyzeTrend.
    destruct (trend_adx ind (trend_moving_averages ind price start)) as [a | []];
      simpl; split; try discriminate; reflexivity.
  - rewrite <- (volatility_level_throws_iff ind start).
    unfold analyzeVolatility.
    destruct (volatility_level ind start) as [r | []];
      simpl; split; try discriminate; reflexivity.
  - split.
    + intros H. destruct (supportResistance ind) as [sr |] eqn:E.
      * destruct (support sr) eqn:Es; [exists sr; auto |].
        destruct (resistance sr) eqn:Er; [exists sr; auto |].
        assert (Hne : ~ empty_levels ind).
        { intros [sr' [E' [H' | H']]]; rewrite E in E'; injection E' as <-;
            congruence. }
        destruct (analyzeSupportResistance_ok ind price Hne) as [s Hs].
        congruence.
      * unfold analyzeSupportResistance in H. rewrite E in H. discriminate.
    + intros [sr [E H]]. apply (analyzeSupportResistance_throws ind price sr E H).
Qed.

(** X12. Each scorer that can throw does so on exactly one kind of
    snapshot: the trend scorer when the ADX series is an empty array, the
    volatility scorer when the volatility series is an empty array, the
    support and resistance scorer when a level list is empty. The only
    exception is a [TypeError]. *)
Theorem X12_scorers_throw_exactly_on_empty_series (ind : Indicators) (price : num) :
  (analyzeTrend ind price = Throw TypeError <-> empty_adx ind) /\
  (analyzeVolatility ind = Throw TypeError <-> empty_volatility ind) /\
  (analyzeSupportResistance ind price = Throw TypeError <-> empty_levels ind).
Proof. apply scorers_throw_iff. Qed.

Lemma generatePrediction_outcomes (db : DatabaseManager.DB) (now : Z)
    (cid : string) (ind : Indicators) (price : num) :
  generatePrediction db now cid None = Ok (None, db) /\
  (generatePrediction db now cid (Some (mkAnalysis ind price)) = Throw TypeError <->
   empty_adx ind \/ empty_volatility ind \/ empty_levels ind) /\
  (~ (empty_adx ind \/ empty_volatility ind \/ empty_levels ind) ->
   exists p,
     generatePrediction db now cid (Some (mkAnalysis ind price)) =
     Ok (Some p, savePredictionForTracking db now cid (distribution p))).
Proof.
  destruct (analyzeMomentum_ok ind) as [m Hm].
  destruct (analyzeVolume_ok ind) as [vol Hvol].
  destruct (scorers_throw_iff ind price) as [Ht [Hv Hs]].
  split; [reflexivity |].
  unfold generatePrediction. cbv zeta. simpl indicators. simpl currentPrice.
  rewrite Hm, Hvol.
  destruct (analyzeTrend ind price) as [t | []].
  - destruct (analyzeVolatility ind) as [v | []].
    + destruct (analyzeSupportResistance ind price) as [s | []]; cbn [bind].
      * split.
        -- split; [discriminate |].
           intros [H | [H | H]]; [apply Ht in H | apply Hv in H | apply Hs in H];
             discriminate.
        -- intros _. eexists (mkPrediction _ _ _ _ _). reflexivity.
      * split.
        -- split; [intros _; right; right; apply Hs; reflexivity | reflexivity].
        -- intros H. exfalso. apply H. right. right. apply Hs. reflexivity.
    + cbn [bind]. split.
      * split; [intros _; right; left; apply Hv; reflexivity | reflexivity].
      * intros H. exfalso. apply H. right. left. apply Hv. reflexivity.
  - cbn [bind]. split.
    + split; [intros _; left; apply Ht; reflexivity | reflexivity].
    + intros H. exfalso. apply H. left. apply Ht. reflexivity.
Qed.

(** X13. Given an analysis, [generatePrediction] throws exactly when one
    of the three scorers does, and otherwise returns a prediction; given
    no analysis it returns [null] and leaves the database as it is. *)
Theorem X13_generatePrediction_failure_set (db : DatabaseManager.DB) (now : Z)
    (cid : string) (ind : Indicators) (price : num) :
  generatePrediction db now cid None = Ok (None, db) /\
  (generatePrediction db now cid (Some (mkAnalysis ind price)) = Throw TypeError <->
   empty_adx ind \/ empty_volatility ind \/ empty_levels ind) /\
  (~ (empty_adx ind \/ empty_volatility ind \/ empty_levels ind) ->
   exists p,
     generatePrediction db now cid (Some (mkAnalysis ind price)) =
     Ok (Some p, savePredictionForTracking db now cid (distribution p))).
Proof. apply generatePrediction_outcomes. Qed.

End ScorerExceptions.

Section ProbabilityModel.

Lemma X13_generatePrediction_failure_set_witness :
  ~ (empty_adx sample_indicators \/ empty_volatility sample_indicators \/
     empty_levels sample_indicators) /\
  exists p,
    generatePrediction (DatabaseManager.mkDB [] [] []) 0 "bitcoin"
      (Some (mkAnalysis sample_indicators (Fin 105))) =
    Ok (Some p, savePredictionForTracking (DatabaseManager.mkDB [] [] []) 0 "bitcoin"
                  (distribution p)).
Proof.
  assert (H : ~ (empty_adx sample_indicators \/ empty_volatility sample_indicators \/
                 empty_levels sample_indicators)).
  { intros [[x [Hx Ha]] | [Hv | [sr [Hs [He | He]]]]].
    - injection Hx as <-. discriminate Ha.
    - discriminate Hv.
    - injection Hs as <-. discriminate He.
    - injection Hs as <-. discriminate He. }
  split; [exact H |].
  apply (X13_generatePrediction_failure_set (DatabaseManager.mkDB [] [] []) 0
           "bitcoin" sample_indicators (Fin 105)).
  exact H.
Defined.

Lemma drift_lower (p c s r w : Q) :
  0 < p -> -1 <= s <= 1 -> 0 <= c -> 0 <= r -> r < w ->
  p * (1 + - (c * w)) <= p * (1 + s * c * r).
Proof.
  intros Hp Hs Hc Hr Hrw.
  assert (H1 : 0 <= c * (w - r)) by (apply Qmult_le_0_compat; lra).
  assert (H3 : 0 <= c * r * (1 + s))
    by (apply Qmult_le_0_compat; [apply Qmult_le_0_compat |]; lra).
  assert (H4 : 0 <= p * (c * (w - r) + c * r * (1 + s)))
    by (apply Qmult_le_0_compat; lra).
  lra.
Qed.

Lemma drift_upper (p c s r w : Q) :
  0 < p -> -1 <= s <= 1 -> 0 <= c -> 0 <= r -> r < w ->
  p * (1 + s * c * r) <= p * (1 + c * w).
Proof.
  intros Hp Hs Hc Hr Hrw.
  assert (H1 : 0 <= c * (w - r)) by (apply Qmult_le_0_compat; lra).
  assert (H2 : 0 <= c * r * (1 - s))
    by (apply Qmult_le_0_compat; [apply Qmult_le_0_compat |]; lra).
  assert (H5 : 0 <= p * (c * (w - r) + c * r * (1 - s)))
    by (apply Qmult_le_0_compat; lra).
  lra.
Qed.

(** X14. For a composite score within [[-1, 1]] and a positive price, in
    every regime and on both horizons the most likely price lies inside the
    expected range, the current price lies strictly inside it, and the
    lower end of the range is positive. *)
Theorem X14_most_likely_inside_expected_range (s p : Q) (vs : SignalScore) :
  -1 <= s <= 1 -> 0 < p ->
  let dist := generateProbabilityDistribution (Fin s) vs (Fin p) in
  forall f, f = shortTerm dist \/ f = mediumTerm dist ->
    (range_low (expectedRange f) <=? mostLikely f)%js = true /\
    (mostLikely f <=? range_high (expectedRange f))%js = true /\
    (range_low (expectedRange f) <? Fin p)%js = true /\
    (Fin p <? range_high (expectedRange f))%js = true /\
    (Fin 0 <? range_low (expectedRange f))%js = true.
Proof.
  intros Hs Hp dist f Hf.
  subst dist. unfold generateProbabilityDistribution in Hf.
  destruct vs as [sc sg lvl str]. simpl volatilityLevel in Hf.
  destruct (abs (Fin s) >? Fin 0.5)%js; [| destruct (abs (Fin s) >? Fin 0.25)%js];
    (destruct lvl as [[| | |]|]; destruct Hf as [-> | ->]; simpl;
     repeat split;
     match goal with
     | |- Qle_bool (?p' * (1 + - (?c * ?w))) (?p' * (1 + ?s' * ?c * ?r)) = true =>
         apply Qle_bool_iff; apply (drift_lower p' c s' r w);
         [assumption | assumption | lra | lra | lra]
     | |- Qle_bool (?p' * (1 + ?s' * ?c * ?r)) (?p' * (1 + ?c * ?w)) = true =>
         apply Qle_bool_iff; apply (drift_upper p' c s' r w);
         [assumption | assumption | lra | lra | lra]
     | |- negb (Qle_bool _ _) = true => to_ltb; apply ltb_fin; lra
     end).
Qed.

Lemma X14_most_likely_inside_expected_range_witness :
  -1 <= 0.6 <= 1 /\ 0 < 100 /\
  let dist := generateProbabilityDistribution (Fin 0.6)
                (volatility_score LowVolatility) (Fin 100) in
  (range_low (expectedRange (mediumTerm dist)) <=? mostLikely (mediumTerm dist))%js
  = true.
Proof.
  assert (Hs : -1 <= 0.6 <= 1) by (split; intros H; discriminate H).
  assert (Hp : 0 < 100) by reflexivity.
  split; [exact Hs |]. split; [exact Hp |].
  intros dist.
  apply (X14_most_likely_inside_expected_range 0.6 100
           (volatility_score LowVolatility) Hs Hp (mediumTerm dist)).
  right. reflexivity.
Defined.

End ProbabilityModel.

Section DirectionsAndLabels.

(** X15. The direction of a forecast is decided by the composite score
    alone: bullish above 0.5, slightly bullish in (0.25, 0.5], neutral in
    [-0.25, 0.25], slightly bearish in [-0.5, -0.25), bearish below -0.5,
    and the same on both horizons. For a score within [[-1, 1]] the
    short-term probability is a number within [[50, 100]]. *)
Theorem X15_direction_thresholds_and_probability (s p : Q) (vs : SignalScore) :
  let dist := generateProbabilityDistribution (Fin s) vs (Fin p) in
  let st := shortTerm dist in
  (direction st = "bullish" <-> 0.5 < s) /\
  (direction st = "slightly bullish" <-> 0.25 < s <= 0.5) /\
  (direction st = "neutral" <-> -0.25 <= s <= 0.25) /\
  (direction st = "slightly bearish" <-> -0.5 <= s < -0.25) /\
  (direction st = "bearish" <-> s < -0.5) /\
  direction (mediumTerm dist) = direction st /\
  (-1 <= s <= 1 -> exists q, probability st = Fin q /\ 50 <= q <= 100).
Proof.
  intros dist st. subst st dist. unfold generateProbabilityDistribution.
  destruct vs as [sc sg lvl str]. simpl volatilityLevel.
  assert (Ha : (s < 0 /\ Qabs s == - s) \/ (0 <= s /\ Qabs s == s)).
  { destruct (Qlt_le_dec s 0) as [Hn | Hp0].
    - left. split; [exact Hn |]. apply Qabs_neg. lra.
    - right. split; [exact Hp0 |]. apply Qabs_pos. exact Hp0. }
  simpl abs.
  destruct (Fin (Qabs s) >? Fin 0.5)%js eqn:E1;
    [| destruct (Fin (Qabs s) >? Fin 0.25)%js eqn:E2];
    destruct (Fin s >? Fin 0)%js eqn:E3; fin_bool; simpl;
    destruct Ha as [[Hsign Ha] | [Hsign Ha]];
    repeat match goal with
      | |- _ /\ _ => split
      | |- _ <-> _ => split
      | |- (_ = _) -> _ => intro
      | |- (_ /\ _) -> _ => intros [? ?]
      | |- (_ < _) -> _ => intro
      end;
    first [ reflexivity
          | discriminate
          | lra
          | exfalso; lra
          | eexists; split; [reflexivity | lra]
          | eexists; split;
            [reflexivity
            | assert (Hd : Qabs s / 2 == Qabs s * (1 # 2)) by field; lra] ].
Qed.

Lemma X15_direction_thresholds_and_probability_witness :
  -1 <= 0.6 <= 1 /\
  exists q,
    probability (shortTerm (generateProbabilityDistribution (Fin 0.6)
                              (volatility_score LowVolatility) (Fin 100))) = Fin q /\
    50 <= q <= 100.
Proof.
  assert (Hs : -1 <= 0.6 <= 1) by (split; intros H; discriminate H).
  split; [exact Hs |].
  apply (X15_direction_thresholds_and_probability 0.6 100
           (volatility_score LowVolatility)).
  exact Hs.
Defined.

(** X16. The confidence label follows the regime alone: "Medium" in a
    very high regime, "High" in a high one and "Very High" in a medium, low
    or unclassified one, with short-term confidence 50, 70, 85, 95 and 85.
    The labels "Low" and "Very Low" are never produced. *)
Theorem X16_confidence_label_by_regime (c price : num) (vs : SignalScore) :
  let dist := generateProbabilityDistribution c vs price in
  confidenceLevel dist =
    match volatilityLevel vs with
    | Some VeryHighVolatility => "Medium"
    | Some HighVolatility => "High"
    | _ => "Very High"
    end /\
  (confidence (shortTerm dist) =~
     match volatilityLevel vs with
     | Some VeryHighVolatility => Fin 50
     | Some HighVolatility => Fin 70
     | Some LowVolatility => Fin 95
     | _ => Fin 85
     end)%js /\
  confidenceLevel dist <> "Low" /\
  confidenceLevel dist <> "Very Low".
Proof.
  intros dist. subst dist. unfold generateProbabilityDistribution.
  destruct vs as [sc sg lvl str]. simpl volatilityLevel.
  destruct (abs c >? Fin 0.5)%js; [| destruct (abs c >? Fin 0.25)%js];
    (destruct lvl as [[| | |]|]; simpl; repeat split;
     try reflexivity; try discriminate).
Qed.

Lemma classify_score (q : Q) :
  let x := Fin q in
  ((x >? Fin 0.2)%js = true /\ (x <? Fin (-0.2))%js = false /\
   (abs x <=? Fin 0.2)%js = false) \/
  ((x >? Fin 0.2)%js = false /\ (x <? Fin (-0.2))%js = true /\
   (abs x <=? Fin 0.2)%js = false) \/
  ((x >? Fin 0.2)%js = false /\ (x <? Fin (-0.2))%js = false /\
   (abs x <=? Fin 0.2)%js = true).
Proof.
  intros x. subst x. unfold gtb. simpl abs.
  assert (Hle : forall a b, (Fin a <=? Fin b)%js = false <-> b < a).
  { intros a b. simpl. split.
    - intros H. apply Qnot_le_lt. intros Hc. apply Qle_bool_iff in Hc. congruence.
    - intros H. destruct (Qle_bool a b) eqn:E; [| reflexivity].
      apply Qle_bool_iff in E. lra. }
  destruct (Qlt_le_dec 0.2 q) as [H1 | H1].
  - left. repeat split.
    + apply ltb_fin. exact H1.
    + apply ltb_fin_false. lra.
    + apply Hle. rewrite Qabs_pos by lra. exact H1.
  - destruct (Qlt_le_dec q (-0.2)) as [H2 | H2].
    + right. left. repeat split.
      * apply ltb_fin_false. exact H1.
      * apply ltb_fin. exact H2.
      * apply Hle. rewrite Qabs_neg by lra. lra.
    + right. right. repeat split.
      * apply ltb_fin_false. exact H1.
      * apply ltb_fin_false. exact H2.
      * apply leb_fin. apply Qabs_Qle_condition. split; lra.
Qed.

(** X17. In every prediction that [generatePrediction] returns, each of
    the five categories is counted once: the bullish, bearish and neutral
    counts add up to 5. The volatility category is always among the
    neutral ones, so at most four categories are bullish and at most four
    bearish. *)
Theorem X17_signal_counts_partition (db db' : DatabaseManager.DB) (now : Z)
    (cid : string) (a : Analysis) (p : Prediction) :
  generatePrediction db now cid (Some a) = Ok (Some p, db') ->
  (bullishSignals p + bearishSignals p + neutralSignals p = 5)%nat /\
  (1 <= neutralSignals p)%nat /\
  (bullishSignals p <= 4)%nat /\
  (bearishSignals p <= 4)%nat.
Proof.
  unfold generatePrediction. cbv zeta. intros H.
  destruct (analyzeTrend (indicators a) (currentPrice a)) as [t |] eqn:Et;
    [| discriminate H].
  destruct (analyzeMomentum (indicators a)) as [m |] eqn:Em; [| discriminate H].
  destruct (analyzeVolatility (indicators a)) as [v |] eqn:Ev; [| discriminate H].
  destruct (analyzeVolume (indicators a)) as [vol |] eqn:Evol; [| discriminate H].
  destruct (analyzeSupportResistance (indicators a) (currentPrice a)) as [sr |] eqn:Esr;
    [| discriminate H].
  cbn [bind] in H. injection H as <- _.
  cbn [bullishSignals bearishSignals neutralSignals].
  destruct (analyzeTrend_in_range _ _ _ Et) as [qt [Ht _]].
  destruct (analyzeMomentum_in_range _ _ Em) as [qm [Hm _]].
  pose proof (analyzeVolatility_score _ _ Ev) as Hv.
  destruct (analyzeVolume_in_range _ _ Evol) as [qv [Hvol _]].
  destruct (analyzeSupportResistance_in_range _ _ _ Esr) as [qs [Hs _]].
  unfold countBullishSignals, countBearishSignals, countNeutralSignals, categories.
  cbn [trend momentum volatility_ volume_ supportResistance_].
  assert (Ct := classify_score qt). assert (Cm := classify_score qm).
  assert (Cv := classify_score qv). assert (Cs := classify_score qs).
  cbv zeta in Ct, Cm, Cv, Cs. rewrite <- Ht in Ct. rewrite <- Hm in Cm.
  rewrite <- Hvol in Cv. rewrite <- Hs in Cs.
  assert (Cz : (score v >? Fin 0.2)%js = false /\ (score v <? Fin (-0.2))%js = false /\
               (abs (score v) <=? Fin 0.2)%js = true)
    by (rewrite Hv; repeat split; reflexivity).
  destruct Cz as [Z1 [Z2 Z3]].
  cbn [filter]. rewrite Z1, Z2, Z3.
  destruct Ct as [[-> [-> ->]] | [[-> [-> ->]] | [-> [-> ->]]]];
    destruct Cm as [[-> [-> ->]] | [[-> [-> ->]] | [-> [-> ->]]]];
    destruct Cv as [[-> [-> ->]] | [[-> [-> ->]] | [-> [-> ->]]]];
    destruct Cs as [[-> [-> ->]] | [[-> [-> ->]] | [-> [-> ->]]]];
    simpl; lia.
Qed.

Lemma X17_signal_counts_partition_witness :
  exists p db',
    generatePrediction (DatabaseManager.mkDB [] [] []) 0 "bitcoin"
      (Some (mkAnalysis sample_indicators (Fin 105))) = Ok (Some p, db') /\
    (bullishSignals p + bearishSignals p + neutralSignals p = 5)%nat.
Proof.
  eexists (mkPrediction _ _ _ _ _). eexists.
  assert (E : generatePrediction (DatabaseManager.mkDB [] [] []) 0 "bitcoin"
                (Some (mkAnalysis sample_indicators (Fin 105))) = Ok (Some _, _))
    by (vm_compute; reflexivity).
  split; [exact E |].
  apply (X17_signal_counts_partition _ _ _ _ _ _ E).
Defined.

End DirectionsAndLabels.

(* ================================================================== *)
(** * Further properties of the database manager *)

Section Tracking.

Import DatabaseManager.

Lemma fold_max_ge (l : list nat) (acc : nat) :
  (acc <= fold_left Nat.max l acc)%nat /\
  forall x, In x l -> (x <= fold_left Nat.max l acc)%nat.
Proof.
  revert acc. induction l as [| y l IH]; intros acc; simpl.
  - split; [lia | contradiction].
  - destruct (IH (Nat.max acc y)) as [H1 H2]. split; [lia |].
    intros x [<- | Hx]; [lia | apply H2; exact Hx].
Qed.

Lemma next_id_fresh (rows : list PredictionRow) (p : PredictionRow) :
  In p rows -> (p_id p < next_id rows)%nat.
Proof.
  intros H. unfold next_id.
  destruct (fold_max_ge (map p_id rows) 0) as [_ H2].
  specialize (H2 (p_id p) (in_map p_id _ _ H)). lia.
Qed.

Lemma savePrediction_rows (db : DB) (np : NewPrediction) :
  exists r,
    predictions (savePrediction db np) = predictions db ++ [r] /\
    cryptocurrencies (savePrediction db np) = cryptocurrencies db /\
    price_history (savePrediction db np) = price_history db /\
    p_id r = next_id (predictions db) /\
    pending r /\
    crypto_id r = cryptoId np /\ created_at r = createdAt np /\
    DatabaseManager.timeframe r = np_timeframe np /\
    predicted_direction r = Some (DatabaseManager.direction np).
Proof.
  unfold savePrediction. eexists. split; [reflexivity |].
  repeat split; reflexivity.
Qed.

Lemma savePrediction_unique (db : DB) (np : NewPrediction) :
  unique_ids db -> unique_ids (savePrediction db np).
Proof.
  unfold unique_ids. intros H.
  destruct (savePrediction_rows db np) as [r [-> [_ [_ [Hid _]]]]].
  rewrite map_app. simpl.
  apply NoDup_app; [exact H | apply NoDup_cons; [simpl; tauto | apply NoDup_nil] |].
  intros x Hx [Hr | []]. subst x.
  apply in_map_iff in Hx. destruct Hx as [p [Hp Hin]].
  pose proof (next_id_fresh _ _ Hin). lia.
Qed.

Lemma references_asset_iff (db : DB) (cid : string) :
  ForeignKeys.references_asset db cid = true <-> listed db cid.
Proof.
  unfold ForeignKeys.references_asset, listed.
  rewrite existsb_exists, in_map_iff. split.
  - intros [c [Hc E]]. apply String.eqb_eq in E. exists c. auto.
  - intros [c [E Hc]]. exists c. split; [exact Hc | apply String.eqb_eq; auto].
Qed.

Lemma references_asset_false (db : DB) (cid : string) :
  ~ listed db cid -> ForeignKeys.references_asset db cid = false.
Proof.
  intros H. destruct (ForeignKeys.references_asset db cid) eqn:E; [| reflexivity].
  exfalso. apply H, references_asset_iff, E.
Qed.

(** X18. Tracking a forecast for an asset that is not listed stores
    nothing: the first [INSERT] fails on the foreign key and the error is
    caught. For a listed asset it appends exactly two pending rows for the
    asset, the short-term one with horizon 86,400,000 created at the first
    reading of the clock and the medium-term one with horizon 604,800,000
    created at the second, with new and distinct ids, and leaves every other
    table and row as it was. *)
Theorem X18_tracking_appends_two_pending_rows (db : DB) (now1 now2 : Z)
    (cid : string) (dist : Distribution) :
  let db' := ForeignKeys.savePredictionForTracking db now1 now2 cid dist in
  (~ listed db cid -> db' = db) /\
  (listed db cid ->
   exists short medium,
     predictions db' = predictions db ++ [short; medium] /\
     cryptocurrencies db' = cryptocurrencies db /\
     price_history db' = price_history db /\
     pending short /\ pending medium /\
     DatabaseManager.timeframe short = 86400000%Z /\
     DatabaseManager.timeframe medium = 604800000%Z /\
     created_at short = now1 /\ created_at medium = now2 /\
     crypto_id short = cid /\ crypto_id medium = cid /\
     (forall p, In p (predictions db) -> (p_id p < p_id short)%nat) /\
     (p_id short < p_id medium)%nat /\
     (unique_ids db -> unique_ids db') /\
     (now2 = now1 -> db' = savePredictionForTracking db now1 cid dist)).
Proof.
  intros db'. subst db'. unfold ForeignKeys.savePredictionForTracking.
  set (np1 := mkNewPrediction cid now1 "short_term" _ _ _ _ _ _).
  set (np2 := mkNewPrediction cid now2 "medium_term" _ _ _ _ _ _).
  unfold ForeignKeys.savePrediction.
  change (cryptoId np1) with cid. change (cryptoId np2) with cid.
  split.
  - intros Hn. rewrite (references_asset_false db cid Hn). reflexivity.
  - intros Hl.
    assert (Hl1 : ForeignKeys.references_asset db cid = true)
      by (apply references_asset_iff; exact Hl).
    destruct (savePrediction_rows db np1)
      as [r1 [E1 [C1 [H1 [I1 [P1 [K1 [T1 [F1 _]]]]]]]]].
    assert (Hl2 : ForeignKeys.references_asset (savePrediction db np1) cid = true).
    { unfold ForeignKeys.references_asset. rewrite C1. exact Hl1. }
    rewrite Hl1, Hl2.
    destruct (savePrediction_rows (savePrediction db np1) np2)
      as [r2 [E2 [C2 [H2 [I2 [P2 [K2 [T2 [F2 _]]]]]]]]].
    exists r1, r2.
    rewrite E2, E1, C2, C1, H2, H1, <- app_assoc.
    destruct P1 as [? [? [? ?]]]. destruct P2 as [? [? [? ?]]].
    repeat split; try assumption; try reflexivity.
    + intros p Hp. rewrite I1. apply next_id_fresh. exact Hp.
    + rewrite I2, E1. apply next_id_fresh. apply in_or_app. right. left. reflexivity.
    + intros Hu. apply savePrediction_unique, savePrediction_unique, Hu.
    + intros ->. reflexivity.
Qed.

Lemma X18_tracking_appends_two_pending_rows_witness :
  listed single_row_db "bitcoin" /\
  unique_ids single_row_db /\
  unique_ids (ForeignKeys.savePredictionForTracking single_row_db 5 6 "bitcoin"
                (generateProbabilityDistribution (Fin 0.6)
                   (volatility_score LowVolatility) (Fin 100))).
Proof.
  assert (Hl : listed single_row_db "bitcoin") by (left; reflexivity).
  assert (Hu : unique_ids single_row_db)
    by (repeat constructor; intros []).
  split; [exact Hl |]. split; [exact Hu |].
  destruct (proj2 (X18_tracking_appends_two_pending_rows single_row_db 5 6 "bitcoin"
                     (generateProbabilityDistribution (Fin 0.6)
                        (volatility_score LowVolatility) (Fin 100))) Hl)
    as [short [medium H]].
  apply H. exact Hu.
Defined.

End Tracking.

Section Sweep.

Import DatabaseManager.

Lemma evaluate_one_map (db : DB) (now : Z) (row : PredictionRow * option num) :
  evaluate_one db now row =
  mkDB (cryptocurrencies db) (price_history db)
       (map (row_step db now row) (predictions db)).
Proof.
  destruct db as [cs hs ps]. destruct row as [pred cur].
  unfold row_step, evaluate_one, price_at. cbn [price_history cryptocurrencies predictions].
  destruct (fold_left _ hs None) as [ref |].
  - unfold update_prediction. cbn [price_history cryptocurrencies predictions map].
    reflexivity.
  - cbn [predictions]. rewrite map_id; reflexivity.
Qed.

Lemma fold_evaluate_map (rows : list (PredictionRow * option num)) :
  forall (db : DB) (now : Z),
    fold_left (fun db' row => evaluate_one db' now row) rows db =
    mkDB (cryptocurrencies db) (price_history db)
         (map (row_steps db now rows) (predictions db)).
Proof.
  induction rows as [| row rows IH]; intros db now; cbn [fold_left].
  - unfold row_steps. cbn [fold_left]. rewrite map_id. destruct db; reflexivity.
  - rewrite IH, evaluate_one_map. cbn [cryptocurrencies price_history predictions].
    rewrite map_map. reflexivity.
Qed.

(** What one step does to a row: nothing, or the evaluation of that row. *)
Lemma row_step_cases (db : DB) (now : Z) (row : PredictionRow * option num)
    (p : PredictionRow) :
  row_step db now row p = p \/
  (p_id p = p_id (fst row) /\
   price_at db (crypto_id (fst row)) (created_at (fst row)) <> None /\
   forecast_columns (row_step db now row p) = forecast_columns p /\
   evaluated_at (row_step db now row p) = Some now /\
   actual_price (row_step db now row p) = snd row /\
   (was_accurate (row_step db now row p) = Some 0%Z \/
    was_accurate (row_step db now row p) = Some 1%Z) /\
   (actual_direction (row_step db now row p) = Some "up" \/
    actual_direction (row_step db now row p) = Some "down" \/
    actual_direction (row_step db now row p) = Some "neutral")).
Proof.
  destruct row as [pred cur]. unfold row_step, evaluate_one.
  assert (E : price_at (mkDB (cryptocurrencies db) (price_history db) [p])
                (crypto_id pred) (created_at pred) =
              price_at db (crypto_id pred) (created_at pred)) by reflexivity.
  rewrite E. cbn [fst snd].
  destruct (price_at db (crypto_id pred) (created_at pred)) as [ref |];
    [| left; reflexivity].
  unfold update_prediction. cbn [predictions map].
  destruct (Nat.eqb_spec (p_id p) (p_id pred)) as [Hid | Hid]; [| left; reflexivity].
  right. split; [exact Hid |]. split; [discriminate |].
  cbn [evaluated_at actual_price was_accurate actual_direction].
  split; [reflexivity |]. split; [reflexivity |]. split; [reflexivity |]. split.
  - match goal with |- context [if ?c then 1%Z else 0%Z] => destruct c end; auto.
  - repeat match goal with |- context [if ?c then _ else _] => destruct c end; auto.
Qed.

Lemma row_step_hits (db : DB) (now : Z) (row : PredictionRow * option num)
    (p : PredictionRow) :
  p_id p = p_id (fst row) ->
  price_at db (crypto_id (fst row)) (created_at (fst row)) <> None ->
  evaluated_at (row_step db now row p) = Some now /\
  actual_price (row_step db now row p) = snd row.
Proof.
  destruct row as [pred cur]. cbn [fst snd]. intros Hid Hp.
  unfold row_step, evaluate_one.
  assert (E : price_at (mkDB (cryptocurrencies db) (price_history db) [p])
                (crypto_id pred) (created_at pred) =
              price_at db (crypto_id pred) (created_at pred)) by reflexivity.
  rewrite E.
  destruct (price_at db (crypto_id pred) (created_at pred)) as [ref |];
    [| congruence].
  unfold update_prediction. cbn [predictions map].
  rewrite Hid, Nat.eqb_refl. split; reflexivity.
Qed.

Lemma row_step_id (db : DB) (now : Z) (row : PredictionRow * option num)
    (p : PredictionRow) :
  forecast_columns (row_step db now row p) = forecast_columns p.
Proof.
  destruct (row_step_cases db now row p) as [-> | [_ [_ [H _]]]];
    [reflexivity | exact H].
Qed.

Lemma row_steps_columns (db : DB) (now : Z) (rows : list (PredictionRow * option num))
    (p : PredictionRow) :
  forecast_columns (row_steps db now rows p) = forecast_columns p.
Proof.
  revert p. unfold row_steps.
  induction rows as [| row rows IH]; intros p; cbn [fold_left]; [reflexivity |].
  rewrite IH. apply row_step_id.
Qed.

Lemma columns_id (p q : PredictionRow) :
  forecast_columns p = forecast_columns q -> p_id p = p_id q.
Proof. unfold forecast_columns. intros H. injection H. auto. Qed.

(** A row comes out of the loop untouched, or evaluated at [now]. *)
Lemma row_steps_cases (db : DB) (now : Z) (rows : list (PredictionRow * option num))
    (p : PredictionRow) :
  row_steps db now rows p = p \/
  (evaluated_at (row_steps db now rows p) = Some now /\
   (was_accurate (row_steps db now rows p) = Some 0%Z \/
    was_accurate (row_steps db now rows p) = Some 1%Z) /\
   (actual_direction (row_steps db now rows p) = Some "up" \/
    actual_direction (row_steps db now rows p) = Some "down" \/
    actual_direction (row_steps db now rows p) = Some "neutral") /\
   exists row, In row rows /\ p_id (fst row) = p_id p /\
               actual_price (row_steps db now rows p) = snd row /\
               price_at db (crypto_id (fst row)) (created_at (fst row)) <> None).
Proof.
  unfold row_steps.
  induction rows as [| row rows IH] using rev_ind; [left; reflexivity |].
  rewrite fold_left_app. cbn [fold_left].
  set (q := fold_left (fun p' r => row_step db now r p') rows p) in *.
  assert (Hq : p_id q = p_id p)
    by (apply columns_id; apply (row_steps_columns db now rows p)).
  destruct (row_step_cases db now row q) as [E | [Hid [Hp [_ [He [Ha [Hw Hd]]]]]]].
  - rewrite E. destruct IH as [IH | [He [Hw [Hd [r [Hr [Hid [Ha Hp]]]]]]]];
      [left; exact IH |].
    right. repeat split; try assumption.
    exists r. repeat split; try assumption. apply in_or_app. left. exact Hr.
  - right. repeat split; try assumption.
    exists row. repeat split; try assumption; [| congruence].
    apply in_or_app. right. left. reflexivity.
Qed.

Lemma row_steps_miss (db : DB) (now : Z) (rows : list (PredictionRow * option num))
    (p : PredictionRow) :
  (forall row, In row rows -> p_id (fst row) <> p_id p) ->
  row_steps db now rows p = p.
Proof.
  intros H. destruct (row_steps_cases db now rows p) as [E | [_ [_ [_ [r [Hr [Hid _]]]]]]];
    [exact E |].
  exfalso. apply (H r Hr Hid).
Qed.

Lemma select_due_in (db : DB) (now : Z) (row : PredictionRow * option num) :
  In row (select_due db now) ->
  In (fst row) (predictions db) /\ due now (fst row) = true /\
  join_cryptocurrency db (fst row) = Some row.
Proof.
  unfold select_due. intros H. apply in_flat_map in H.
  destruct H as [p [Hp H]].
  destruct (due now p) eqn:Ed; [| contradiction].
  destruct (join_cryptocurrency db p) as [r |] eqn:Ej; [| contradiction].
  destruct H as [<- | []].
  assert (Hf : fst r = p).
  { unfold join_cryptocurrency in Ej.
    destruct (find _ (cryptocurrencies db)); [| discriminate].
    injection Ej as <-. reflexivity. }
  rewrite Hf. auto.
Qed.

Lemma select_due_length (db : DB) (now : Z) :
  (length (select_due db now) <= length (predictions db))%nat.
Proof.
  unfold select_due. induction (predictions db) as [| p ps IH]; simpl; [lia |].
  rewrite length_app.
  destruct (due now p); [destruct (join_cryptocurrency db p) |]; simpl; lia.
Qed.

Lemma unique_ids_eq (l : list PredictionRow) (p q : PredictionRow) :
  NoDup (map p_id l) -> In p l -> In q l -> p_id p = p_id q -> p = q.
Proof.
  induction l as [| x l IH]; simpl; intros Hn Hp Hq Hid; [contradiction |].
  inversion Hn as [| ? ? Hnot Hn']; subst.
  destruct Hp as [-> | Hp], Hq as [-> | Hq]; auto.
  - exfalso. apply Hnot. rewrite Hid. apply in_map. exact Hq.
  - exfalso. apply Hnot. rewrite <- Hid. apply in_map. exact Hp.
Qed.

End Sweep.

Section SweepProperties.

Import DatabaseManager.

Lemma Forall2_map_in {A B : Type} (R : A -> B -> Prop) (f : A -> B) (l : list A) :
  (forall x, In x l -> R x (f x)) -> Forall2 R l (map f l).
Proof.
  induction l as [| x l IH]; intros H; simpl; constructor.
  - apply H. left. reflexivity.
  - apply IH. intros y Hy. apply H. right. exact Hy.
Qed.

Lemma sweep_result (db : DB) (now : Z) :
  snd (evaluatePredictions db now) =
  mkDB (cryptocurrencies db) (price_history db)
       (map (row_steps db now (select_due db now)) (predictions db)).
Proof. unfold evaluatePredictions. cbn [snd]. apply fold_evaluate_map. Qed.

(** X19. A sweep returns the number of rows it selected, at most the
    number of stored predictions. It leaves the asset and price tables and
    the forecast columns of every prediction as they were, keeps the rows
    in place, and each row comes out either untouched or evaluated at the
    sweep time with [was_accurate] 0 or 1 and direction 'up', 'down' or
    'neutral'. *)
Theorem X19_sweep_frame_and_outcomes (db : DB) (now : Z) :
  let n := fst (evaluatePredictions db now) in
  let db' := snd (evaluatePredictions db now) in
  n = length (select_due db now) /\
  (n <= length (predictions db))%nat /\
  cryptocurrencies db' = cryptocurrencies db /\
  price_history db' = price_history db /\
  map forecast_columns (predictions db') = map forecast_columns (predictions db) /\
  Forall2 (fun p p' =>
             p' = p \/
             (evaluated_at p' = Some now /\
              (was_accurate p' = Some 0%Z \/ was_accurate p' = Some 1%Z) /\
              (actual_direction p' = Some "up" \/
               actual_direction p' = Some "down" \/
               actual_direction p' = Some "neutral")))
          (predictions db) (predictions db').
Proof.
  intros n db'. subst n db'. rewrite sweep_result.
  cbn [cryptocurrencies price_history predictions].
  split; [reflexivity |]. split; [apply select_due_length |].
  split; [reflexivity |]. split; [reflexivity |]. split.
  - rewrite map_map. apply map_ext. intros p. apply row_steps_columns.
  - apply Forall2_map_in. intros p _.
    destruct (row_steps_cases db now (select_due db now) p)
      as [E | [He [Hw [Hd _]]]]; [left; exact E | right; auto].
Qed.

(** X20. Evaluation is final: when the ids of the predictions are unique,
    a sweep leaves every row that was already evaluated exactly as it was,
    and the ids stay unique. *)
Theorem X20_evaluated_rows_are_final (db : DB) (now : Z) :
  unique_ids db ->
  let db' := snd (evaluatePredictions db now) in
  unique_ids db' /\
  Forall2 (fun p p' => evaluated_at p <> None -> p' = p)
          (predictions db) (predictions db').
Proof.
  intros Hu db'. subst db'. rewrite sweep_result.
  unfold unique_ids in *. cbn [predictions]. split.
  - assert (E : map p_id (map (row_steps db now (select_due db now)) (predictions db))
                = map p_id (predictions db)).
    { rewrite map_map. apply map_ext. intros p.
      apply columns_id, row_steps_columns. }
    rewrite E. exact Hu.
  - apply Forall2_map_in. intros p Hp He.
    apply row_steps_miss. intros row Hrow Hid.
    destruct (select_due_in db now row Hrow) as [Hin [Hdue _]].
    assert (Heq : fst row = p) by (apply (unique_ids_eq _ _ _ Hu Hin Hp Hid)).
    rewrite Heq in Hdue. unfold due in Hdue.
    destruct (evaluated_at p); [discriminate | congruence].
Qed.

Lemma X20_evaluated_rows_are_final_witness :
  unique_ids single_row_db /\
  unique_ids (snd (evaluatePredictions single_row_db 86400000000)).
Proof.
  assert (Hu : unique_ids single_row_db) by (repeat constructor; intros []).
  split; [exact Hu |].
  apply (X20_evaluated_rows_are_final single_row_db 86400000000 Hu).
Defined.

Lemma row_step_keeps_evaluated (db : DB) (now : Z) (row : PredictionRow * option num)
    (p : PredictionRow) :
  evaluated_at p <> None -> evaluated_at (row_step db now row p) <> None.
Proof.
  intros H. destruct (row_step_cases db now row p) as [-> | [_ [_ [_ [E _]]]]];
    [exact H | rewrite E; discriminate].
Qed.

Lemma row_steps_hit (db : DB) (now : Z) (rows : list (PredictionRow * option num))
    (row : PredictionRow * option num) (p : PredictionRow) :
  In row rows -> p_id (fst row) = p_id p ->
  price_at db (crypto_id (fst row)) (created_at (fst row)) <> None ->
  evaluated_at (row_steps db now rows p) <> None.
Proof.
  unfold row_steps. revert p.
  induction rows as [| r rows IH]; intros p Hin Hid Hp; [contradiction |].
  cbn [fold_left]. destruct Hin as [-> | Hin].
  - assert (G : forall l q, evaluated_at q <> None ->
              evaluated_at (fold_left (fun p' r => row_step db now r p') l q) <> None).
    { induction l as [| r l IHl]; intros q Hq; cbn [fold_left]; [exact Hq |].
      apply IHl, row_step_keeps_evaluated, Hq. }
    apply G. destruct (row_step_hits db now row p) as [E _]; [congruence | exact Hp |].
    rewrite E. discriminate.
  - apply IH; [exact Hin | | exact Hp].
    rewrite Hid. symmetry. apply columns_id, row_step_id.
Qed.

Lemma fold_evaluate_none (rows : list (PredictionRow * option num)) (db : DB) (now : Z) :
  (forall row, In row rows ->
     price_at db (crypto_id (fst row)) (created_at (fst row)) = None) ->
  fold_left (fun db' row => evaluate_one db' now row) rows db = db.
Proof.
  induction rows as [| row rows IH]; intros H; cbn [fold_left]; [reflexivity |].
  assert (E : evaluate_one db now row = db).
  { destruct row as [pred cur]. unfold evaluate_one.
    pose proof (H (pred, cur) (or_introl eq_refl)) as E0. cbn [fst] in E0.
    rewrite E0. reflexivity. }
  rewrite E. apply IH. intros r Hr. apply H. right. exact Hr.
Qed.

Lemma select_due_complete (db : DB) (now : Z) (p : PredictionRow)
    (row : PredictionRow * option num) :
  In p (predictions db) -> due now p = true ->
  join_cryptocurrency db p = Some row -> In row (select_due db now).
Proof.
  intros Hp Hd Hj. unfold select_due. apply in_flat_map.
  exists p. split; [exact Hp |]. rewrite Hd, Hj. left. reflexivity.
Qed.

(** X21. A sweep is idempotent: run again at the same time on its own
    result, it changes nothing. The rows it still selects are the due rows
    that have no reference price. *)
Theorem X21_sweep_is_idempotent (db : DB) (now : Z) :
  let db' := snd (evaluatePredictions db now) in
  snd (evaluatePredictions db' now) = db' /\
  forall row, In row (select_due db' now) ->
    In row (select_due db now) /\
    price_at db (crypto_id (fst row)) (created_at (fst row)) = None.
Proof.
  intros db'.
  assert (Hsel : forall row, In row (select_due db' now) ->
            In row (select_due db now) /\
            price_at db (crypto_id (fst row)) (created_at (fst row)) = None).
  { intros row Hrow.
    destruct (select_due_in db' now row Hrow) as [Hin [Hdue Hjoin]].
    subst db'. rewrite sweep_result in Hin, Hjoin.
    cbn [predictions] in Hin. apply in_map_iff in Hin.
    destruct Hin as [p [Hp Hin]].
    assert (Hpend : evaluated_at (fst row) = None).
    { unfold due in Hdue. destruct (evaluated_at (fst row)); [discriminate | reflexivity]. }
    assert (Hsame : row_steps db now (select_due db now) p = p).
    { destruct (row_steps_cases db now (select_due db now) p) as [E | [He _]];
        [exact E |]. rewrite Hp, Hpend in He. discriminate. }
    rewrite Hsame in Hp. subst p.
    assert (Hrow0 : In row (select_due db now)).
    { apply (select_due_complete db now (fst row)); [exact Hin | exact Hdue |].
      exact Hjoin. }
    split; [exact Hrow0 |].
    destruct (price_at db (crypto_id (fst row)) (created_at (fst row))) as [ref |] eqn:Ep;
      [| reflexivity].
    exfalso.
    apply (row_steps_hit db now (select_due db now) row (fst row) Hrow0 eq_refl).
    - rewrite Ep. discriminate.
    - rewrite Hsame. exact Hpend. }
  split; [| exact Hsel].
  unfold evaluatePredictions at 1. cbn [snd].
  apply fold_evaluate_none. intros row Hrow.
  destruct (Hsel row Hrow) as [_ Hnone].
  subst db'. rewrite sweep_result. exact Hnone.
Qed.

(** X22. With unique ids, a pending row that is due under the sweep's
    test, whose asset is listed and has a price recorded at or before the
    row's creation, comes out of the sweep evaluated at [now], with the
    asset's current price stored as its actual price and its forecast
    columns unchanged. *)
Theorem X22_due_rows_get_evaluated (db : DB) (now : Z) (i : nat) (p : PredictionRow)
    (cur : option num) :
  unique_ids db ->
  nth_error (predictions db) i = Some p ->
  due now p = true ->
  join_cryptocurrency db p = Some (p, cur) ->
  price_at db (crypto_id p) (created_at p) <> None ->
  exists p',
    nth_error (predictions (snd (evaluatePredictions db now))) i = Some p' /\
    evaluated_at p' = Some now /\
    actual_price p' = cur /\
    forecast_columns p' = forecast_columns p.
Proof.
  intros Hu Hnth Hdue Hjoin Hprice.
  rewrite sweep_result. cbn [predictions].
  rewrite nth_error_map, Hnth. cbn [option_map].
  eexists. split; [reflexivity |].
  assert (Hp : In p (predictions db)) by (eapply nth_error_In; exact Hnth).
  assert (Hrow : In (p, cur) (select_due db now))
    by (apply (select_due_complete db now p); assumption).
  destruct (row_steps_cases db now (select_due db now) p)
    as [E | [He [_ [_ [row [Hr [Hid [Ha _]]]]]]]].
  - exfalso.
    apply (row_steps_hit db now (select_due db now) (p, cur) p Hrow eq_refl Hprice).
    rewrite E. unfold due in Hdue. destruct (evaluated_at p); [discriminate | reflexivity].
  - split; [exact He |]. split; [| apply row_steps_columns].
    destruct (select_due_in db now row Hr) as [Hin [_ Hj]].
    assert (Heq : fst row = p) by (apply (unique_ids_eq _ _ _ Hu Hin Hp Hid)).
    rewrite Heq, Hjoin in Hj. injection Hj as <-. exact Ha.
Qed.

Lemma X22_due_rows_get_evaluated_witness :
  exists p',
    nth_error (predictions (snd (evaluatePredictions single_row_db 86400000000))) 0
    = Some p' /\
    evaluated_at p' = Some 86400000000%Z /\
    actual_price p' = Some (Fin 100).
Proof.
  destruct (X22_due_rows_get_evaluated single_row_db 86400000000 0 pending_up
              (Some (Fin 100))) as [p' [E [He [Ha _]]]].
  - repeat constructor; intros [].
  - reflexivity.
  - reflexivity.
  - reflexivity.
  - vm_compute. discriminate.
  - exists p'. split; [exact E |]. split; [exact He | exact Ha].
Defined.

End SweepProperties.

Section Invariants.

Import DatabaseManager.
Import DatabaseManager2.

Lemma sweep_unique (db : DB) (now : Z) :
  unique_ids db -> unique_ids (snd (evaluatePredictions db now)).
Proof.
  unfold unique_ids. rewrite sweep_result. cbn [predictions]. intros Hu.
  assert (E : map p_id (map (row_steps db now (select_due db now)) (predictions db))
              = map p_id (predictions db)).
  { rewrite map_map. apply map_ext. intros p.
    apply columns_id, row_steps_columns. }
  rewrite E. exact Hu.
Qed.

Lemma sweep_settled (db : DB) (now : Z) :
  Forall settled (predictions db) ->
  Forall settled (predictions (snd (evaluatePredictions db now))).
Proof.
  rewrite sweep_result. cbn [predictions]. intros H.
  apply Forall_map. apply Forall_forall. intros p Hp.
  destruct (row_steps_cases db now (select_due db now) p) as [E | [He [Hw [Hd _]]]].
  - rewrite E. apply (proj1 (Forall_forall _ _) H p Hp).
  - right. split; [exists now; exact He | split; assumption].
Qed.

Lemma existsb_price_key (cid : string) (t : Z) (l : list PriceHistory) :
  existsb (fun r => String.eqb (ph_crypto_id r) cid && (ph_timestamp r =? t)%Z) l = true
  <-> In (cid, t) (map price_key l).
Proof.
  rewrite existsb_exists, in_map_iff. unfold price_key.
  split; intros [r H]; exists r.
  - destruct H as [Hin H]. apply andb_true_iff in H. destruct H as [H1 H2].
    apply String.eqb_eq in H1. apply Z.eqb_eq in H2. subst. auto.
  - destruct H as [H Hin]. injection H as <- <-.
    rewrite String.eqb_refl, Z.eqb_refl. auto.
Qed.

Lemma insertPriceHistory_tables (db : DB) (cid : string) (t : Z) (p : num) :
  cryptocurrencies (insertPriceHistory db cid t p) = cryptocurrencies db /\
  predictions (insertPriceHistory db cid t p) = predictions db /\
  ((In (cid, t) (map price_key (price_history db)) /\
    insertPriceHistory db cid t p = db) \/
   (~ In (cid, t) (map price_key (price_history db)) /\
    price_history (insertPriceHistory db cid t p) =
      price_history db ++ [mkPriceHistory cid t p])).
Proof.
  unfold insertPriceHistory.
  destruct (existsb _ (price_history db)) eqn:E.
  - split; [reflexivity |]. split; [reflexivity |]. left.
    split; [apply existsb_price_key; exact E | reflexivity].
  - split; [reflexivity |]. split; [reflexivity |]. right.
    split; [| reflexivity].
    intros H. apply existsb_price_key in H. congruence.
Qed.

Lemma insertPriceHistory_unique (db : DB) (cid : string) (t : Z) (p : num) :
  unique_prices db -> unique_prices (insertPriceHistory db cid t p).
Proof.
  unfold unique_prices. intros Hu.
  destruct (insertPriceHistory_tables db cid t p) as [_ [_ [[_ E] | [Hn E]]]].
  - rewrite E. exact Hu.
  - rewrite E, map_app. cbn [map]. apply NoDup_app.
    + exact Hu.
    + apply NoDup_cons; [simpl; tauto | apply NoDup_nil].
    + intros k Hk [Hr | []]. subst k. apply Hn. exact Hk.
Qed.

(** X23. Every database that the manager's writers produce from empty
    tables of prices and predictions keeps three invariants: the ids of the
    predictions are unique, the pairs (asset, timestamp) of the price
    history are unique, and every prediction is either pending with its four
    outcome columns [NULL] or evaluated with [was_accurate] 0 or 1 and a
    direction 'up', 'down' or 'neutral'. *)
Theorem X23_writers_keep_the_invariants (db : DB) :
  reachable db ->
  unique_ids db /\ unique_prices db /\ Forall settled (predictions db).
Proof.
  induction 1 as [cs | db cs _ [I1 [I2 I3]] | db cid t p _ [I1 [I2 I3]]
                  | db np _ [I1 [I2 I3]] | db now _ [I1 [I2 I3]]].
  - split; [apply NoDup_nil |]. split; [apply NoDup_nil | apply Forall_nil].
  - split; [exact I1 |]. split; [exact I2 | exact I3].
  - destruct (insertPriceHistory_tables db cid t p) as [_ [Ep _]].
    split; [unfold unique_ids; rewrite Ep; exact I1 |].
    split; [apply insertPriceHistory_unique; exact I2 | rewrite Ep; exact I3].
  - split; [apply savePrediction_unique; exact I1 |].
    destruct (savePrediction_rows db np) as [r [Er [_ [Eh [_ [Hp _]]]]]].
    split; [unfold unique_prices; rewrite Eh; exact I2 |].
    rewrite Er. apply Forall_app. split; [exact I3 |].
    apply Forall_cons; [left; exact Hp | apply Forall_nil].
  - split; [apply sweep_unique; exact I1 |].
    split; [| apply sweep_settled; exact I3].
    unfold unique_prices. rewrite sweep_result. exact I2.
Qed.

Lemma X23_writers_keep_the_invariants_witness :
  unique_ids (snd (evaluatePredictions (tracked_db 0) 86400000000)) /\
  unique_prices (snd (evaluatePredictions (tracked_db 0) 86400000000)) /\
  Forall settled (predictions (snd (evaluatePredictions (tracked_db 0) 86400000000))).
Proof.
  apply X23_writers_keep_the_invariants.
  apply reach_sweep. unfold tracked_db, savePredictionForTracking.
  apply reach_save, reach_save.
  apply (reach_price (mkDB [mkCryptocurrency "bitcoin" (Some (Fin 100))] [] [])
           "bitcoin" 0 (Fin 100)).
  apply reach_created.
Defined.

Lemma round2_percent (x : Q) : 0 <= x <= 100 -> 0 <= round2 x <= 100.
Proof.
  intros [H0 H1]. unfold round2.
  assert (Hh : 1 / 2 == 1 # 2) by reflexivity.
  destruct (Qle_bool 0 x) eqn:E.
  - assert (L : (0 <= Qfloor (x * 100 + 1 / 2))%Z).
    { apply Z.le_trans with (Qfloor 0); [vm_compute; discriminate |].
      apply Qfloor_resp_le. rewrite Hh. lra. }
    assert (U : (Qfloor (x * 100 + 1 / 2) <= 10000)%Z).
    { apply Z.le_trans with (Qfloor (100 * 100 + 1 / 2));
        [| vm_compute; discriminate].
      apply Qfloor_resp_le. apply Qplus_le_l. nra. }
    split; unfold Qle; cbn [Qnum Qden]; lia.
  - exfalso. apply Qle_bool_iff in H0. congruence.
Qed.

Lemma share_percent (a : Z) (n : nat) :
  (0 <= a <= Z.of_nat (S n))%Z ->
  0 <= inject_Z a * 100 / inject_Z (Z.of_nat (S n)) <= 100.
Proof.
  intros [H0 H1].
  assert (Hn : 0 < inject_Z (Z.of_nat (S n))).
  { change 0 with (inject_Z 0). rewrite <- Zlt_Qlt. lia. }
  assert (Ha : 0 <= inject_Z a).
  { change 0 with (inject_Z 0). rewrite <- Zle_Qle. exact H0. }
  assert (Hb : inject_Z a <= inject_Z (Z.of_nat (S n))).
  { rewrite <- Zle_Qle. exact H1. }
  split.
  - apply Qle_shift_div_l; [exact Hn | lra].
  - apply Qle_shift_div_r; [exact Hn | lra].
Qed.

Lemma sum_bits (flags : list Z) (acc : Z) :
  Forall (fun w => w = 0%Z \/ w = 1%Z) flags ->
  (acc <= fold_left Z.add flags acc <= acc + Z.of_nat (length flags))%Z.
Proof.
  revert acc. induction flags as [| w flags IH]; intros acc H; cbn [fold_left length].
  - lia.
  - inversion H as [| ? ? Hw Hf]; subst.
    specialize (IH (acc + w)%Z Hf). destruct Hw; subst; lia.
Qed.

Lemma flags_of_verdicts (rows : list PredictionRow) :
  Forall has_verdict rows ->
  length (flat_map (fun p => match was_accurate p with
                             | Some w => [w]
                             | None => []
                             end) rows) = length rows /\
  Forall (fun w => w = 0%Z \/ w = 1%Z)
         (flat_map (fun p => match was_accurate p with
                             | Some w => [w]
                             | None => []
                             end) rows).
Proof.
  induction 1 as [| p rows [_ [Hw _]] _ [IH1 IH2]]; cbn [flat_map length].
  - split; [reflexivity | apply Forall_nil].
  - destruct Hw as [-> | ->]; cbn [app length]; (split; [lia |]);
      apply Forall_cons; auto.
Qed.

Lemma aggregate_percent (rows : list PredictionRow) :
  Forall has_verdict rows ->
  percent_ok (aggregate rows) /\
  (rows <> [] -> exists pct, accuracy_percentage (aggregate rows) = Some pct /\
                             0 <= pct <= 100).
Proof.
  intros H. destruct (flags_of_verdicts rows H) as [Hl Hb].
  unfold percent_ok, aggregate.
  set (flags := flat_map _ rows) in *.
  cbn [accuracy_percentage accurate_predictions total_predictions].
  pose proof (sum_bits flags 0 Hb) as Hs.
  destruct flags as [| w flags].
  - destruct rows as [| p rows]; [| discriminate].
    split; [reflexivity | congruence].
  - destruct rows as [| p rows]; [discriminate |].
    set (a := fold_left Z.add (w :: flags) 0%Z) in *.
    cbn [length] in *.
    assert (Ha : (0 <= a <= Z.of_nat (S (length rows)))%Z) by lia.
    pose proof (round2_percent _ (share_percent a (length rows) Ha)) as Hr.
    split.
    + split; [exact Hr |]. split; [exact Ha | lia].
    + intros _. eexists. split; [reflexivity | exact Hr].
Qed.

Lemma evaluated_verdicts (db : DB) :
  Forall settled (predictions db) ->
  Forall has_verdict (filter evaluated (predictions db)).
Proof.
  intros H. apply Forall_forall. intros p Hp.
  apply filter_In in Hp. destruct Hp as [Hin He].
  destruct (proj1 (Forall_forall _ _) H p Hin) as [[_ [_ [_ Hn]]] | Hv];
    [| exact Hv].
  unfold evaluated in He. rewrite Hn in He. discriminate.
Qed.

Lemma Forall_filter {A : Type} (P : A -> Prop) (f : A -> bool) (l : list A) :
  Forall P l -> Forall P (filter f l).
Proof.
  intros H. apply Forall_forall. intros x Hx. apply filter_In in Hx.
  apply (proj1 (Forall_forall _ _) H x (proj1 Hx)).
Qed.

(** X24. When every prediction is pending or holds a verdict, each
    aggregate of the accuracy report is well formed: it counts no row and
    has [NULL] for its sum and percentage, or it counts some and its
    percentage lies between 0 and 100. The overall aggregate counts the
    evaluated rows, every timeframe group counts at least one row, and the
    engine's accuracy context reports the overall percentage twice, as a
    number between 0 and 100 that is 0 when nothing was evaluated. *)
Theorem X24_accuracy_report_well_formed (db : DB) (now : Z) :
  Forall settled (predictions db) ->
  let acc := getHistoricalAccuracy db now in
  percent_ok (overall acc) /\
  percent_ok (last30Days acc) /\
  total_predictions (overall acc) = length (filter evaluated (predictions db)) /\
  Forall (fun g => exists pct, accuracy_percentage (snd g) = Some pct /\
                               0 <= pct <= 100 /\
                               (0 < total_predictions (snd g))%nat)
         (byTimeframe acc) /\
  forall (score : num) (level : option PredictionEngine.VolatilityLevel),
    let ctx := PredictionEngine2.getHistoricalAccuracyForConditions db now score level in
    0 <= PredictionEngine2.ctx_overall ctx <= 100 /\
    PredictionEngine2.ctx_similarConditions ctx = PredictionEngine2.ctx_overall ctx /\
    (filter evaluated (predictions db) = [] -> PredictionEngine2.ctx_overall ctx = 0).
Proof.
  intros H acc. subst acc. pose proof (evaluated_verdicts db H) as Hv.
  unfold getHistoricalAccuracy. cbn [overall last30Days byTimeframe].
  set (rows := filter evaluated (predictions db)) in *.
  split; [apply aggregate_percent; exact Hv |].
  split; [apply aggregate_percent, Forall_filter; exact Hv |].
  split; [reflexivity |]. split.
  - apply Forall_map. apply Forall_forall. intros tf Htf. cbn [snd].
    apply nodup_In in Htf. apply in_map_iff in Htf. destruct Htf as [p [Ep Hp]].
    assert (Hin : In p (filter (fun p => (DatabaseManager.timeframe p =? tf)%Z) rows)).
    { apply filter_In. split; [exact Hp | apply Z.eqb_eq; exact Ep]. }
    destruct (aggregate_percent _ (Forall_filter _ (fun p => (DatabaseManager.timeframe p =? tf)%Z) _ Hv))
      as [Hok Hsome].
    destruct Hsome as [pct [E Hpct]].
    { intros Hnil. rewrite Hnil in Hin. contradiction. }
    exists pct. split; [exact E |]. split; [exact Hpct |].
    unfold aggregate. cbn [total_predictions].
    destruct (filter _ rows); [contradiction | simpl; lia].
  - intros score level. cbv zeta.
    unfold PredictionEngine2.getHistoricalAccuracyForConditions, getHistoricalAccuracy.
    cbn [overall PredictionEngine2.ctx_overall PredictionEngine2.ctx_similarConditions].
    fold rows.
    destruct (aggregate_percent rows Hv) as [Hok _].
    unfold percent_ok in Hok. unfold PredictionEngine2.percentage_or_zero.
    split; [| split; [reflexivity |]].
    + destruct (accuracy_percentage (aggregate rows)) as [pct |]; [| lra].
      destruct (accurate_predictions (aggregate rows)); [| contradiction].
      destruct (Qeq_bool pct 0); [lra | apply Hok].
    + intros Hnil. rewrite Hnil. reflexivity.
Qed.

Lemma X24_accuracy_report_well_formed_witness :
  percent_ok (overall (getHistoricalAccuracy
                         (snd (evaluatePredictions single_row_db 86400000000))
                         86400000000)).
Proof.
  assert (H : Forall settled
                (predictions (snd (evaluatePredictions single_row_db 86400000000)))).
  { apply Forall_cons; [| apply Forall_nil].
    right. split; [eexists; reflexivity |]. split; [left; reflexivity |].
    right. left. reflexivity. }
  exact (proj1 (X24_accuracy_report_well_formed _ 86400000000 H)).
Defined.

End Invariants.

Section PriceHistoryTable.

Import DatabaseManager.
Import DatabaseManager2.

(** [price_at] returns the latest row of the asset at or before [t]. *)
Lemma price_at_fold (cid : string) (t : Z) (l : list PriceHistory) :
  forall best : option PriceHistory,
    match best with
    | Some b => ph_crypto_id b = cid /\ (ph_timestamp b <= t)%Z
    | None => True
    end ->
    match fold_left
            (fun best r =>
               if String.eqb (ph_crypto_id r) cid && (ph_timestamp r <=? t)%Z then
                 match best with
                 | Some b => if (ph_timestamp b <? ph_timestamp r)%Z then Some r else best
                 | None => Some r
                 end
               else best) l best with
    | Some r =>
        (In r l \/ best = Some r) /\
        ph_crypto_id r = cid /\ (ph_timestamp r <= t)%Z /\
        (forall r', In r' l -> ph_crypto_id r' = cid -> (ph_timestamp r' <= t)%Z ->
                    (ph_timestamp r' <= ph_timestamp r)%Z) /\
        (forall b, best = Some b -> (ph_timestamp b <= ph_timestamp r)%Z)
    | None =>
        best = None /\
        forall r', In r' l -> ph_crypto_id r' = cid -> (t < ph_timestamp r')%Z
    end.
Proof.
  induction l as [| x l IH]; intros best Hb; cbn [fold_left].
  - destruct best as [b |].
    + destruct Hb as [Hc Ht]. split; [right; reflexivity |].
      split; [exact Hc |]. split; [exact Ht |].
      split; [intros r' [] | intros b' E; injection E as <-; lia].
    + split; [reflexivity | intros r' []].
  - set (step := if String.eqb (ph_crypto_id x) cid && (ph_timestamp x <=? t)%Z
                 then match best with
                      | Some b => if (ph_timestamp b <? ph_timestamp x)%Z
                                  then Some x else best
                      | None => Some x
                      end
                 else best).
    assert (Hstep :
      match step with
      | Some b => ph_crypto_id b = cid /\ (ph_timestamp b <= t)%Z
      | None => True
      end /\
      (step = best \/ step = Some x) /\
      (forall b, best = Some b ->
         exists s, step = Some s /\ (ph_timestamp b <= ph_timestamp s)%Z) /\
      (ph_crypto_id x = cid -> (ph_timestamp x <= t)%Z ->
         exists s, step = Some s /\ (ph_timestamp x <= ph_timestamp s)%Z) /\
      (step = None -> ph_crypto_id x = cid -> (t < ph_timestamp x)%Z)).
    { subst step.
      destruct (String.eqb_spec (ph_crypto_id x) cid) as [Hc | Hc];
        destruct (Z.leb_spec (ph_timestamp x) t) as [Ht | Ht]; cbn [andb].
      - destruct best as [b |].
        + destruct (Z.ltb_spec (ph_timestamp b) (ph_timestamp x)) as [Hlt | Hge].
          * split; [auto |]. split; [auto |].
            split; [intros b' E; injection E as <-; exists x; split; [reflexivity | lia] |].
            split; [intros _ _; exists x; split; [reflexivity | lia] | discriminate].
          * split; [exact Hb |]. split; [auto |].
            split; [intros b' E; injection E as <-; exists b; split; [reflexivity | lia] |].
            split; [intros _ _; exists b; split; [reflexivity | lia] | discriminate].
        + split; [auto |]. split; [auto |]. split; [discriminate |].
          split; [intros _ _; exists x; split; [reflexivity | lia] | discriminate].
      - split; [exact Hb |]. split; [auto |].
        split; [intros b E; exists b; split; [exact E | lia] |].
        split; [intros _ ?; lia | intros _ _; exact Ht].
      - split; [exact Hb |]. split; [auto |].
        split; [intros b E; exists b; split; [exact E | lia] |].
        split; [intros ?; contradiction | intros _ ?; contradiction].
      - split; [exact Hb |]. split; [auto |].
        split; [intros b E; exists b; split; [exact E | lia] |].
        split; [intros ?; contradiction | intros _ ?; contradiction]. }
    destruct Hstep as [Hs [Hor [Hbest [Hx Hnone]]]].
    specialize (IH step Hs).
    destruct (fold_left _ l step) as [r |].
    + destruct IH as [Hin [Hc [Ht [Hmax Hfrom]]]].
      split.
      { destruct Hin as [Hin | E]; [left; right; exact Hin |].
        destruct Hor as [Eb | Ex]; [right; congruence |].
        left. left. congruence. }
      split; [exact Hc |]. split; [exact Ht |]. split.
      * intros r' [<- | Hr'] Hc' Ht'; [| apply Hmax; assumption].
        destruct (Hx Hc' Ht') as [s [Es Hle]].
        specialize (Hfrom s Es). lia.
      * intros b Eb. destruct (Hbest b Eb) as [s [Es Hle]].
        specialize (Hfrom s Es). lia.
    + destruct IH as [Es Hall]. split.
      * destruct Hor as [Eb | Ex]; congruence.
      * intros r' [<- | Hr'] Hc'; [apply Hnone; assumption | apply Hall; assumption].
Qed.

Lemma price_at_spec (db : DB) (cid : string) (t : Z) :
  match price_at db cid t with
  | Some r =>
      In r (price_history db) /\ ph_crypto_id r = cid /\ (ph_timestamp r <= t)%Z /\
      forall r', In r' (price_history db) -> ph_crypto_id r' = cid ->
                 (ph_timestamp r' <= t)%Z -> (ph_timestamp r' <= ph_timestamp r)%Z
  | None =>
      forall r', In r' (price_history db) -> ph_crypto_id r' = cid ->
                 (t < ph_timestamp r')%Z
  end.
Proof.
  unfold price_at.
  pose proof (price_at_fold cid t (price_history db) None I) as H.
  destruct (fold_left _ (price_history db) None) as [r |].
  - destruct H as [[Hin | E] [Hc [Ht [Hmax _]]]]; [| discriminate]. auto.
  - apply H.
Qed.

(** X25. The reference price of an evaluation is the latest price of the
    asset recorded at or before the given time: a row of the asset's price
    history, not later than [t], and no other such row is later. There is
    none exactly when every row of the asset is later than [t]. *)
Theorem X25_reference_price_is_latest (db : DB) (cid : string) (t : Z) :
  match price_at db cid t with
  | Some r =>
      In r (price_history db) /\ ph_crypto_id r = cid /\ (ph_timestamp r <= t)%Z /\
      forall r', In r' (price_history db) -> ph_crypto_id r' = cid ->
                 (ph_timestamp r' <= t)%Z -> (ph_timestamp r' <= ph_timestamp r)%Z
  | None =>
      forall r', In r' (price_history db) -> ph_crypto_id r' = cid ->
                 (t < ph_timestamp r')%Z
  end.
Proof. apply price_at_spec. Qed.




End PriceHistoryTable.

Section SortBy.

Context {A : Type} (key : A -> Z).

Lemma insert_by_perm (x : A) (l : list A) :
  Permutation (insert_by key x l) (x :: l).
Proof.
  induction l as [| y l IH]; cbn [insert_by]; [apply Permutation_refl |].
  destruct (key y - key x >? 0)%Z; [apply Permutation_refl |].
  apply Permutation_trans with (y :: x :: l);
    [apply perm_skip; exact IH | apply perm_swap].
Qed.

Lemma fold_insert_by_perm (l acc : list A) :
  Permutation (fold_left (fun sorted x => insert_by key x sorted) l acc) (l ++ acc).
Proof.
  revert acc. induction l as [| x l IH]; intros acc; cbn [fold_left app];
    [apply Permutation_refl |].
  apply Permutation_trans with (l ++ insert_by key x acc); [apply IH |].
  apply Permutation_trans with (l ++ x :: acc);
    [apply Permutation_app_head, insert_by_perm |].
  apply Permutation_sym, Permutation_middle.
Qed.

Lemma sort_by_perm (l : list A) : Permutation (sort_by key l) l.
Proof.
  unfold sort_by.
  apply Permutation_trans with (l ++ []); [apply fold_insert_by_perm |].
  rewrite app_nil_r. apply Permutation_refl.
Qed.

Lemma insert_by_sorted (x : A) (l : list A) :
  StronglySorted (fun a b => (key a <= key b)%Z) l ->
  StronglySorted (fun a b => (key a <= key b)%Z) (insert_by key x l).
Proof.
  induction 1 as [| y l Hs IH Hall]; cbn [insert_by].
  - apply SSorted_cons; [apply SSorted_nil | apply Forall_nil].
  - destruct (Z.gtb_spec (key y - key x) 0) as [Hgt | Hle].
    + apply SSorted_cons; [apply SSorted_cons; assumption |].
      apply Forall_cons; [lia |].
      apply Forall_forall. intros z Hz.
      pose proof (proj1 (Forall_forall _ _) Hall z Hz). cbn beta in *. lia.
    + apply SSorted_cons; [exact IH |].
      apply Forall_forall. intros z Hz.
      apply (Permutation_in _ (insert_by_perm x l)) in Hz.
      destruct Hz as [<- | Hz]; [lia |].
      apply (proj1 (Forall_forall _ _) Hall z Hz).
Qed.

Lemma sort_by_sorted (l : list A) :
  StronglySorted (fun a b => (key a <= key b)%Z) (sort_by key l).
Proof.
  unfold sort_by.
  assert (G : forall acc, StronglySorted (fun a b => (key a <= key b)%Z) acc ->
              StronglySorted (fun a b => (key a <= key b)%Z)
                (fold_left (fun sorted x => insert_by key x sorted) l acc)).
  { induction l as [| x l IH]; intros acc Hacc; cbn [fold_left]; [exact Hacc |].
    apply IH, insert_by_sorted, Hacc. }
  apply G, SSorted_nil.
Qed.

Lemma sorted_strict (l : list A) :
  StronglySorted (fun a b => (key a <= key b)%Z) l -> NoDup (map key l) ->
  StronglySorted (fun a b => (key a < key b)%Z) l.
Proof.
  induction 1 as [| y l Hs IH Hall]; intros Hn; [apply SSorted_nil |].
  cbn [map] in Hn. inversion Hn as [| ? ? Hnot Hn']; subst.
  apply SSorted_cons; [apply IH; exact Hn' |].
  apply Forall_forall. intros z Hz.
  pose proof (proj1 (Forall_forall _ _) Hall z Hz) as Hle. cbn beta in Hle.
  destruct (Z.eq_dec (key y) (key z)) as [E | E]; [| lia].
  exfalso. apply Hnot. rewrite E. apply in_map. exact Hz.
Qed.

End SortBy.

Section PriceWindow.

Import DatabaseManager.
Import DatabaseManager2.

Lemma NoDup_map_filter {A B : Type} (f : A -> B) (g : A -> bool) (l : list A) :
  NoDup (map f l) -> NoDup (map f (filter g l)).
Proof.
  induction l as [| x l IH]; cbn [map filter]; intros H; [exact H |].
  inversion H as [| ? ? Hnot Hn]; subst.
  destruct (g x); [| apply IH; exact Hn].
  cbn [map]. apply NoDup_cons; [| apply IH; exact Hn].
  intros Hin. apply Hnot. apply in_map_iff in Hin.
  destruct Hin as [y [E Hy]]. apply filter_In in Hy.
  rewrite <- E. apply in_map. apply Hy.
Qed.

Lemma one_asset_timestamps (cid : string) (l : list PriceHistory) :
  Forall (fun r => ph_crypto_id r = cid) l ->
  NoDup (map price_key l) -> NoDup (map ph_timestamp l).
Proof.
  induction 1 as [| x l Hx Hall IH]; cbn [map]; intros Hn; [apply NoDup_nil |].
  inversion Hn as [| ? ? Hnot Hn']; subst.
  apply NoDup_cons; [| apply IH; exact Hn'].
  intros Hin. apply Hnot. apply in_map_iff in Hin.
  destruct Hin as [y [E Hy]]. apply in_map_iff. exists y.
  split; [| exact Hy]. unfold price_key.
  rewrite E, (proj1 (Forall_forall _ _) Hall y Hy). reflexivity.
Qed.

(** X27. [getPriceHistory] returns exactly the rows of the asset that are
    not older than [days] days, each as often as the table holds it, in
    ascending order of timestamp; when the pairs (asset, timestamp) are
    unique the timestamps are strictly ascending. *)
Theorem X27_price_window_in_order (db : DB) (now : Z) (cid : string) (days : Z) :
  let rows := getPriceHistory db now cid days in
  StronglySorted (fun a b => (ph_timestamp a <= ph_timestamp b)%Z) rows /\
  Permutation rows
    (filter (fun r => String.eqb (ph_crypto_id r) cid &&
                      (now - days * 86400000 <=? ph_timestamp r)%Z)
            (price_history db)) /\
  (forall r, In r rows <->
             In r (price_history db) /\ ph_crypto_id r = cid /\
             (now - days * 86400000 <= ph_timestamp r)%Z) /\
  (unique_prices db ->
   StronglySorted (fun a b => (ph_timestamp a < ph_timestamp b)%Z) rows).
Proof.
  intros rows. subst rows. unfold getPriceHistory.
  replace (now - days * 24 * 60 * 60 * 1000)%Z with (now - days * 86400000)%Z by lia.
  set (window := filter _ (price_history db)).
  assert (Hmem : forall r, In r (sort_by ph_timestamp window) <->
            In r (price_history db) /\ ph_crypto_id r = cid /\
            (now - days * 86400000 <= ph_timestamp r)%Z).
  { intros r. split.
    - intros H. apply (Permutation_in _ (sort_by_perm ph_timestamp window)) in H.
      apply filter_In in H. destruct H as [Hin H].
      apply andb_true_iff in H. destruct H as [H1 H2].
      apply String.eqb_eq in H1. apply Z.leb_le in H2. auto.
    - intros [Hin [Hc Ht]].
      apply (Permutation_in _ (Permutation_sym (sort_by_perm ph_timestamp window))).
      apply filter_In. split; [exact Hin |].
      apply andb_true_iff. split; [apply String.eqb_eq; exact Hc | apply Z.leb_le; exact Ht]. }
  split; [apply sort_by_sorted |].
  split; [apply sort_by_perm |].
  split; [exact Hmem |].
  intros Hu. apply sorted_strict; [apply sort_by_sorted |].
  apply (Permutation_NoDup
           (Permutation_map ph_timestamp (Permutation_sym (sort_by_perm ph_timestamp window)))).
  apply (one_asset_timestamps cid).
  - apply Forall_forall. intros r Hr. apply filter_In in Hr.
    destruct Hr as [_ H]. apply andb_true_iff in H. apply String.eqb_eq, H.
  - apply NoDup_map_filter. exact Hu.
Qed.

Lemma X27_price_window_in_order_witness :
  unique_prices (insertPriceHistory single_row_db "bitcoin" 3600000 (Fin 91)) /\
  StronglySorted (fun a b => (ph_timestamp a < ph_timestamp b)%Z)
    (getPriceHistory (insertPriceHistory single_row_db "bitcoin" 3600000 (Fin 91))
       86400000 "bitcoin" 1).
Proof.
  assert (Hu : unique_prices (insertPriceHistory single_row_db "bitcoin" 3600000 (Fin 91))).
  { apply insertPriceHistory_unique. repeat constructor. intros []. }
  split; [exact Hu |].
  exact (proj2 (proj2 (proj2
           (X27_price_window_in_order _ 86400000 "bitcoin" 1))) Hu).
Defined.

End PriceWindow.

(** * Further properties: the hourly bars *)

Section HourlyBars.

Import PredictionEngine2.

Lemma min_fin (a b : Q) :
  exists q, JsNum.min (Fin a) (Fin b) = Fin q /\ q <= a /\ q <= b.
Proof.
  unfold JsNum.min. destruct (Fin b <? Fin a)%js eqn:E; fin_bool.
  - exists b. split; [reflexivity | lra].
  - exists a. split; [reflexivity | lra].
Qed.

(** [add_point] opens a bar at the end, or updates the bar of the hour. *)
Lemma add_point_cases (pt : PricePoint) (buckets : list OHLC) :
  (~ In (hourKey pt) (map timestamp buckets) /\
   add_point pt buckets =
     buckets ++ [mkOHLC (hourKey pt) (pp_price pt) (pp_price pt) (pp_price pt)
                   (pp_price pt) (volume_or_zero (pp_volume pt))])
  \/
  (exists before b after,
     buckets = before ++ b :: after /\ timestamp b = hourKey pt /\
     add_point pt buckets =
       before ++
       mkOHLC (timestamp b) (open b)
         (JsNum.max (TechnicalIndicators.high b) (pp_price pt))
         (JsNum.min (TechnicalIndicators.low b) (pp_price pt))
         (pp_price pt)
         (TechnicalIndicators.volume b + volume_or_zero (pp_volume pt))%js :: after).
Proof.
  induction buckets as [| bucket rest IH]; cbn [add_point map].
  - left. split; [intros [] | reflexivity].
  - destruct (Z.eqb_spec (timestamp bucket) (hourKey pt)) as [E | E].
    + right. exists [], bucket, rest. split; [reflexivity |]. split; [exact E | reflexivity].
    + destruct IH as [[Hn Eq] | [before [b [after [Eb [Et Eq]]]]]].
      * left. split; [intros [H | H]; [exact (E H) | exact (Hn H)] |].
        rewrite Eq. reflexivity.
      * right. exists (bucket :: before), b, after.
        split; [rewrite Eb; reflexivity |]. split; [exact Et |].
        rewrite Eq. reflexivity.
Qed.

Lemma hourly_buckets_snoc (points : list PricePoint) (pt : PricePoint) :
  hourly_buckets (points ++ [pt]) = add_point pt (hourly_buckets points).
Proof. unfold hourly_buckets. rewrite fold_left_app. reflexivity. Qed.

Lemma add_point_timestamps (pt : PricePoint) (buckets : list OHLC) :
  NoDup (map timestamp buckets) ->
  NoDup (map timestamp (add_point pt buckets)) /\
  forall k, In k (map timestamp (add_point pt buckets)) <->
            k = hourKey pt \/ In k (map timestamp buckets).
Proof.
  intros Hn.
  destruct (add_point_cases pt buckets) as [[Hnot ->] | [before [b [after [Eb [Et ->]]]]]].
  - rewrite map_app. cbn [map timestamp]. split.
    + apply NoDup_app; [exact Hn | apply NoDup_cons; [simpl; tauto | apply NoDup_nil] |].
      intros k Hk [<- | []]. exact (Hnot Hk).
    + intros k. rewrite in_app_iff. simpl. intuition auto.
  - assert (E : map timestamp
                  (before ++
                   mkOHLC (timestamp b) (open b)
                     (JsNum.max (TechnicalIndicators.high b) (pp_price pt))
                     (JsNum.min (TechnicalIndicators.low b) (pp_price pt))
                     (pp_price pt)
                     (TechnicalIndicators.volume b + volume_or_zero (pp_volume pt))%js
                   :: after) = map timestamp buckets).
    { rewrite Eb, !map_app. reflexivity. }
    rewrite E. split; [exact Hn |].
    intros k. split; [auto |]. intros [-> | H]; [| exact H].
    rewrite Eb, map_app, <- Et. apply in_or_app. right. left. reflexivity.
Qed.

Lemma hourly_keys (points : list PricePoint) :
  NoDup (map timestamp (hourly_buckets points)) /\
  forall k, In k (map timestamp (hourly_buckets points)) <->
            In k (map hourKey points).
Proof.
  induction points as [| pt points [IH1 IH2]] using rev_ind.
  - split; [apply NoDup_nil | intros k; reflexivity].
  - rewrite hourly_buckets_snoc.
    destruct (add_point_timestamps pt (hourly_buckets points) IH1) as [H1 H2].
    split; [exact H1 |]. intros k.
    rewrite H2, map_app, in_app_iff, IH2. simpl. intuition auto.
Qed.

Lemma hour_window (pt : PricePoint) :
  (hourKey pt mod 3600000 = 0)%Z /\
  (hourKey pt <= pp_timestamp pt < hourKey pt + 3600000)%Z.
Proof.
  unfold hourKey. split; [apply Z.mod_mul; lia |].
  pose proof (Z.div_mod (pp_timestamp pt) 3600000 ltac:(lia)).
  pose proof (Z.mod_pos_bound (pp_timestamp pt) 3600000 ltac:(lia)). lia.
Qed.

Lemma covers_widened (b b' : OHLC) (pt : PricePoint) (h p : Q) :
  bar_ok b -> covers b pt ->
  timestamp b' = timestamp b ->
  TechnicalIndicators.high b' = JsNum.max (TechnicalIndicators.high b) (Fin p) ->
  TechnicalIndicators.low b' = JsNum.min (TechnicalIndicators.low b) (Fin p) ->
  covers b' pt.
Proof.
  intros [o [hi [lo [c [_ [Eh [El _]]]]]]] [Ht [Hw [Hlo Hhi]]] Et Eh' El'.
  unfold covers. rewrite Et, Eh', El', Eh, El.
  rewrite Eh in Hhi. rewrite El in Hlo.
  split; [exact Ht |]. split; [exact Hw |].
  destruct (max_fin hi p) as [q1 [-> [H1 _]]].
  destruct (min_fin lo p) as [q2 [-> [H2 _]]].
  split.
  - apply (le_num_trans _ (Fin lo)); [apply le_num_fin; exact H2 | exact Hlo].
  - apply (le_num_trans _ (Fin hi)); [exact Hhi | apply le_num_fin; exact H1].
Qed.

Lemma add_point_prices (pt : PricePoint) (buckets : list OHLC) (points : list PricePoint) :
  finite (pp_price pt) ->
  Forall bar_ok buckets ->
  (forall pt0, In pt0 points -> exists b, In b buckets /\ covers b pt0) ->
  Forall bar_ok (add_point pt buckets) /\
  (forall pt0, In pt0 (points ++ [pt]) ->
     exists b, In b (add_point pt buckets) /\ covers b pt0).
Proof.
  intros [p Ep] Hok Hcov.
  destruct (add_point_cases pt buckets) as [[_ ->] | [before [b [after [Eb [Et ->]]]]]].
  - assert (Hnew : bar_ok (mkOHLC (hourKey pt) (pp_price pt) (pp_price pt) (pp_price pt)
                             (pp_price pt) (volume_or_zero (pp_volume pt)))).
    { exists p, p, p, p. cbn. rewrite Ep. repeat split; try reflexivity; lra. }
    split.
    + apply Forall_app. split; [exact Hok |].
      apply Forall_cons; [exact Hnew | apply Forall_nil].
    + intros pt0 H. apply in_app_or in H. destruct H as [H | [<- | []]].
      * destruct (Hcov pt0 H) as [b [Hb Hc]]. exists b.
        split; [apply in_or_app; left; exact Hb | exact Hc].
      * eexists. split; [apply in_or_app; right; left; reflexivity |].
        unfold covers. cbn [timestamp TechnicalIndicators.low TechnicalIndicators.high].
        split; [reflexivity |]. split; [apply hour_window |].
        rewrite Ep. split; apply le_num_fin; lra.
  - rewrite Eb in Hok. apply Forall_app in Hok. destruct Hok as [Hbefore Hrest].
    inversion Hrest as [| ? ? Hb Hafter]; subst.
    set (b' := mkOHLC (timestamp b) (open b)
                 (JsNum.max (TechnicalIndicators.high b) (pp_price pt))
                 (JsNum.min (TechnicalIndicators.low b) (pp_price pt))
                 (pp_price pt)
                 (TechnicalIndicators.volume b + volume_or_zero (pp_volume pt))%js).
    assert (Hb' : bar_ok b' /\ covers b' pt).
    { destruct Hb as [o [hi [lo [c [Eo [Eh [El [Ec [Ho Hc]]]]]]]]].
      subst b'. unfold bar_ok, covers.
      cbn [timestamp open close TechnicalIndicators.low TechnicalIndicators.high].
      rewrite Eh, El, Ep, Eo.
      destruct (max_fin hi p) as [q1 [-> [H1 H1']]].
      destruct (min_fin lo p) as [q2 [-> [H2 H2']]].
      split.
      - exists o, q1, q2, p. repeat split; try reflexivity; lra.
      - split; [exact Et |]. rewrite Et. split; [apply hour_window |].
        split; apply le_num_fin; assumption. }
    split.
    + apply Forall_app. split; [exact Hbefore |].
      apply Forall_cons; [apply Hb' | exact Hafter].
    + intros pt0 H. apply in_app_or in H. destruct H as [H | [<- | []]].
      * destruct (Hcov pt0 H) as [b0 [Hb0 Hc]].
        apply in_app_or in Hb0. destruct Hb0 as [Hb0 | [<- | Hb0]].
        -- exists b0. split; [apply in_or_app; left; exact Hb0 | exact Hc].
        -- exists b'. split; [apply in_or_app; right; left; reflexivity |].
           apply (covers_widened b b' pt0 0 p Hb Hc); subst b'; cbn; rewrite ?Ep; reflexivity.
        -- exists b0. split; [apply in_or_app; right; right; exact Hb0 | exact Hc].
      * exists b'. split; [apply in_or_app; right; left; reflexivity | apply Hb'].
Qed.

Lemma hourly_prices (points : list PricePoint) :
  Forall (fun pt => finite (pp_price pt)) points ->
  Forall bar_ok (hourly_buckets points) /\
  (forall pt, In pt points -> exists b, In b (hourly_buckets points) /\ covers b pt).
Proof.
  induction points as [| pt points IH] using rev_ind; intros H.
  - split; [apply Forall_nil | intros pt []].
  - apply Forall_app in H. destruct H as [Hpoints Hpt].
    inversion Hpt as [| ? ? Hfin _]; subst.
    destruct (IH Hpoints) as [IH1 IH2].
    rewrite hourly_buckets_snoc.
    apply add_point_prices; assumption.
Qed.

(** X28. [constructOHLC] returns one bar for each hour that has a price
    point and none for any other hour, in strictly ascending order of
    timestamps that are whole hours; there are at most as many bars as
    points. When the prices are rational, every bar has its open and close
    between its low and its high, and every point lies in the hour of its
    bar with its price between that bar's low and high. *)
Theorem X28_hourly_bars (priceHistory : list PricePoint) :
  let bars := constructOHLC priceHistory in
  StronglySorted (fun a b => (timestamp a < timestamp b)%Z) bars /\
  (forall k, In k (map timestamp bars) <-> In k (map hourKey priceHistory)) /\
  Forall (fun b => (timestamp b mod 3600000 = 0)%Z) bars /\
  (length bars <= length priceHistory)%nat /\
  (Forall (fun pt => finite (pp_price pt)) priceHistory ->
   Forall bar_ok bars /\
   forall pt, In pt priceHistory -> exists b, In b bars /\ covers b pt).
Proof.
  intros bars. subst bars. unfold constructOHLC.
  pose proof (sort_by_perm timestamp (hourly_buckets priceHistory)) as Hperm.
  destruct (hourly_keys priceHistory) as [Hn Hk].
  assert (Hkeys : forall k, In k (map timestamp (sort_by timestamp (hourly_buckets priceHistory)))
                            <-> In k (map hourKey priceHistory)).
  { intros k. rewrite <- Hk. split; apply Permutation_in, Permutation_map;
      [exact Hperm | apply Permutation_sym; exact Hperm]. }
  assert (Hnd : NoDup (map timestamp (sort_by timestamp (hourly_buckets priceHistory)))).
  { apply (Permutation_NoDup (Permutation_map timestamp (Permutation_sym Hperm))).
    exact Hn. }
  split; [apply sorted_strict; [apply sort_by_sorted | exact Hnd] |].
  split; [exact Hkeys |]. split.
  { apply Forall_forall. intros b Hb.
    assert (Hin : In (timestamp b) (map hourKey priceHistory))
      by (apply Hkeys, in_map, Hb).
    apply in_map_iff in Hin. destruct Hin as [pt [<- _]]. apply hour_window. }
  split.
  { rewrite <- (length_map timestamp), <- (length_map hourKey priceHistory).
    apply NoDup_incl_length; [exact Hnd |].
    intros k Hin. apply Hkeys. exact Hin. }
  intros Hfin. destruct (hourly_prices priceHistory Hfin) as [Hok Hcov].
  split.
  - apply Forall_forall. intros b Hb.
    apply (proj1 (Forall_forall _ _) Hok).
    apply (Permutation_in _ Hperm). exact Hb.
  - intros pt Hpt. destruct (Hcov pt Hpt) as [b [Hb Hc]].
    exists b. split; [| exact Hc].
    apply (Permutation_in _ (Permutation_sym Hperm)). exact Hb.
Qed.

Lemma X28_hourly_bars_witness :
  Forall bar_ok
    (constructOHLC
       [mkPricePoint 3600500 (Fin 11) (Some (Fin 2));
        mkPricePoint 100 (Fin 10) None;
        mkPricePoint 3601000 (Fin 9) (Some (Fin 1))]).
Proof.
  apply (X28_hourly_bars
           [mkPricePoint 3600500 (Fin 11) (Some (Fin 2));
            mkPricePoint 100 (Fin 10) None;
            mkPricePoint 3601000 (Fin 9) (Some (Fin 1))]).
  repeat (apply Forall_cons; [eexists; reflexivity |]). apply Forall_nil.
Defined.

End HourlyBars.

(** * Further properties: the analysis pipeline *)

Section Pipeline.

Import TechnicalIndicators2.
Import PredictionEngine2.

Lemma calculateVolatility_series (Math_sqrt Math_log : num -> num)
    (prices : list num) (period : positive) :
  ((length prices < Pos.to_nat period + 1)%nat ->
   calculateVolatility Math_sqrt Math_log prices period = None) /\
  ((Pos.to_nat period + 1 <= length prices)%nat ->
   exists series,
     calculateVolatility Math_sqrt Math_log prices period = Some series /\
     length series = (length prices - Pos.to_nat period)%nat).
Proof.
  pose proof (Pos2Nat.is_pos period) as Hpos.
  unfold calculateVolatility. cbv zeta.
  destruct (Nat.ltb_spec (length prices) (Pos.to_nat period + 1)) as [Hlt | Hle].
  - split; [reflexivity | intros; lia].
  - split; [intros; lia |]. intros _. eexists. split; [reflexivity |].
    rewrite length_map, range_length, length_map, range_length. lia.
Qed.

Lemma getAnalysis_entries (Math_sqrt Math_log : num -> num)
    (priceHistory : list PricePoint) :
  (50 <= length (constructOHLC priceHistory))%nat ->
  exists a,
    getAnalysis Math_sqrt Math_log priceHistory = Some a /\
    currentPrice a = get_from_end (map close (constructOHLC priceHistory)) 1 /\
    adx_ (indicators a) = calculateADX (constructOHLC priceHistory) 14 /\
    PredictionEngine.volatility (indicators a) =
      calculateVolatility Math_sqrt Math_log
        (map close (constructOHLC priceHistory)) 30 /\
    supportResistance (indicators a) =
      calculateSupportResistance (constructOHLC priceHistory) 50.
Proof.
  intros H. unfold getAnalysis. cbv zeta.
  destruct (Nat.ltb_spec (length (constructOHLC priceHistory)) 50) as [Hlt | _]; [lia |].
  eexists. split; [reflexivity |]. repeat split.
Qed.

(** X29. [getAnalysis] returns [null] exactly when the price history
    covers fewer than 50 hours; otherwise the snapshot it returns cannot
    make the trend scorer or the volatility scorer throw, because the ADX
    series has one value per bar after the first and the volatility series
    one per bar after the thirtieth. [generatePrediction] then throws
    exactly when [calculateSupportResistance] found no support or no
    resistance level on the bars, whatever [Math.sqrt] and [Math.log]
    return. *)
Theorem X29_only_empty_levels_fail_the_pipeline (Math_sqrt Math_log : num -> num)
    (priceHistory : list PricePoint) (db : DatabaseManager.DB) (now : Z)
    (cid : string) :
  let bars := constructOHLC priceHistory in
  ((length bars < 50)%nat <-> getAnalysis Math_sqrt Math_log priceHistory = None) /\
  ((50 <= length bars)%nat ->
   exists a sr series,
     getAnalysis Math_sqrt Math_log priceHistory = Some a /\
     currentPrice a = get_from_end (map close bars) 1 /\
     calculateSupportResistance bars 50 = Some sr /\
     supportResistance (indicators a) = Some sr /\
     PredictionEngine.volatility (indicators a) = Some series /\
     length series = (length bars - 30)%nat /\
     (exists s, analyzeTrend (indicators a) (currentPrice a) = Ok s) /\
     (exists s, analyzeVolatility (indicators a) = Ok s) /\
     (generatePrediction db now cid (Some a) = Throw TypeError <->
      support sr = [] \/ resistance sr = [])).
Proof.
  intros bars. subst bars. split.
  { unfold getAnalysis. cbv zeta.
    destruct (Nat.ltb_spec (length (constructOHLC priceHistory)) 50) as [Hlt | Hge].
    - split; [reflexivity | intros _; exact Hlt].
    - split; [intros; lia | discriminate]. }
  intros Hlen.
  destruct (getAnalysis_entries Math_sqrt Math_log priceHistory Hlen)
    as [a [Ea [Ep [Eadx [Evol Esr]]]]].
  set (bars := constructOHLC priceHistory) in *.
  assert (Hsr : exists sr, calculateSupportResistance bars 50 = Some sr).
  { unfold calculateSupportResistance. cbv zeta.
    destruct (Nat.ltb_spec (length bars) (Pos.to_nat 50)) as [Hlt | _];
      [change (Pos.to_nat 50) with 50%nat in Hlt; lia | eexists; reflexivity]. }
  destruct Hsr as [sr Hsr].
  destruct (proj2 (calculateVolatility_series Math_sqrt Math_log (map close bars) 30))
    as [series [Hv Lv]].
  { rewrite length_map. change (Pos.to_nat 30) with 30%nat. lia. }
  destruct (proj2 (calculateADX_series bars 14)) as [r [adxs [Hr [Ha [La _]]]]].
  { change (Pos.to_nat 14) with 14%nat. lia. }
  rewrite length_map in Lv. change (Pos.to_nat 30) with 30%nat in Lv.
  assert (Nadx : ~ empty_adx (indicators a)).
  { intros [x [Hx Hnil]]. rewrite Eadx, Hr in Hx. injection Hx as <-.
    rewrite Ha in Hnil. injection Hnil as ->. simpl in La. lia. }
  assert (Nvol : ~ empty_volatility (indicators a)).
  { unfold empty_volatility. rewrite Evol, Hv. intros E. injection E as ->.
    simpl in Lv. lia. }
  assert (Hlev : empty_levels (indicators a) <-> support sr = [] \/ resistance sr = []).
  { unfold empty_levels. rewrite Esr, Hsr. split.
    - intros [sr' [E H]]. injection E as <-. exact H.
    - intros H. exists sr. split; [reflexivity | exact H]. }
  destruct (scorers_throw_iff (indicators a) (currentPrice a)) as [Ht [Hvt _]].
  exists a, sr, series.
  split; [exact Ea |]. split; [exact Ep |]. split; [exact Hsr |].
  split; [rewrite Esr; exact Hsr |]. split; [rewrite Evol; exact Hv |].
  split; [exact Lv |]. split.
  { destruct (analyzeTrend (indicators a) (currentPrice a)) as [s | []];
      [eexists; reflexivity | exfalso; apply Nadx, Ht; reflexivity]. }
  split.
  { destruct (analyzeVolatility (indicators a)) as [s | []];
      [eexists; reflexivity | exfalso; apply Nvol, Hvt; reflexivity]. }
  destruct (generatePrediction_outcomes db now cid (indicators a) (currentPrice a))
    as [_ [Hthrow _]].
  assert (Ea' : a = mkAnalysis (indicators a) (currentPrice a)) by (destruct a; reflexivity).
  rewrite Ea' at 1. rewrite Hthrow, <- Hlev. tauto.
Qed.

Lemma X29_only_empty_levels_fail_the_pipeline_witness :
  exists a,
    getAnalysis (fun x => x) (fun x => x)
      (map (fun i => mkPricePoint (Z.of_nat i * 3600000) (of_nat (100 + i)) None)
           (seq 0 50)) = Some a /\
    exists s, analyzeTrend (indicators a) (currentPrice a) = Ok s.
Proof.
  destruct (proj2 (X29_only_empty_levels_fail_the_pipeline (fun x => x) (fun x => x)
                     (map (fun i => mkPricePoint (Z.of_nat i * 3600000)
                                      (of_nat (100 + i)) None)
                          (seq 0 50))
                     (DatabaseManager.mkDB [] [] []) 0 "bitcoin"))
    as [a [sr [series [Ea [_ [_ [_ [_ [_ [Ht _]]]]]]]]]].
  - vm_compute. lia.
  - exists a. split; [exact Ea | exact Ht].
Defined.

Lemma fold_add_finite (l : list num) (acc : Q) :
  Forall finite l -> exists s, fold_left add l (Fin acc) = Fin s.
Proof.
  intros H. revert acc. induction H as [| x l [q ->] _ IH]; intros acc.
  - exists acc. reflexivity.
  - cbn [fold_left]. apply IH.
Qed.

Lemma square_nonneg (x : Q) : 0 <= x * x.
Proof.
  destruct (Qlt_le_dec x 0) as [H | H].
  - setoid_replace (x * x) with ((- x) * (- x)) by ring.
    apply Qmult_le_0_compat; lra.
  - apply Qmult_le_0_compat; lra.
Qed.

Lemma squared_deviations_nonneg (m : Q) (l : list num) (acc : Q) :
  Forall finite l ->
  exists s,
    fold_left (fun sum x => sum + (x - Fin m) * (x - Fin m))%js l (Fin acc) = Fin s /\
    acc <= s.
Proof.
  intros H. revert acc. induction H as [| x l [q ->] _ IH]; intros acc.
  - exists acc. split; [reflexivity | lra].
  - cbn [fold_left]. unfold sub, neg, mul, add.
    destruct (IH (acc + (q + - m) * (q + - m))) as [s [Es Hs]].
    exists s. split; [exact Es |].
    pose proof (square_nonneg (q + - m)). lra.
Qed.

(** X30. The Bollinger bands of fewer than [period] prices are [null];
    otherwise the middle band is the simple moving average, and the upper
    band, the lower band and the bandwidth have as many values as it has.
    On rational prices, with a width [stdDev >= 0] and a square root that
    maps non-negative numbers to non-negative numbers, the bands are
    ordered at every index: lower <= middle <= upper. *)
Theorem X30_bollinger_bands_enclose_the_average (Math_sqrt : num -> num)
    (prices : list num) (period : positive) (stdDev : num) :
  ((length prices < Pos.to_nat period)%nat ->
   calculateBollingerBands Math_sqrt prices period stdDev = None) /\
  ((Pos.to_nat period <= length prices)%nat ->
   exists bb,
     calculateBollingerBands Math_sqrt prices period stdDev = Some bb /\
     calculateSMA prices period = Some (middle bb) /\
     length (middle bb) = (length prices - Pos.to_nat period + 1)%nat /\
     length (upper bb) = length (middle bb) /\
     length (lower bb) = length (middle bb) /\
     length (bandwidth bb) = length (middle bb) /\
     forall d : Q,
       Forall finite prices -> stdDev = Fin d -> 0 <= d ->
       (forall q, 0 <= q -> fin_from 0 (Math_sqrt (Fin q))) ->
       forall i, (i < length (middle bb))%nat ->
         exists u m l,
           get (upper bb) i = Fin u /\ get (middle bb) i = Fin m /\
           get (lower bb) i = Fin l /\ l <= m <= u).
Proof.
  pose proof (Pos2Nat.is_pos period) as Hpos.
  split.
  { intros H. unfold calculateBollingerBands.
    rewrite (calculateSMA_short prices period H). reflexivity. }
  intros Hle.
  destruct (calculateSMA_series prices period Hle) as [sma [Es [Ls Hs]]].
  unfold calculateBollingerBands. rewrite Es. cbv zeta.
  eexists. split; [reflexivity |].
  cbn [upper middle lower bandwidth].
  split; [reflexivity |]. split; [exact Ls |].
  assert (Lb : forall side, length (band Math_sqrt side prices sma (Pos.to_nat period) stdDev)
                            = length sma).
  { intros side. unfold band. rewrite length_map, range_length. lia. }
  split; [apply Lb |]. split; [apply Lb |].
  split; [rewrite length_map, range_length, Lb; lia |].
  intros d Hfin -> Hd Hsqrt i Hi.
  destruct (Hs i Hi) as [Lw Hm]. cbv zeta in Lw, Hm.
  assert (Hw : Forall finite (slice i (i + Pos.to_nat period) prices))
    by (apply slice_forall; exact Hfin).
  destruct (fold_add_finite _ 0 Hw) as [t Et].
  assert (Hp : 0 < inject_Z (Z.of_nat (Pos.to_nat period))) by (apply of_nat_pos; exact Hpos).
  assert (Em : get sma i = Fin (t / inject_Z (Z.of_nat (Pos.to_nat period)))).
  { unfold get. rewrite Hm. unfold average, sum. rewrite Et, Lw. unfold of_nat.
    apply div_fin. lra. }
  destruct (squared_deviations_nonneg (t / inject_Z (Z.of_nat (Pos.to_nat period)))
              _ 0 Hw) as [v [Ev Hv]].
  assert (Hvar : 0 <= v / inject_Z (Z.of_nat (Pos.to_nat period)))
    by (apply Qle_shift_div_l; [exact Hp | lra]).
  destruct (Hsqrt _ Hvar) as [r [Er Hr]].
  assert (Eband : forall side,
            get (band Math_sqrt side prices sma (Pos.to_nat period) (Fin d)) i =
            side (Fin (t / inject_Z (Z.of_nat (Pos.to_nat period)))) (Fin (r * d))).
  { intros side. unfold band, get at 1.
    rewrite (nth_map_range _ 0 (length sma) i) by lia.
    cbn [Nat.add]. rewrite Em. unfold squared_deviations. rewrite Ev.
    unfold of_nat. rewrite div_fin by lra. rewrite Er. reflexivity. }
  exists (t / inject_Z (Z.of_nat (Pos.to_nat period)) + r * d),
         (t / inject_Z (Z.of_nat (Pos.to_nat period))),
         (t / inject_Z (Z.of_nat (Pos.to_nat period)) + - (r * d)).
  split; [rewrite Eband; reflexivity |]. split; [exact Em |].
  split; [rewrite Eband; reflexivity |].
  assert (Hrd : 0 <= r * d) by (apply Qmult_le_0_compat; assumption).
  split; lra.
Qed.

Lemma X30_bollinger_bands_enclose_the_average_witness :
  exists bb u m l,
    calculateBollingerBands (fun x => x) (prices_of [10; 12; 11; 13]%Z) 2 (Fin 2) = Some bb /\
    get (upper bb) 0 = Fin u /\ get (middle bb) 0 = Fin m /\
    get (lower bb) 0 = Fin l /\ l <= m <= u.
Proof.
  destruct (proj2 (X30_bollinger_bands_enclose_the_average (fun x => x)
                     (prices_of [10; 12; 11; 13]%Z) 2 (Fin 2)))
    as [bb [E [_ [Lm [_ [_ [_ H]]]]]]].
  - vm_compute. lia.
  - destruct (H 2) with (i := 0%nat) as [u [m [l [Eu [Em [El Ho]]]]]].
    + repeat (apply Forall_cons; [eexists; reflexivity |]). apply Forall_nil.
    + reflexivity.
    + lra.
    + intros q Hq. exists q. split; [reflexivity | exact Hq].
    + rewrite Lm. vm_compute. lia.
    + exists bb, u, m, l. auto.
Defined.

End Pipeline.
